(** * allora-model-maker: the random-forest volatility model

    A shallow embedding of [models/rfregressor_volatility/model.py] and
    [models/rfregressor_volatility/configs.py], and of [split_date_ranges]
    and [model_selection_input] of [train.py].

    - A pandas [Series] of floats is a list of cells; a cell is [None] for
      NaN (pandas' missing value) and [Some v] for any other float.
    - Floating-point arithmetic on prices is not modelled: division,
      logarithm, standard deviation, mean and the exponential smoothing
      step are the operations of a class [FloatOps].  Everything structural
      (shifts, windows, slices, sampling, row removal, filling) is defined
      here.  The one float that decides control flow, the quotient of the
      two durations, is computed as binary64 does.
    - The regression estimator is opaque: a class [Estimator] with [fit]
      and [predict], both of which may raise.
    - DataFrames are mutable Python objects: they live in a store of frames
      addressed by position, and the methods of the model run in a state
      and exception monad over that store.
    - The [print] calls of the source write to standard output only and are
      left out. *)

From stdpp Require Import base list strings option pretty gmap.
From Stdlib Require Import ZArith Lia Ascii.

Set Default Proof Using "Type".

(** ** Python exceptions *)

(** The exceptions the modelled code can raise.  [InsufficientData] is the
    condition named in the design's error taxonomy; no statement of the
    source raises it, and it is listed so that properties about it can be
    written down. *)
Inductive exn : Type :=
  | KeyError (column : string)
  | ValueError
  | ArithmeticError
  | OverflowError
  | NotFittedError
  | EstimatorError
  | InsufficientData.

Inductive Res (A : Type) : Type :=
  | Ok (a : A)
  | Raise (e : exn).
Arguments Ok {A} a.
Arguments Raise {A} e.

(** ** Python's [range(start, stop, step)] for a positive step *)

Fixpoint range_from (fuel start stop step : nat) : list nat :=
  match fuel with
  | O => []
  | S fuel' =>
      if decide (start < stop)
      then start :: range_from fuel' (start + step) stop step
      else []
  end.

(** [stop - start] iterations are always enough when [step >= 1]. *)
Definition py_range (start stop step : nat) : list nat :=
  range_from (stop - start) start stop step.

(** [l[::step]] for a positive step: the elements at [range(0, len(l), step)]. *)
Definition every_nth {A} (step : nat) (l : list A) : list A :=
  omap (fun i => l !! i) (py_range 0 (length l) step).

(** [l[::step]] for any integer step: a zero step raises, a negative step
    walks backwards from the last element. *)
Definition slice_step {A} (step : Z) (l : list A) : Res (list A) :=
  if decide (step = 0)%Z then Raise ValueError
  else if decide (step < 0)%Z then Ok (every_nth (Z.to_nat (- step)) (reverse l))
  else Ok (every_nth (Z.to_nat step) l).

(** ** Floating-point operations *)

Class FloatOps (val : Type) : Type := {
  (** [a / b]; [None] when the quotient is NaN. *)
  fdiv : val -> val -> option val;
  (** [np.log]; [None] when the result is NaN. *)
  flog : val -> option val;
  (** Sample standard deviation (ddof = 1) of at least two floats. *)
  fstd : list val -> option val;
  (** Arithmetic mean of a full window. *)
  fmean : list val -> option val;
  (** One step of the exponentially weighted mean with [adjust=False]:
      [ewm_update span gap y x] folds the observation [x] into the running
      mean [y] after [gap] missing observations. *)
  ewm_update : nat -> nat -> val -> val -> val;
  (** The float [0.0]. *)
  fzero : val
}.

(** ** Series *)

(** A series of floats over values [val]; [None] is NaN. *)
Abbreviation Series val := (list (option val)).

Section Series.

Context {val : Type} {float_ops : FloatOps val}.

(** [s.shift(periods)]: same length, values moved by [periods] positions,
    the vacated positions are NaN. *)
Definition shift (s : Series val) (periods : Z) : Series val :=
  if decide (0 <= periods)%Z
  then take (length s) (replicate (Z.to_nat periods) None ++ s)
  else drop (Z.to_nat (- periods)) s
         ++ replicate (Nat.min (Z.to_nat (- periods)) (length s)) None.

(** [a / b] on two series with the same index. *)
Definition series_div (a b : Series val) : Series val :=
  zip_with (fun x y => x' ← x; y' ← y; fdiv x' y') a b.

(** [np.log(s)]. *)
Definition np_log (s : Series val) : Series val :=
  (fun x => x ≫= flog) <$> s.

(** [s.iloc[a:b]] for [0 <= a <= b]. *)
Definition iloc_slice (s : Series val) (a b : nat) : Series val :=
  take (b - a) (drop a s).

(** [s.iloc[a:b] = v]: positions past the end are ignored. *)
Definition iloc_assign (s : Series val) (a b : nat) (v : option val) : Series val :=
  list_inserts a (replicate (b - a) v) s.

(** [s.std()]: NaN entries are skipped, and fewer than two remaining values
    give NaN. *)
Definition series_std (s : Series val) : option val :=
  let vs := omap id s in
  if decide (length vs <= 1) then None else fstd vs.

(** [s.fillna(method='ffill')]: every NaN takes the last value before it. *)
Fixpoint ffill_from (last : option val) (s : Series val) : Series val :=
  match s with
  | [] => []
  | None :: rest => last :: ffill_from last rest
  | Some v :: rest => Some v :: ffill_from (Some v) rest
  end.

Definition ffill (s : Series val) : Series val := ffill_from None s.

(** [s.fillna(method='bfill')]: every NaN takes the next value after it. *)
Fixpoint bfill (s : Series val) : Series val :=
  match s with
  | [] => []
  | x :: rest =>
      let rest' := bfill rest in
      match x with
      | Some v => Some v :: rest'
      | None => default None (head rest') :: rest'
      end
  end.

(** [s.fillna(v)]. *)
Definition fillna_value (v : val) (s : Series val) : Series val :=
  (fun x => Some (default v x)) <$> s.

(** [s.rolling(window=window).mean()]: NaN until [window] observations are
    available, and NaN when the window holds a NaN. *)
Definition rolling_mean (window : nat) (s : Series val) : Series val :=
  imap (fun t _ =>
          if decide (window <= t + 1)
          then mapM id (iloc_slice s (t + 1 - window) (t + 1)) ≫= fmean
          else None) s.

(** [s.ewm(span=span, adjust=False).mean()]: the first observation starts
    the running mean; a NaN repeats the running mean and widens the gap. *)
Fixpoint ewm_from (span : nat) (y : val) (gap : nat) (s : Series val) : Series val :=
  match s with
  | [] => []
  | None :: rest => Some y :: ewm_from span y (S gap) rest
  | Some x :: rest =>
      let y' := ewm_update span gap y x in
      Some y' :: ewm_from span y' 0 rest
  end.

Fixpoint ewm_mean (span : nat) (s : Series val) : Series val :=
  match s with
  | [] => []
  | None :: rest => None :: ewm_mean span rest
  | Some x :: rest => Some x :: ewm_from span x 0 rest
  end.

(** [np.log(series / series.shift(1))]. *)
Definition log_returns_of (series : Series val) : Series val :=
  np_log (series_div series (shift series 1)).

(** The [for start_idx in range(...)] loop of
    [_calculate_non_overlapping_volatility], with its [break]. *)
Fixpoint vol_for (idxs : list nat) (log_returns : Series val)
    (n window_points : nat) (volatility : Series val) : Series val :=
  match idxs with
  | [] => volatility
  | start_idx :: rest =>
      let end_idx := start_idx + window_points in
      if decide (n < end_idx) then volatility
      else
        let window_data := iloc_slice log_returns start_idx end_idx in
        let vol := series_std window_data in
        vol_for rest log_returns n window_points
          (iloc_assign volatility start_idx end_idx vol)
  end.

(** [range(0, n, window_points)] raises for a zero step and is empty for a
    negative one. *)
Definition _calculate_non_overlapping_volatility
    (series : Series val) (window_points : Z) : Res (Series val) :=
  let log_returns := log_returns_of series in
  let volatility := replicate (length series) None in
  if decide (window_points = 0)%Z then Raise ValueError
  else if decide (window_points < 0)%Z then Ok volatility
  else
    let w := Z.to_nat window_points in
    Ok (vol_for (py_range 0 (length series) w) log_returns
          (length series) w volatility).

End Series.

(** ** DataFrames *)

(** Row labels and named columns, in insertion order.  In a well-formed
    frame every column is as long as the index. *)
Record DataFrame (val : Type) : Type := mkDataFrame {
  index : list Z;
  columns : list (string * Series val)
}.
Arguments mkDataFrame {val} index columns.
Arguments index {val} d.
Arguments columns {val} d.

Section Frames.

Context {val : Type} {float_ops : FloatOps val}.

Global Instance DataFrame_inhabited : Inhabited (DataFrame val) :=
  populate (mkDataFrame [] []).

Fixpoint assoc_get (name : string) (cols : list (string * Series val))
    : option (Series val) :=
  match cols with
  | [] => None
  | (k, s) :: rest => if decide (k = name) then Some s else assoc_get name rest
  end.

(** An existing column is replaced in place, a new one goes last. *)
Fixpoint assoc_set (name : string) (s : Series val)
    (cols : list (string * Series val)) : list (string * Series val) :=
  match cols with
  | [] => [(name, s)]
  | (k, s0) :: rest =>
      if decide (k = name) then (k, s) :: rest
      else (k, s0) :: assoc_set name s rest
  end.

(** [df[name]] *)
Definition col (df : DataFrame val) (name : string) : option (Series val) :=
  assoc_get name (columns df).

(** [df[name] = s] *)
Definition set_col (name : string) (s : Series val) (df : DataFrame val)
    : DataFrame val :=
  mkDataFrame (index df) (assoc_set name s (columns df)).

Definition map_columns (f : Series val -> Series val) (df : DataFrame val)
    : DataFrame val :=
  mkDataFrame (index df) (prod_map id f <$> columns df).

(** Does the frame have the shape pandas guarantees? *)
Definition well_formed (df : DataFrame val) : Prop :=
  Forall (fun c => length c.2 = length (index df)) (columns df).

(** [df.iloc[::step]] *)
Definition frame_slice_step (step : Z) (df : DataFrame val)
    : Res (DataFrame val) :=
  match slice_step step (index df) with
  | Raise e => Raise e
  | Ok idx =>
      Ok (mkDataFrame idx
            (prod_map id
               (fun s => match slice_step step s with Ok s' => s' | Raise _ => [] end)
               <$> columns df))
  end.

(** [pd.notna] on a cell. *)
Definition notna (x : option val) : bool :=
  match x with Some _ => true | None => false end.

(** The rows without a NaN in any column. *)
Definition notna_rows (df : DataFrame val) : list bool :=
  foldr (fun c mask => zip_with andb (notna <$> c.2) mask)
    (replicate (length (index df)) true) (columns df).

Fixpoint keep {A} (mask : list bool) (l : list A) : list A :=
  match mask, l with
  | b :: mask', x :: l' => if b then x :: keep mask' l' else keep mask' l'
  | _, _ => []
  end.

(** [df.dropna()] *)
Definition dropna (df : DataFrame val) : DataFrame val :=
  let mask := notna_rows df in
  mkDataFrame (keep mask (index df)) (prod_map id (keep mask) <$> columns df).

(** [df[names]]: the named columns in the order asked for. *)
Fixpoint select_columns (names : list string) (df : DataFrame val)
    : Res (list (string * Series val)) :=
  match names with
  | [] => Ok []
  | name :: rest =>
      match col df name with
      | None => Raise (KeyError name)
      | Some s =>
          match select_columns rest df with
          | Raise e => Raise e
          | Ok cols => Ok ((name, s) :: cols)
          end
      end
  end.

End Frames.

(** ** The estimator *)

(** The random forest of scikit-learn, as a black box.  [fit] receives the
    hyperparameters the estimator was constructed with, the feature table
    and the target; [predict] receives the fitted state and the feature
    table.  [None] stands for an exception raised inside the estimator. *)
Class Estimator (val Est : Type) : Type := {
  fit : Z * Z * Z -> DataFrame val -> Series val -> option Est;
  predict : Est -> DataFrame val -> option (list val)
}.

(** ** Configuration *)

(** [RfregressorConfig].  Durations are in nanoseconds, the unit in which
    [pd.Timedelta] stores them. *)
Record RfregressorConfig : Type := mkConfig {
  params : list (string * string);
  cfg_candle_interval : Z;
  cfg_volatility_window : Z;
  n_lags : Z;
  ma_window : Z;
  target_shift : Z;
  fillna_method : string;
  technical_indicators : list string;
  n_estimators : Z;
  random_state : Z;
  n_jobs : Z
}.

Definition minute : Z := 60 * 1000000000.

(** [RfregressorConfig.__init__] *)
Definition RfregressorConfig_init : RfregressorConfig := {|
  params := [("objective", "reg:squarederror"); ("eval_metric", "rmse")];
  cfg_candle_interval := 1 * minute;
  cfg_volatility_window := 5 * minute;
  n_lags := 5;
  ma_window := 10;
  target_shift := 5;
  fillna_method := "ffill";
  technical_indicators := ["SMA_10"; "EMA_10"];
  n_estimators := 10;
  random_state := 42;
  n_jobs := 25
|}.

(** The attributes [RfregressorVolatilityModel.__init__] sets on [self];
    the estimator itself is part of the mutable world below. *)
Record RfregressorVolatilityModel : Type := mkModel {
  model_name : string;
  config : RfregressorConfig;
  hyperparameters : Z * Z * Z;
  candle_interval : Z;
  volatility_window : Z
}.

(** [RfregressorVolatilityModel.__init__] *)
Definition RfregressorVolatilityModel_init
    (model_name : string) (config : RfregressorConfig)
    : RfregressorVolatilityModel := {|
  model_name := model_name;
  config := config;
  hyperparameters := (n_estimators config, random_state config, n_jobs config);
  candle_interval := cfg_candle_interval config;
  volatility_window := cfg_volatility_window config
|}.

(** ** The quotient of two durations

    [pd.Timedelta(a) / pd.Timedelta(b)] divides the two stored integers as
    floats, each converted to a float first, and [int] truncates the
    quotient towards zero.  A float is a binary64 number; conversion and
    division round to the nearest one, ties to even.  The stored integers
    have 64 bits, far from where a float overflows or leaves its normal
    form, so neither is modelled. *)

(** The float nearest to [n / d], for positive [n] and [d], is
    [m / 2 ^ k] with a mantissa [m] of 53 bits.  The scale [k] is the one
    that puts [n * 2 ^ k / d] between 2^52 and 2^53. *)
Definition binary64_scale (n d : Z) : Z :=
  let k0 := (52 - (Z.log2 n - Z.log2 d))%Z in
  if decide (n * 2 ^ Z.max k0 0 < d * 2 ^ Z.max (- k0) 0 * 2 ^ 52)%Z
  then (k0 + 1)%Z else k0.

(** The mantissa is [n * 2 ^ k / d] rounded to the nearest integer, a tie
    going to the even one. *)
Definition binary64_mantissa (n d k : Z) : Z :=
  let num := (n * 2 ^ Z.max k 0)%Z in
  let den := (d * 2 ^ Z.max (- k) 0)%Z in
  let q := (num / den)%Z in
  let r := (num mod den)%Z in
  if decide (den < 2 * r \/ (2 * r = den /\ Z.odd q))%Z then (q + 1)%Z else q.

(** The integer part of the float nearest to [n / d]. *)
Definition truncated_quotient (n d : Z) : Z :=
  let k := binary64_scale n d in
  let m := binary64_mantissa n d k in
  if decide (0 <= k)%Z then (m / 2 ^ k)%Z else (m * 2 ^ (- k))%Z.

(** [float(a)] for an integer [a]; the nearest float is again an integer. *)
Definition float_of_int (a : Z) : Z :=
  if decide (a = 0)%Z then 0%Z
  else (Z.sgn a * truncated_quotient (Z.abs a) 1)%Z.

(** [int(a / b)] for two floats that hold the integers [a] and [b], [b]
    not zero. *)
Definition int_of_float_div (a b : Z) : Z :=
  if decide (a = 0)%Z then 0%Z
  else (Z.sgn a * Z.sgn b * truncated_quotient (Z.abs a) (Z.abs b))%Z.

(** [int(pd.Timedelta(volatility_window) / pd.Timedelta(candle_interval))];
    a zero interval raises. *)
Definition window_points_of (self : RfregressorVolatilityModel) : Res Z :=
  if decide (candle_interval self = 0)%Z then Raise ArithmeticError
  else Ok (int_of_float_div (float_of_int (volatility_window self))
             (float_of_int (candle_interval self))).

(** ** The world: the store of frames, the estimator, and what was called *)

Inductive Event (val : Type) : Type :=
  | EvFit (X : DataFrame val) (y : Series val)
  | EvPredict (X : DataFrame val)
  | EvSave (name : string).
Arguments EvFit {val} X y.
Arguments EvPredict {val} X.
Arguments EvSave {val} name.

Record World (val Est : Type) : Type := mkWorld {
  frames : list (DataFrame val);
  fitted : option Est;
  events : list (Event val)
}.
Arguments mkWorld {val Est} frames fitted events.
Arguments frames {val Est} w.
Arguments fitted {val Est} w.
Arguments events {val Est} w.

(** A reference to a DataFrame object. *)
Definition ptr : Type := nat.

Section Monad.

Context {val Est : Type}.

Definition M (A : Type) : Type := World val Est -> World val Est * Res A.

Definition ret {A} (a : A) : M A := fun w => (w, Ok a).

Definition bind {A B} (m : M A) (k : A -> M B) : M B :=
  fun w =>
    match m w with
    | (w', Ok a) => k a w'
    | (w', Raise e) => (w', Raise e)
    end.

Definition raise {A} (e : exn) : M A := fun w => (w, Raise e).

Definition lift {A} (r : Res A) : M A := fun w => (w, r).

End Monad.

Notation "x <- m ;; k" := (bind m (fun x => k))
  (at level 100, m at next level, right associativity,
   format "'[v' x  <-  m  ;;  '/' k ']'").

Section Objects.

Context {val : Type} {float_ops : FloatOps val}.
Context {Est : Type} {estimator : Estimator val Est}.

Local Abbreviation M := (@M val Est).

(** *** DataFrame methods on the store *)

(** A new object. *)
Definition alloc (df : DataFrame val) : M ptr :=
  fun w => (mkWorld (frames w ++ [df]) (fitted w) (events w), Ok (length (frames w))).

Definition deref (p : ptr) : M (DataFrame val) :=
  fun w => (w, Ok (frames w !!! p)).

(** In-place update of an object. *)
Definition update (p : ptr) (f : DataFrame val -> DataFrame val) : M unit :=
  fun w => (mkWorld (alter f p (frames w)) (fitted w) (events w), Ok tt).

(** [df.copy()] *)
Definition df_copy (p : ptr) : M ptr :=
  df <- deref p ;; alloc df.

(** [df.fillna(method='ffill')] *)
Definition df_ffill (p : ptr) : M ptr :=
  df <- deref p ;; alloc (map_columns ffill df).

(** [df.fillna(method='bfill')] *)
Definition df_bfill (p : ptr) : M ptr :=
  df <- deref p ;; alloc (map_columns bfill df).

(** [df.fillna(v)] *)
Definition df_fillna (p : ptr) (v : val) : M ptr :=
  df <- deref p ;; alloc (map_columns (fillna_value v) df).

(** [df[name]] *)
Definition df_getitem (p : ptr) (name : string) : M (Series val) :=
  df <- deref p ;;
  match col df name with
  | Some s => ret s
  | None => raise (KeyError name)
  end.

(** [df[name] = s] *)
Definition df_setitem (p : ptr) (name : string) (s : Series val) : M unit :=
  update p (set_col name s).

(** [df.iloc[::step]] *)
Definition df_iloc_step (p : ptr) (step : Z) : M ptr :=
  df <- deref p ;;
  df' <- lift (frame_slice_step step df) ;;
  alloc df'.

(** [df.dropna()] *)
Definition df_dropna (p : ptr) : M ptr :=
  df <- deref p ;; alloc (dropna df).

(** [df[names]] *)
Definition df_select (p : ptr) (names : list string) : M ptr :=
  df <- deref p ;;
  cols <- lift (select_columns names df) ;;
  alloc (mkDataFrame (index df) cols).

(** *** The estimator owned by the model *)

(** [self.model.fit(features, target)] *)
Definition model_fit (self : RfregressorVolatilityModel)
    (features : ptr) (target : Series val) : M unit :=
  X <- deref features ;;
  fun w =>
    let w' := mkWorld (frames w) (fitted w) (events w ++ [EvFit X target]) in
    match fit (hyperparameters self) X target with
    | Some e => (mkWorld (frames w') (Some e) (events w'), Ok tt)
    | None => (w', Raise EstimatorError)
    end.

(** [self.model.predict(features)] *)
Definition model_predict (features : ptr) : M (list val) :=
  X <- deref features ;;
  fun w =>
    let w' := mkWorld (frames w) (fitted w) (events w ++ [EvPredict X]) in
    match fitted w with
    | None => (w', Raise NotFittedError)
    | Some e =>
        match predict e X with
        | Some ys => (w', Ok ys)
        | None => (w', Raise EstimatorError)
        end
    end.

(** Modelled from the spec: [Model.save] of [models/base_model.py], which
    is not among the sources; the design treats it as a black-box call that
    hands the fitted estimator to the persistence collaborator. *)
Definition model_save (self : RfregressorVolatilityModel) : M unit :=
  fun w => (mkWorld (frames w) (fitted w) (events w ++ [EvSave (model_name self)]), Ok tt).

(** [pd.DataFrame({name: values}, index=index)]: the lengths must agree. *)
Definition new_frame (name : string) (values : list val) (idx : list Z) : M ptr :=
  if decide (length values = length idx)
  then alloc (mkDataFrame idx [(name, Some <$> values)])
  else raise ValueError.

(** *** The model *)

(** The [for i in range(1, 5)] loop of [_calculate_volatility_features]. *)
Fixpoint features_lag_loop (idxs : list nat) (df : ptr)
    (list_of_features : list string) : M (list string) :=
  match idxs with
  | [] => ret list_of_features
  | i :: rest =>
      let log_return_lag_name := "log_return_t-" +:+ pretty i in
      let list_of_features := list_of_features ++ [log_return_lag_name] in
      log_returns <- df_getitem df "log_returns" ;;
      _ <- df_setitem df log_return_lag_name (shift log_returns (Z.of_nat i)) ;;
      let volume_lag_name := "volume_t-" +:+ pretty i in
      let list_of_features := list_of_features ++ [volume_lag_name] in
      volume <- df_getitem df "volume" ;;
      _ <- df_setitem df volume_lag_name (shift volume (Z.of_nat i)) ;;
      features_lag_loop rest df list_of_features
  end.

Definition _calculate_volatility_features
    (self : RfregressorVolatilityModel) (df : ptr) : M (ptr * list string) :=
  df <- df_copy df ;;
  df <- df_ffill df ;;
  df <- df_bfill df ;;
  window_points <- lift (window_points_of self) ;;
  let list_of_features := [] in
  close <- df_getitem df "close" ;;
  _ <- df_setitem df "log_returns" (np_log (series_div close (shift close 1))) ;;
  list_of_features <- features_lag_loop (py_range 1 5 1) df list_of_features ;;
  close <- df_getitem df "close" ;;
  _ <- df_setitem df "SMA_10" (rolling_mean 10 close) ;;
  close <- df_getitem df "close" ;;
  _ <- df_setitem df "EMA_10" (ewm_mean 10 close) ;;
  let list_of_features := list_of_features ++ ["SMA_10"; "EMA_10"] in
  close <- df_getitem df "close" ;;
  current_volatility <- lift (_calculate_non_overlapping_volatility close window_points) ;;
  _ <- df_setitem df "current_volatility" current_volatility ;;
  let list_of_features := list_of_features ++ ["current_volatility"] in
  current_volatility <- df_getitem df "current_volatility" ;;
  _ <- df_setitem df "target_volatility" (shift current_volatility (-5)) ;;
  view <- df_iloc_step df window_points ;;
  df_sampled <- df_copy view ;;
  ret (df_sampled, list_of_features).

Definition train (self : RfregressorVolatilityModel) (data : ptr) : M unit :=
  result <- _calculate_volatility_features self data ;;
  let '(df_sampled, list_of_features) := result in
  df_sampled <- df_dropna df_sampled ;;
  let list_of_features := list_of_features ++ ["close"] in
  features <- df_select df_sampled list_of_features ;;
  target <- df_getitem df_sampled "target_volatility" ;;
  _ <- model_fit self features target ;;
  model_save self.

(** The [for i in range(1, 5)] loop of [inference]. *)
Fixpoint inference_lag_loop (idxs : list nat) (df : ptr)
    (list_of_features : list string) : M (list string) :=
  match idxs with
  | [] => ret list_of_features
  | i :: rest =>
      let log_return_lag_name := "log_return_t-" +:+ pretty i in
      let list_of_features := list_of_features ++ [log_return_lag_name] in
      log_returns <- df_getitem df "log_returns" ;;
      _ <- df_setitem df log_return_lag_name (shift log_returns (Z.of_nat i)) ;;
      let volume_lag_name := "volume_t-" +:+ pretty i in
      let list_of_features := list_of_features ++ [volume_lag_name] in
      volume <- df_getitem df "volume" ;;
      _ <- df_setitem df volume_lag_name (shift volume (Z.of_nat i)) ;;
      inference_lag_loop rest df list_of_features
  end.

Definition inference (self : RfregressorVolatilityModel) (input_data : ptr) : M ptr :=
  df <- df_copy input_data ;;
  df <- df_ffill df ;;
  df <- df_bfill df ;;
  window_points <- lift (window_points_of self) ;;
  let list_of_features := [] in
  close <- df_getitem df "close" ;;
  _ <- df_setitem df "log_returns" (np_log (series_div close (shift close 1))) ;;
  list_of_features <- inference_lag_loop (py_range 1 5 1) df list_of_features ;;
  close <- df_getitem df "close" ;;
  _ <- df_setitem df "SMA_10" (rolling_mean 10 close) ;;
  close <- df_getitem df "close" ;;
  _ <- df_setitem df "EMA_10" (ewm_mean 10 close) ;;
  let list_of_features := list_of_features ++ ["SMA_10"; "EMA_10"] in
  close <- df_getitem df "close" ;;
  current_volatility <- lift (_calculate_non_overlapping_volatility close window_points) ;;
  _ <- df_setitem df "current_volatility" current_volatility ;;
  let list_of_features := list_of_features ++ ["current_volatility"] in
  let list_of_features := list_of_features ++ ["close"] in
  selected <- df_select df list_of_features ;;
  features <- df_fillna selected fzero ;;
  predictions <- model_predict features ;;
  features_frame <- deref features ;;
  new_frame "prediction" predictions (index features_frame).

(** [pd.DataFrame({"forecast": [0] * steps})]: the single column of the
    result; a non-positive count gives the empty list. *)
Definition forecast (self : RfregressorVolatilityModel) (steps : Z) : M (list Z) :=
  ret (replicate (Z.to_nat steps) 0%Z).

End Objects.

(** ** The tables the model builds, as functions of the input table

    Closed forms of the frames that [_calculate_volatility_features] and
    [inference] leave in the store; the run lemmas below prove that the
    methods build exactly these. *)

Section Tables.

Context {val : Type} {float_ops : FloatOps val}.

(** After [fillna(method='ffill').fillna(method='bfill')]. *)
Definition filled (df : DataFrame val) : DataFrame val :=
  map_columns bfill (map_columns ffill df).

(** The two names one turn of the lag loop appends. *)
Definition lag_names (i : nat) : list string :=
  ["log_return_t-" +:+ pretty i; "volume_t-" +:+ pretty i].

(** After one turn of the lag loop. *)
Definition with_lag (i : nat) (log_returns volume : Series val)
    (t : DataFrame val) : DataFrame val :=
  set_col ("volume_t-" +:+ pretty i) (shift volume (Z.of_nat i))
    (set_col ("log_return_t-" +:+ pretty i) (shift log_returns (Z.of_nat i)) t).

(** After the lag loop. *)
Definition lagged_table (close volume : Series val) (t : DataFrame val)
    : DataFrame val :=
  let log_returns := log_returns_of close in
  with_lag 4 log_returns volume
    (with_lag 3 log_returns volume
       (with_lag 2 log_returns volume
          (with_lag 1 log_returns volume
             (set_col "log_returns" log_returns t)))).

(** After the moving averages. *)
Definition averaged_table (close volume : Series val) (t : DataFrame val)
    : DataFrame val :=
  set_col "EMA_10" (ewm_mean 10 close)
    (set_col "SMA_10" (rolling_mean 10 close) (lagged_table close volume t)).

(** After [current_volatility]: the full-resolution table of [inference]. *)
Definition feature_table (close volume current_volatility : Series val)
    (t : DataFrame val) : DataFrame val :=
  set_col "current_volatility" current_volatility (averaged_table close volume t).

(** After [target_volatility]: the full-resolution table of training. *)
Definition training_table (close volume current_volatility : Series val)
    (t : DataFrame val) : DataFrame val :=
  set_col "target_volatility" (shift current_volatility (-5))
    (feature_table close volume current_volatility t).

(** The feature names in the order the loop and the later steps append them. *)
Definition feature_names : list string :=
  ["log_return_t-1"; "volume_t-1"; "log_return_t-2"; "volume_t-2";
   "log_return_t-3"; "volume_t-3"; "log_return_t-4"; "volume_t-4";
   "SMA_10"; "EMA_10"; "current_volatility"].

End Tables.

Section Outcomes.

Context {val : Type} {float_ops : FloatOps val}.
Context {Est : Type} {estimator : Estimator val Est}.

(** What [inference] does once the feature table is selected and filled. *)
Definition inference_outcome (F' : list (DataFrame val)) (X : DataFrame val)
    (f : option Est) (e : list (Event val)) : World val Est * Res ptr :=
  let e' := e ++ [EvPredict X] in
  match f with
  | None => (mkWorld F' f e', Raise NotFittedError)
  | Some est =>
      match predict est X with
      | None => (mkWorld F' f e', Raise EstimatorError)
      | Some ys =>
          if decide (length ys = length (index X))
          then (mkWorld (F' ++ [mkDataFrame (index X) [("prediction", Some <$> ys)]]) f e',
                Ok (length F'))
          else (mkWorld F' f e', Raise ValueError)
      end
  end.

(** A computation is safe for the first [k] objects of the store when it
    leaves them as they are, never shrinks the store, and returns a value
    satisfying [Q]. *)
Definition frame_safe (k : nat) {A} (m : @M val Est A) (Q : A -> Prop) : Prop :=
  forall w, k <= length (frames w) ->
    take k (frames (m w).1) = take k (frames w)
    /\ k <= length (frames (m w).1)
    /\ forall a, (m w).2 = Ok a -> Q a.

End Outcomes.

(** ** What a method does to the estimator *)

Section Effects.

Context {val Est : Type}.

(** The part of the world a caller can observe besides the frames: the
    fitted estimator and the record of calls. *)
Definition est_state (w : World val Est) : option Est * list (Event val) :=
  (fitted w, events w).

(** [effects m P]: from every world, [m] takes the estimator state [s] to a
    state [s'] and returns [r] with [P s s' r]. *)
Definition effects {A} (m : @M val Est A)
    (P : option Est * list (Event val) -> option Est * list (Event val)
         -> Res A -> Prop) : Prop :=
  forall w, P (est_state w) (est_state (m w).1) (m w).2.

(** [quiet m]: [m] neither changes the estimator nor calls it. *)
Definition quiet {A} (m : @M val Est A) : Prop :=
  forall w, est_state (m w).1 = est_state w.

End Effects.

(** ** [train.py]: splitting a date range *)

(** What [split_date_ranges] uses of [datetime].  A date at midnight is
    the number of its day; [timedelta(days=k)] is [k]. *)
Class Calendar : Type := {
  (** [datetime.strptime(s, "%Y-%m-%d")]; raises on a malformed date. *)
  strptime : string -> Res Z;
  (** [d.strftime("%Y-%m-%d")] *)
  strftime : Z -> string;
  (** The day of [datetime.max], 9999-12-31: adding a [timedelta] that
      leads past it raises OverflowError. *)
  datetime_max : Z
}.

Section DateRanges.

Context {calendar : Calendar}.

(** The [if]/[elif] chain that picks the length of a subrange. *)
Definition frequency_delta (frequency : string) : Res Z :=
  if decide (frequency = "1min") then Ok 1%Z
  else if decide (frequency = "5min") then Ok 15%Z
  else if decide (frequency = "1hour") then Ok 182%Z
  else if decide (frequency ∈ ["4hour"; "1day"]) then Ok 365%Z
  else Raise ValueError.

(** The [while current_date < end_date] loop.  [current_date + delta] is
    computed, and may raise, before it is compared with the end date. *)
Fixpoint split_loop (fuel : nat) (current_date end_date delta : Z)
    (date_ranges : list (string * string)) : Res (list (string * string)) :=
  match fuel with
  | O => Ok date_ranges
  | S fuel' =>
      if decide (current_date < end_date)%Z then
        if decide (datetime_max < current_date + delta)%Z then Raise OverflowError
        else
          let next_date := (current_date + delta)%Z in
          let next_date :=
            if decide (next_date > end_date)%Z then end_date else next_date in
          split_loop fuel' next_date end_date delta
            (date_ranges ++ [(strftime current_date, strftime next_date)])
      else Ok date_ranges
  end.

(** Every turn advances by at least one day, so [end_date - start_date]
    turns are enough. *)
Definition split_date_ranges (start_date end_date frequency : string)
    : Res (list (string * string)) :=
  match strptime start_date with
  | Raise e => Raise e
  | Ok start_date =>
      match strptime end_date with
      | Raise e => Raise e
      | Ok end_date =>
          match frequency_delta frequency with
          | Raise e => Raise e
          | Ok delta =>
              split_loop (Z.to_nat (end_date - start_date))
                start_date end_date delta []
          end
      end
  end.

End DateRanges.

(** ** [train.py]: choosing the models *)

(** [str.strip()], the one string method of [model_selection_input] whose
    result depends on the table of whitespace characters. *)
Class StrOps : Type := {
  strip : string -> string
}.

(** [s.split(sep)] for a separator of one character. *)
Fixpoint split_on (sep : ascii) (s : string) : list string :=
  match s with
  | EmptyString => [EmptyString]
  | String c rest =>
      if decide (c = sep) then EmptyString :: split_on sep rest
      else
        match split_on sep rest with
        | head :: tail => String c head :: tail
        | [] => [String c EmptyString]
        end
  end.

Section ModelSelection.

Context {str_ops : StrOps}.

(** [{str(i + 1): model for i, model in enumerate(models)}], the later
    entry winning on equal keys. *)
Definition available_models_from (start : nat) (models : list string)
    : gmap string string :=
  foldl (fun d im => <[pretty (im.1 + 1) := im.2]> d) ∅
    (zip (seq start (length models)) models).

Definition available_models (models : list string) : gmap string string :=
  available_models_from 0 models.

(** [model_selection_input], with [models] of the missing [configs]
    module as a parameter and the two lines read by [input()] as
    arguments; the second line is read only for the choice "2". *)
Definition model_selection_input (models : list string)
    (first_line second_line : string) : list string :=
  let model_selection := strip first_line in
  if decide (model_selection = "1") then models
  else if decide (model_selection = "2") then
    let available_models := available_models models in
    let selected_models := strip second_line in
    omap (fun num => available_models !! strip num)
      (split_on ","%char selected_models)
  else models.

End ModelSelection.

(** ** A small instance to run the model on

    Integers stand in for floats, with integer stand-ins for the float
    operations; a constant predictor stands in for the forest and, like
    scikit-learn, refuses a table without rows. *)

Definition Z_sum (vs : list Z) : Z := foldr Z.add 0%Z vs.

Definition Z_spread (vs : list Z) : Z :=
  (foldr Z.max (default 0 (head vs)) vs - foldr Z.min (default 0 (head vs)) vs)%Z.

#[global] Instance Z_float_ops : FloatOps Z := {|
  fdiv a b := if decide (b = 0)%Z then None else Some (1000 * a / b)%Z;
  flog a := if decide (0 < a)%Z then Some (Z.log2 a) else None;
  fstd vs := Some (Z_spread vs);
  fmean vs := Some (Z_sum vs / Z.of_nat (length vs))%Z;
  ewm_update span gap y x :=
    ((2 * x + (Z.of_nat span - 1) * y) / (Z.of_nat span + 1))%Z;
  fzero := 0%Z
|}.

#[global] Instance Z_estimator : Estimator Z Z := {|
  fit hp X y :=
    if decide (index X = []) then None
    else Some (Z_sum (omap id y) / Z.of_nat (length y))%Z;
  predict est X :=
    if decide (index X = []) then None
    else Some (replicate (length (index X)) est)
|}.

(** Bars with the given closes and volumes, labelled 0, 1, 2, ... *)
Definition example_bars (closes volumes : list Z) : DataFrame Z :=
  mkDataFrame (seqZ 0 (Z.of_nat (length closes)))
    [("open", Some <$> closes); ("high", Some <$> closes);
     ("low", Some <$> closes); ("close", Some <$> closes);
     ("volume", Some <$> volumes)].

(** Fewer bars than one window of five. *)
Definition three_bars : DataFrame Z :=
  example_bars [100; 102; 101]%Z [10; 12; 11]%Z.

(** Twenty bars: four complete windows of five. *)
Definition twenty_bars : DataFrame Z :=
  example_bars
    [100; 102; 101; 105; 103; 104; 108; 107; 110; 109;
     111; 115; 113; 112; 116; 118; 117; 120; 119; 121]%Z
    [10; 12; 11; 15; 13; 14; 18; 17; 10; 19;
     11; 15; 13; 12; 16; 18; 17; 10; 19; 11]%Z.

(** The model as [train.py] constructs it, with the default configuration. *)
Definition example_model : RfregressorVolatilityModel :=
  RfregressorVolatilityModel_init "rfregressor_volatility" RfregressorConfig_init.

(** The default configuration with a prediction horizon of three bars. *)
Definition shift_three_config : RfregressorConfig :=
  let c := RfregressorConfig_init in
  mkConfig (params c) (cfg_candle_interval c) (cfg_volatility_window c)
    (n_lags c) (ma_window c) 3 (fillna_method c) (technical_indicators c)
    (n_estimators c) (random_state c) (n_jobs c).

Definition shift_three_model : RfregressorVolatilityModel :=
  RfregressorVolatilityModel_init "rfregressor_volatility" shift_three_config.

(** A store holding only the caller's table, and an estimator not yet fitted. *)
Definition example_world (df : DataFrame Z) : World Z Z := mkWorld [df] None [].

(** The same store once the estimator has been fitted. *)
Definition fitted_world (df : DataFrame Z) : World Z Z := mkWorld [df] (Some 1%Z) [].


(** ** Instances to run [train.py] on

    The Gregorian calendar with days counted from 1970-01-01, reading only
    dates written with four, two and two digits; and [strip] for the
    whitespace characters of ASCII. *)

Definition days_from_civil (y m d : Z) : Z :=
  let y := if decide (m <= 2)%Z then (y - 1)%Z else y in
  let era := (y / 400)%Z in
  let yoe := (y - era * 400)%Z in
  let doy := ((153 * (m + (if decide (2 < m)%Z then -3 else 9)) + 2) / 5 + d - 1)%Z in
  let doe := (yoe * 365 + yoe / 4 - yoe / 100 + doy)%Z in
  (era * 146097 + doe - 719468)%Z.

Definition civil_from_days (z : Z) : Z * Z * Z :=
  let z := (z + 719468)%Z in
  let era := (z / 146097)%Z in
  let doe := (z - era * 146097)%Z in
  let yoe := ((doe - doe / 1460 + doe / 36524 - doe / 146096) / 365)%Z in
  let doy := (doe - (365 * yoe + yoe / 4 - yoe / 100))%Z in
  let mp := ((5 * doy + 2) / 153)%Z in
  let d := (doy - (153 * mp + 2) / 5 + 1)%Z in
  let m := if decide (mp < 10)%Z then (mp + 3)%Z else (mp - 9)%Z in
  let y := (yoe + era * 400)%Z in
  (if decide (m <= 2)%Z then (y + 1)%Z else y, m, d).

Definition days_in_month (y m : Z) : Z :=
  if decide (m = 2)%Z then
    if decide ((y mod 4 = 0 /\ y mod 100 <> 0) \/ y mod 400 = 0)%Z then 29%Z else 28%Z
  else if decide (m ∈ [4; 6; 9; 11]%Z) then 30%Z else 31%Z.

Definition digit (c : ascii) : option Z :=
  let n := Z.of_nat (nat_of_ascii c) in
  if decide (48 <= n <= 57)%Z then Some (n - 48)%Z else None.

Definition digits (cs : list ascii) : option Z :=
  foldl (fun acc c => a ← acc; d ← digit c; Some (10 * a + d)%Z) (Some 0%Z) cs.

Definition parse_date (s : string) : Res Z :=
  match s with
  | String y1 (String y2 (String y3 (String y4 (String "-"
      (String m1 (String m2 (String "-"
        (String d1 (String d2 EmptyString))))))))) =>
      match digits [y1; y2; y3; y4], digits [m1; m2], digits [d1; d2] with
      | Some y, Some m, Some d =>
          if decide (1 <= y /\ 1 <= m <= 12 /\ 1 <= d <= days_in_month y m)%Z
          then Ok (days_from_civil y m d)
          else Raise ValueError
      | _, _, _ => Raise ValueError
      end
  | _ => Raise ValueError
  end.

Definition pad (width : nat) (z : Z) : string :=
  let text := pretty z in
  String.concat "" (replicate (width - String.length text) "0") +:+ text.

Definition format_date (z : Z) : string :=
  let '(y, m, d) := civil_from_days z in
  pad 4 y +:+ "-" +:+ pad 2 m +:+ "-" +:+ pad 2 d.

#[global] Instance gregorian : Calendar := {|
  strptime := parse_date;
  strftime := format_date;
  datetime_max := days_from_civil 9999 12 31
|}.

Definition is_space (c : ascii) : bool :=
  let n := nat_of_ascii c in
  ((9 <=? n) && (n <=? 13)) || ((28 <=? n) && (n <=? 32)).

Fixpoint lstrip (s : string) : string :=
  match s with
  | EmptyString => EmptyString
  | String c rest => if is_space c then lstrip rest else s
  end.

Fixpoint rstrip (s : string) : string :=
  match s with
  | EmptyString => EmptyString
  | String c rest =>
      match rstrip rest with
      | EmptyString => if is_space c then EmptyString else String c EmptyString
      | rest' => String c rest'
      end
  end.

#[global] Instance ascii_str_ops : StrOps := {|
  strip s := rstrip (lstrip s)
|}.

(** The model types a [configs] module could list. *)
Definition example_models : list string :=
  ["arima"; "lstm"; "prophet"; "rfregressor_volatility"].

(** A column with gaps before, between and after its values. *)
Definition gappy_prices : Series Z := [None; Some 100; None; None; Some 103; None]%Z.

(** The model with the default configuration but other durations. *)
Definition model_with_windows (candle_interval volatility_window : Z)
    : RfregressorVolatilityModel :=
  let c := RfregressorConfig_init in
  RfregressorVolatilityModel_init "rfregressor_volatility"
    (mkConfig (params c) candle_interval volatility_window (n_lags c)
       (ma_window c) (target_shift c) (fillna_method c)
       (technical_indicators c) (n_estimators c) (random_state c) (n_jobs c)).

(** A window of thirty seconds over one-minute candles. *)
Definition half_minute_model : RfregressorVolatilityModel :=
  model_with_windows minute (minute / 2).

(** A window of ten minutes over one-minute candles. *)
Definition ten_minute_model : RfregressorVolatilityModel :=
  model_with_windows minute (10 * minute).

(** Three bars whose [close] column is missing. *)
Definition bars_without_close : DataFrame Z :=
  mkDataFrame [0; 1; 2]%Z
    [("open", [Some 100; Some 102; Some 101]%Z);
     ("volume", [Some 10; Some 12; Some 11]%Z)].

(** Three bars whose [volume] column is missing. *)
Definition bars_without_volume : DataFrame Z :=
  mkDataFrame [0; 1; 2]%Z
    [("open", [Some 100; Some 102; Some 101]%Z);
     ("close", [Some 100; Some 102; Some 101]%Z)].

(** * Properties *)

Section Facts.

Context {val : Type} {float_ops : FloatOps val}.

(** ** Ranges and strided slices *)

Lemma lookup_range_from fuel start stop step k :
  0 < step -> stop - start <= fuel ->
  range_from fuel start stop step !! k =
    if decide (start + k * step < stop) then Some (start + k * step) else None.
Proof.
  intros Hstep. revert start k.
  induction fuel as [|fuel IH]; intros start k Hfuel; simpl.
  { rewrite decide_False by lia. done. }
  case_decide as Hlt.
  - destruct k as [|k]; simpl.
    + rewrite decide_True by lia. f_equal. lia.
    + rewrite IH by lia.
      replace (start + step + k * step) with (start + (step + k * step)) by lia.
      done.
  - rewrite decide_False by lia. done.
Qed.

Lemma lookup_py_range n step k :
  0 < step ->
  py_range 0 n step !! k = if decide (k * step < n) then Some (k * step) else None.
Proof.
  intros Hstep. unfold py_range.
  rewrite lookup_range_from by lia. done.
Qed.

(** The length of [range(0, n, step)] is the ceiling of [n / step]. *)
Lemma length_py_range n step :
  0 < step -> length (py_range 0 n step) = (n + step - 1) / step.
Proof.
  intros Hstep.
  set (m := (n + step - 1) / step).
  assert (Hm : forall k, k * step < n <-> k < m).
  { intros k. unfold m. split; intros Hk.
    - apply Nat.div_le_lower_bound; [lia|]. nia.
    - assert (m * step <= n + step - 1).
      { unfold m. rewrite Nat.mul_comm. apply Nat.Div0.mul_div_le. }
      nia. }
  destruct (Nat.lt_trichotomy (length (py_range 0 n step)) m) as [Hl|[Hl|Hl]].
  - apply Hm in Hl. pose proof (lookup_py_range n step (length (py_range 0 n step)) Hstep) as Hk.
    rewrite decide_True in Hk by done.
    apply lookup_lt_Some in Hk. lia.
  - done.
  - assert (Hk : is_Some (py_range 0 n step !! m)) by (apply lookup_lt_is_Some; lia).
    rewrite lookup_py_range in Hk by done.
    case_decide as Hd; [|by destruct Hk as [? ?]].
    apply Hm in Hd. lia.
Qed.

(** *** Facts about series *)

Lemma length_shift (s : Series val) k : length (shift s k) = length s.
Proof.
  unfold shift. case_decide.
  - rewrite length_take, length_app, length_replicate. lia.
  - rewrite length_app, length_drop, length_replicate. lia.
Qed.

Lemma lookup_shift_back (s : Series val) (k t : nat) :
  shift s (Z.of_nat k) !! t =
    if decide (t < length s)
    then (if decide (t < k) then Some None else s !! (t - k))
    else None.
Proof.
  unfold shift. rewrite decide_True by lia. rewrite Nat2Z.id.
  case_decide as Hlen.
  - rewrite lookup_take_lt by done.
    case_decide as Hk.
    + rewrite lookup_app_l by (rewrite length_replicate; lia).
      by apply lookup_replicate_2.
    + rewrite lookup_app_r by (rewrite length_replicate; lia).
      by rewrite length_replicate.
  - apply lookup_take_ge. lia.
Qed.

Lemma lookup_shift_fwd (s : Series val) (k t : nat) :
  0 < k ->
  shift s (- Z.of_nat k) !! t =
    if decide (t < length s)
    then (if decide (t + k < length s) then s !! (t + k) else Some None)
    else None.
Proof.
  intros Hk. unfold shift. rewrite decide_False by lia.
  replace (Z.to_nat (- - Z.of_nat k)) with k by lia.
  case_decide as Hlen.
  - case_decide as Hin.
    + rewrite lookup_app_l by (rewrite length_drop; lia).
      rewrite lookup_drop. f_equal. lia.
    + rewrite lookup_app_r by (rewrite length_drop; lia).
      rewrite length_drop. apply lookup_replicate_2. lia.
  - apply lookup_ge_None. rewrite length_app, length_drop, length_replicate. lia.
Qed.

Lemma length_series_div (a b : Series val) :
  length b = length a -> length (series_div a b) = length a.
Proof. intros H. unfold series_div. rewrite length_zip_with. lia. Qed.

Lemma length_log_returns_of (s : Series val) : length (log_returns_of s) = length s.
Proof.
  unfold log_returns_of, np_log.
  rewrite length_fmap, length_series_div; [done | apply length_shift].
Qed.

Lemma length_iloc_assign (s : Series val) a b v : length (iloc_assign s a b v) = length s.
Proof. apply length_inserts. Qed.

Lemma lookup_iloc_assign (s : Series val) a b v i :
  iloc_assign s a b v !! i =
    if decide (a <= i < b /\ i < length s) then Some v else s !! i.
Proof.
  unfold iloc_assign. case_decide as H.
  - destruct H as [[Ha Hb] Hl].
    rewrite list_lookup_inserts by (rewrite ?length_replicate; lia).
    apply lookup_replicate_2. lia.
  - destruct (decide (i < a)).
    + by rewrite list_lookup_inserts_lt.
    + destruct (decide (i < b)).
      * rewrite !(proj2 (lookup_ge_None _ _)); [done | lia |].
        rewrite length_inserts. lia.
      * rewrite list_lookup_inserts_ge; [done |].
        rewrite length_replicate. lia.
Qed.

(** The loop only ever writes inside complete windows at or after the
    window it starts from. *)
Lemma vol_for_untouched fuel (lr : Series val) n w start vol i :
  0 < w ->
  i < start \/ (exists k, k * w <= i < (k + 1) * w /\ n < (k + 1) * w) ->
  start `mod` w = 0 ->
  vol_for (range_from fuel start n w) lr n w vol !! i = vol !! i.
Proof.
  intros Hw. revert start vol.
  induction fuel as [|fuel IH]; intros start vol Hi Hmod; [done|].
  simpl. case_decide as Hlt; [|done]. simpl.
  case_decide as Hbr; [done|].
  rewrite IH.
  - rewrite lookup_iloc_assign. case_decide as Hin; [|done].
    exfalso. destruct Hi as [Hi | (k & Hk & Hn)]; [lia|].
    apply Nat.Div0.div_exact in Hmod.
    set (q := start `div` w) in *.
    assert (k < q + 1) by nia. assert (q < k + 1) by nia.
    assert (k = q) by lia. subst k. nia.
  - destruct Hi as [Hi | Hi]; [left; lia | by right].
  - rewrite <- Nat.Div0.add_mod_idemp_l, Hmod. simpl.
    rewrite Nat.Div0.mod_same. done.
Qed.

(** Every complete window at or after the starting one is written with the
    standard deviation of the log-returns inside it. *)
Lemma vol_for_block fuel (lr : Series val) n w a vol k i :
  0 < w ->
  n - a * w <= fuel ->
  length vol = n ->
  a <= k -> (k + 1) * w <= n -> k * w <= i < (k + 1) * w ->
  vol_for (range_from fuel (a * w) n w) lr n w vol !! i
    = Some (series_std (iloc_slice lr (k * w) ((k + 1) * w))).
Proof.
  intros Hw. revert a vol.
  induction fuel as [|fuel IH]; intros a vol Hfuel Hlen Hak Hkn Hi.
  { exfalso. nia. }
  simpl. rewrite decide_True by nia. simpl.
  rewrite decide_False by nia.
  destruct (decide (k = a)) as [->|Hne].
  - rewrite vol_for_untouched; [| done | left; lia |].
    + rewrite lookup_iloc_assign, decide_True by lia.
      do 3 f_equal. lia.
    + replace (a * w + w) with ((a + 1) * w) by lia.
      apply Nat.Div0.mod_mul.
  - replace (a * w + w) with ((a + 1) * w) by lia.
    apply IH; try lia.
    by rewrite length_iloc_assign.
Qed.

Lemma length_vol_for idxs (lr : Series val) n w vol :
  length (vol_for idxs lr n w vol) = length vol.
Proof.
  revert vol. induction idxs as [|s idxs IH]; intros vol; [done|].
  simpl. case_decide; [done|]. by rewrite IH, length_iloc_assign.
Qed.

(** A series shorter than one window gets no volatility at all. *)
Lemma volatility_short_series (series : Series val) (window_points : Z) :
  (Z.of_nat (length series) < window_points)%Z ->
  _calculate_non_overlapping_volatility series window_points
    = Ok (replicate (length series) None).
Proof.
  intros Hlt. unfold _calculate_non_overlapping_volatility.
  rewrite decide_False by lia. rewrite decide_False by lia.
  f_equal. unfold py_range. apply list_eq. intros i.
  destruct (decide (i < length series)) as [Hi|Hi].
  - apply vol_for_untouched; [lia| |apply Nat.Div0.mod_0_l].
    right. exists 0. lia.
  - rewrite !(proj2 (lookup_ge_None _ _)); [done| |].
    + rewrite length_replicate. lia.
    + rewrite length_vol_for, length_replicate. lia.
Qed.

End Facts.

Section FrameFacts.

Context {val : Type} {float_ops : FloatOps val}.

(** ** Columns *)

Lemma assoc_get_set name s (cols : list (string * Series val)) name' :
  assoc_get name' (assoc_set name s cols) =
    if decide (name = name') then Some s else assoc_get name' cols.
Proof.
  induction cols as [|[k s0] cols IH]; simpl.
  - destruct (decide (name = name')); done.
  - destruct (decide (k = name)) as [->|Hk]; simpl.
    + destruct (decide (name = name')); done.
    + destruct (decide (k = name')) as [->|Hk'].
      * rewrite decide_False by done. done.
      * done.
Qed.

Lemma col_set_col name s (df : DataFrame val) name' :
  col (set_col name s df) name' =
    if decide (name = name') then Some s else col df name'.
Proof. apply assoc_get_set. Qed.

Lemma col_set_col_eq name s (df : DataFrame val) :
  col (set_col name s df) name = Some s.
Proof. rewrite col_set_col, decide_True; done. Qed.

Lemma col_set_col_ne name s (df : DataFrame val) name' :
  name <> name' -> col (set_col name s df) name' = col df name'.
Proof. intros. rewrite col_set_col, decide_False; done. Qed.

Lemma col_map_columns f (df : DataFrame val) name :
  col (map_columns f df) name = f <$> col df name.
Proof.
  unfold col, map_columns. simpl.
  induction (columns df) as [|[k s] cols IH]; simpl; [done|].
  destruct (decide (k = name)); done.
Qed.

Lemma col_elem_of (df : DataFrame val) name s :
  col df name = Some s -> (name, s) ∈ columns df.
Proof.
  unfold col. induction (columns df) as [|[k s0] cols IH]; simpl; [done|].
  destruct (decide (k = name)) as [->|]; intros Hs.
  - injection Hs as ->. left.
  - right. auto.
Qed.

Lemma col_length (df : DataFrame val) name s :
  well_formed df -> col df name = Some s -> length s = length (index df).
Proof.
  intros Hwf Hs. apply col_elem_of in Hs.
  unfold well_formed in Hwf. rewrite Forall_forall in Hwf.
  apply (Hwf _ Hs).
Qed.

Lemma well_formed_set_col name s (df : DataFrame val) :
  well_formed df -> length s = length (index df) ->
  well_formed (set_col name s df).
Proof.
  unfold well_formed, set_col. simpl. intros Hwf Hs.
  induction Hwf as [|[k s0] cols Hk Hwf IH]; simpl.
  - by repeat constructor.
  - destruct (decide (k = name)); by constructor.
Qed.

Lemma well_formed_map_columns f (df : DataFrame val) :
  (forall s, length (f s) = length s) ->
  well_formed df -> well_formed (map_columns f df).
Proof.
  unfold well_formed, map_columns. simpl. intros Hf Hwf.
  apply Forall_fmap. eapply Forall_impl; [exact Hwf|].
  intros [k s]. simpl. by rewrite Hf.
Qed.

Lemma length_ffill_from last (s : Series val) : length (ffill_from last s) = length s.
Proof.
  revert last. induction s as [|[x|] s IH]; intros last; simpl; by rewrite ?IH.
Qed.

Lemma length_ffill (s : Series val) : length (ffill s) = length s.
Proof. apply length_ffill_from. Qed.

Lemma length_bfill (s : Series val) : length (bfill s) = length s.
Proof. induction s as [|[x|] s IH]; simpl; by rewrite ?IH. Qed.

Lemma length_rolling_mean window (s : Series val) :
  length (rolling_mean window s) = length s.
Proof. apply length_imap. Qed.

Lemma length_ewm_from span y gap (s : Series val) :
  length (ewm_from span y gap s) = length s.
Proof.
  revert y gap. induction s as [|[x|] s IH]; intros y gap; simpl; by rewrite ?IH.
Qed.

Lemma length_ewm_mean span (s : Series val) : length (ewm_mean span s) = length s.
Proof.
  induction s as [|[x|] s IH]; simpl; by rewrite ?IH, ?length_ewm_from.
Qed.

Lemma length_volatility (series : Series val) wp cv :
  _calculate_non_overlapping_volatility series wp = Ok cv ->
  length cv = length series.
Proof.
  unfold _calculate_non_overlapping_volatility.
  repeat case_decide; intros Heq; inversion Heq; subst.
  - by rewrite length_replicate.
  - by rewrite length_vol_for, length_replicate.
Qed.

(** ** Strided slices *)

Lemma lookup_omap_total {A B} (f : A -> option B) (xs : list A) k :
  Forall (fun x => is_Some (f x)) xs ->
  omap f xs !! k = xs !! k ≫= f.
Proof.
  intros Hall. revert k.
  induction Hall as [|x xs [y Hy] Hall IH]; intros k; simpl; [done|].
  rewrite Hy. destruct k as [|k]; simpl; [done|]. apply IH.
Qed.

Lemma length_omap_total {A B} (f : A -> option B) (xs : list A) :
  Forall (fun x => is_Some (f x)) xs -> length (omap f xs) = length xs.
Proof.
  induction 1 as [|x xs [y Hy] Hall IH]; simpl; [done|].
  rewrite Hy. simpl. f_equal. exact IH.
Qed.

Lemma py_range_in_bounds {A} (l : list A) step :
  0 < step ->
  Forall (fun i => is_Some (l !! i)) (py_range 0 (length l) step).
Proof.
  intros Hstep. apply Forall_lookup. intros k i Hk.
  rewrite lookup_py_range in Hk by done.
  case_decide; [|done]. injection Hk as <-.
  by apply lookup_lt_is_Some.
Qed.

(** [l[::step]] holds the elements at positions 0, step, 2*step, ... *)
Lemma lookup_every_nth {A} (l : list A) step k :
  0 < step ->
  every_nth step l !! k = if decide (k * step < length l) then l !! (k * step) else None.
Proof.
  intros Hstep. unfold every_nth.
  rewrite lookup_omap_total by by apply py_range_in_bounds.
  rewrite lookup_py_range by done. by case_decide.
Qed.

Lemma length_every_nth {A} (l : list A) step :
  0 < step -> length (every_nth step l) = (length l + step - 1) / step.
Proof.
  intros Hstep. unfold every_nth.
  rewrite length_omap_total by by apply py_range_in_bounds.
  by apply length_py_range.
Qed.

(** [(n + w - 1) / w] is the ceiling of [n / w]: the least number of
    windows of [w] points that cover [n] points. *)
Lemma ceiling_spec n w m : 0 < w -> (n + w - 1) / w <= m <-> n <= m * w.
Proof.
  intros Hw.
  pose proof (Nat.div_mod_eq (n + w - 1) w) as Heq.
  pose proof (Nat.mod_upper_bound (n + w - 1) w) as Hr.
  set (q := (n + w - 1) / w) in *. set (r := (n + w - 1) `mod` w) in *.
  split; intros Hm; nia.
Qed.

Lemma elem_of_every_nth {A} (l : list A) step x :
  0 < step -> x ∈ every_nth step l -> x ∈ l.
Proof.
  intros Hstep Hx. apply list_elem_of_lookup in Hx as [k Hk].
  rewrite lookup_every_nth in Hk by done.
  case_decide; [|done]. by eapply list_elem_of_lookup_2.
Qed.

(** A strided slice keeps the index and every column in step. *)
Lemma frame_slice_step_inv step (d d' : DataFrame val) :
  frame_slice_step step d = Ok d' ->
  exists g : forall A, list A -> list A,
    (step <> 0)%Z
    /\ (0 < step -> forall A, g A = every_nth (Z.to_nat step))%Z
    /\ index d' = g _ (index d)
    /\ columns d' = prod_map id (g _) <$> columns d.
Proof.
  unfold frame_slice_step, slice_step.
  destruct (decide (step = 0)%Z) as [|Hne]; [done|].
  destruct (decide (step < 0)%Z) as [Hneg|Hpos]; intros Heq; inversion Heq; subst.
  - exists (fun A l => every_nth (Z.to_nat (- step)) (reverse l)).
    split; [done|]. split; [lia|]. done.
  - exists (fun A l => every_nth (Z.to_nat step) l). done.
Qed.

Lemma frame_slice_step_ok step (d : DataFrame val) :
  (step <> 0)%Z -> exists d', frame_slice_step step d = Ok d'.
Proof.
  intros Hne. unfold frame_slice_step, slice_step.
  rewrite decide_False by done. case_decide; eauto.
Qed.

Lemma col_prod_map (g : Series val -> Series val) cols name :
  assoc_get name (prod_map id g <$> cols) = g <$> assoc_get name cols.
Proof.
  induction cols as [|[k s] cols IH]; simpl; [done|].
  destruct (decide (k = name)); done.
Qed.

Lemma col_frame_slice_step (step : Z) (d d' : DataFrame val) name :
  (0 < step)%Z -> frame_slice_step step d = Ok d' ->
  col d' name = every_nth (Z.to_nat step) <$> col d name.
Proof.
  intros Hpos Hd. apply frame_slice_step_inv in Hd as (g & _ & Hg & _ & Hcols).
  unfold col. rewrite Hcols, col_prod_map. by rewrite (Hg Hpos).
Qed.

Lemma col_frame_slice_step_is_Some (step : Z) (d d' : DataFrame val) name :
  frame_slice_step step d = Ok d' ->
  is_Some (col d name) -> is_Some (col d' name).
Proof.
  intros Hd [s Hs]. apply frame_slice_step_inv in Hd as (g & _ & _ & _ & Hcols).
  unfold col in *. rewrite Hcols, col_prod_map, Hs. by eexists.
Qed.

(** ** Removing incomplete rows *)

Lemma elem_of_keep {A} (mask : list bool) (l : list A) x :
  x ∈ keep mask l -> exists i, mask !! i = Some true /\ l !! i = Some x.
Proof.
  revert l. induction mask as [|b mask IH]; intros [|y l]; simpl; try by inversion 1.
  destruct b.
  - intros [->|Hx]%elem_of_cons.
    + by exists 0.
    + destruct (IH _ Hx) as (i & ? & ?). by exists (S i).
  - intros Hx. destruct (IH _ Hx) as (i & ? & ?). by exists (S i).
Qed.

Lemma notna_rows_true (d : DataFrame val) i name s :
  notna_rows d !! i = Some true -> (name, s) ∈ columns d ->
  exists x, s !! i = Some (Some x).
Proof.
  unfold notna_rows. induction (columns d) as [|[k s0] cols IH]; simpl.
  { by inversion 2. }
  rewrite lookup_zip_with.
  rewrite list_lookup_fmap.
  destruct (s0 !! i) as [c|] eqn:Hc; simpl; [|done].
  destruct (foldr _ _ cols !! i) as [b|] eqn:Hb; simpl; [|done].
  intros Hand [Heq|Hin]%elem_of_cons.
  - injection Heq as -> ->. rewrite Hc.
    destruct c as [x|]; simpl in *; [by eexists|done].
  - apply IH; [|done]. f_equal.
    injection Hand as Hand. by apply andb_prop in Hand as [_ ->].
Qed.

(** After [dropna] no cell of any column is missing. *)
Lemma dropna_complete (d : DataFrame val) name s x :
  (name, s) ∈ columns (dropna d) -> x ∈ s -> is_Some x.
Proof.
  unfold dropna. simpl. intros Hin Hx.
  apply list_elem_of_fmap in Hin as ([k s0] & Heq & Hin).
  simpl in Heq. injection Heq as -> ->.
  apply elem_of_keep in Hx as (i & Hmask & Hi).
  destruct (notna_rows_true _ _ _ _ Hmask Hin) as [y Hy].
  rewrite Hy in Hi. injection Hi as <-. by eexists.
Qed.

Lemma col_dropna (d : DataFrame val) name :
  col (dropna d) name = keep (notna_rows d) <$> col d name.
Proof. unfold col, dropna. simpl. apply col_prod_map. Qed.

(** A column that is missing everywhere leaves no row. *)
Lemma dropna_all_missing (d : DataFrame val) name s :
  col d name = Some s -> Forall (fun x => x = None) s ->
  index (dropna d) = [] /\ forall name' s', col (dropna d) name' = Some s' -> s' = [].
Proof.
  intros Hs Hnone.
  assert (Hmask : forall i, notna_rows d !! i <> Some true).
  { intros i Hi. apply col_elem_of in Hs.
    destruct (notna_rows_true _ _ _ _ Hi Hs) as [x Hx].
    rewrite Forall_lookup in Hnone. by specialize (Hnone _ _ Hx). }
  assert (Hkeep : forall A (l : list A), keep (notna_rows d) l = []).
  { intros A l. destruct (keep (notna_rows d) l) as [|y r] eqn:Hk; [done|].
    assert (Hy : y ∈ keep (notna_rows d) l) by (rewrite Hk; left).
    apply elem_of_keep in Hy as (i & Hi & _). by destruct (Hmask i). }
  split.
  - unfold dropna. simpl. apply Hkeep.
  - intros name' s'. rewrite col_dropna.
    destruct (col d name'); simpl; [|done].
    intros [= <-]. apply Hkeep.
Qed.

(** ** Selecting columns *)

Lemma select_columns_ok names (d : DataFrame val) :
  Forall (fun name => is_Some (col d name)) names ->
  exists cols,
    select_columns names d = Ok cols
    /\ Forall2 (fun name c => c.1 = name /\ col d name = Some c.2) names cols.
Proof.
  induction 1 as [|name names [s Hs] Hall (cols & Hcols & Hrel)]; simpl.
  - eexists. split; [done|]. constructor.
  - rewrite Hs, Hcols. eexists. split; [done|]. by constructor.
Qed.

Lemma select_columns_inv names (d : DataFrame val) cols :
  select_columns names d = Ok cols ->
  Forall2 (fun name c => c.1 = name /\ col d name = Some c.2) names cols.
Proof.
  revert cols. induction names as [|name names IH]; simpl; intros cols.
  - intros [= <-]. constructor.
  - destruct (col d name) as [s|] eqn:Hs; [|done].
    destruct (select_columns names d) as [cols'|]; [|done].
    intros [= <-]. constructor; [done|]. by apply IH.
Qed.

Lemma selected_names {A} (P : string -> string * A -> Prop) names cols :
  Forall2 (fun name c => c.1 = name /\ P name c) names cols -> cols.*1 = names.
Proof.
  induction 1 as [|name c names cols [Hn _] _ IH]; simpl; [done|].
  f_equal; [exact Hn | exact IH].
Qed.

End FrameFacts.

Section Runs.

Context {val : Type} {float_ops : FloatOps val}.
Context {Est : Type} {estimator : Estimator val Est}.

Local Abbreviation M := (@M val Est).

(** ** Running the store operations *)

Lemma bind_run {A B} (m : M A) (k : A -> M B) w w' a :
  m w = (w', Ok a) -> bind m k w = k a w'.
Proof. unfold bind. by intros ->. Qed.

Lemma bind_raise {A B} (m : M A) (k : A -> M B) w w' e :
  m w = (w', Raise e) -> bind m k w = (w', Raise e).
Proof. unfold bind. by intros ->. Qed.

Lemma run_deref p d (F : list (DataFrame val)) (f : option Est) e :
  F !! p = Some d -> deref p (mkWorld F f e) = (mkWorld F f e, Ok d).
Proof.
  intros Hp. unfold deref. simpl.
  by rewrite (list_lookup_total_correct _ _ _ Hp).
Qed.

Lemma run_df_copy p d (F : list (DataFrame val)) (f : option Est) e :
  F !! p = Some d ->
  df_copy p (mkWorld F f e) = (mkWorld (F ++ [d]) f e, Ok (length F)).
Proof. intros Hp. unfold df_copy. by erewrite bind_run by by apply run_deref. Qed.

Lemma run_df_ffill p d (F : list (DataFrame val)) (f : option Est) e :
  F !! p = Some d ->
  df_ffill p (mkWorld F f e) = (mkWorld (F ++ [map_columns ffill d]) f e, Ok (length F)).
Proof. intros Hp. unfold df_ffill. by erewrite bind_run by by apply run_deref. Qed.

Lemma run_df_bfill p d (F : list (DataFrame val)) (f : option Est) e :
  F !! p = Some d ->
  df_bfill p (mkWorld F f e) = (mkWorld (F ++ [map_columns bfill d]) f e, Ok (length F)).
Proof. intros Hp. unfold df_bfill. by erewrite bind_run by by apply run_deref. Qed.

Lemma run_df_fillna p v d (F : list (DataFrame val)) (f : option Est) e :
  F !! p = Some d ->
  df_fillna p v (mkWorld F f e)
    = (mkWorld (F ++ [map_columns (fillna_value v) d]) f e, Ok (length F)).
Proof. intros Hp. unfold df_fillna. by erewrite bind_run by by apply run_deref. Qed.

Lemma run_df_dropna p d (F : list (DataFrame val)) (f : option Est) e :
  F !! p = Some d ->
  df_dropna p (mkWorld F f e) = (mkWorld (F ++ [dropna d]) f e, Ok (length F)).
Proof. intros Hp. unfold df_dropna. by erewrite bind_run by by apply run_deref. Qed.

Lemma run_df_getitem p name d s (F : list (DataFrame val)) (f : option Est) e :
  F !! p = Some d -> col d name = Some s ->
  df_getitem p name (mkWorld F f e) = (mkWorld F f e, Ok s).
Proof.
  intros Hp Hs. unfold df_getitem.
  erewrite bind_run by by apply run_deref. by rewrite Hs.
Qed.

Lemma run_df_getitem_missing p name d (F : list (DataFrame val)) (f : option Est) e :
  F !! p = Some d -> col d name = None ->
  df_getitem p name (mkWorld F f e) = (mkWorld F f e, Raise (KeyError name)).
Proof.
  intros Hp Hs. unfold df_getitem.
  erewrite bind_run by by apply run_deref. by rewrite Hs.
Qed.

Lemma run_df_setitem_last name s d (F : list (DataFrame val)) (f : option Est) e :
  df_setitem (length F) name s (mkWorld (F ++ [d]) f e)
    = (mkWorld (F ++ [set_col name s d]) f e, Ok tt).
Proof.
  unfold df_setitem, update. simpl. do 2 f_equal.
  rewrite alter_app_r_alt by done. by rewrite Nat.sub_diag.
Qed.

Lemma run_df_iloc_step p step d d' (F : list (DataFrame val)) (f : option Est) e :
  F !! p = Some d -> frame_slice_step step d = Ok d' ->
  df_iloc_step p step (mkWorld F f e) = (mkWorld (F ++ [d']) f e, Ok (length F)).
Proof.
  intros Hp Hd. unfold df_iloc_step.
  erewrite bind_run by by apply run_deref.
  unfold lift. by erewrite bind_run by by rewrite Hd.
Qed.

Lemma run_df_select p names d cols (F : list (DataFrame val)) (f : option Est) e :
  F !! p = Some d -> select_columns names d = Ok cols ->
  df_select p names (mkWorld F f e)
    = (mkWorld (F ++ [mkDataFrame (index d) cols]) f e, Ok (length F)).
Proof.
  intros Hp Hd. unfold df_select.
  erewrite bind_run by by apply run_deref.
  unfold lift. by erewrite bind_run by by rewrite Hd.
Qed.

Lemma run_model_fit self q X target (F : list (DataFrame val)) (f : option Est) e :
  F !! q = Some X ->
  model_fit self q target (mkWorld F f e) =
    match fit (hyperparameters self) X target with
    | Some est => (mkWorld F (Some est) (e ++ [EvFit X target]), Ok tt)
    | None => (mkWorld F f (e ++ [EvFit X target]), Raise EstimatorError)
    end.
Proof.
  intros Hq. unfold model_fit.
  erewrite bind_run by by apply run_deref. simpl.
  by destruct (fit _ X target).
Qed.

Lemma run_model_predict q X (F : list (DataFrame val)) (f : option Est) e :
  F !! q = Some X ->
  model_predict q (mkWorld F f e) =
    (mkWorld F f (e ++ [EvPredict X]),
     match f with
     | None => Raise NotFittedError
     | Some est =>
         match predict est X with
         | Some ys => Ok ys
         | None => Raise EstimatorError
         end
     end).
Proof.
  intros Hq. unfold model_predict.
  erewrite bind_run by by apply run_deref. simpl.
  destruct f as [est|]; [|done]. by destruct (predict est X).
Qed.

Lemma lookup_last {A} (l : list A) x : (l ++ [x]) !! length l = Some x.
Proof. by apply list_lookup_middle. Qed.

(** ** Running the feature builder *)

Ltac step lem := (erewrite bind_run by (lem)); cbv beta iota.
Ltac step_get :=
  step ltac:(eapply run_df_getitem;
             [apply lookup_last | by rewrite ?col_set_col_ne by done]).
Ltac step_set := step ltac:(apply run_df_setitem_last).

Lemma col_with_lag_other i lr v (t : DataFrame val) name :
  name = "log_returns" \/ name = "volume" \/ name = "close" ->
  col (with_lag i lr v t) name = col t name.
Proof.
  intros Hn. unfold with_lag.
  rewrite !col_set_col_ne; [done| |];
    intros Heq; destruct Hn as [->|[->| ->]]; simpl in Heq; discriminate.
Qed.

Lemma run_features_lag_loop idxs lr v d lof
    (F : list (DataFrame val)) (f : option Est) e :
  col d "log_returns" = Some lr -> col d "volume" = Some v ->
  features_lag_loop idxs (length F) lof (mkWorld (F ++ [d]) f e)
    = (mkWorld (F ++ [foldl (fun t i => with_lag i lr v t) d idxs]) f e,
       Ok (lof ++ concat (lag_names <$> idxs))).
Proof.
  revert d lof. induction idxs as [|i idxs IH]; intros d lof Hlr Hv.
  - simpl. by rewrite app_nil_r.
  - cbn [features_lag_loop].
    step ltac:(eapply run_df_getitem; [apply lookup_last | done]).
    step_set.
    step ltac:(eapply run_df_getitem;
               [apply lookup_last
               | by rewrite col_set_col_ne by (simpl; discriminate)]).
    step_set.
    fold (with_lag i lr v d).
    rewrite IH by (by rewrite col_with_lag_other by auto).
    simpl. do 2 f_equal. by rewrite <- !app_assoc.
Qed.

Lemma col_lagged_table_other c v (t : DataFrame val) name :
  name = "volume" \/ name = "close" ->
  col (lagged_table c v t) name = col t name.
Proof.
  intros Hn. unfold lagged_table.
  rewrite !col_with_lag_other by tauto.
  apply col_set_col_ne. by destruct Hn as [->| ->].
Qed.

(** The feature builder up to and including the moving averages. *)
Lemma run_features_prefix {A} self p df0 c v wp (k : ptr -> Z -> list string -> M A)
    (F : list (DataFrame val)) (f : option Est) e :
  F !! p = Some df0 ->
  col (filled df0) "close" = Some c ->
  col (filled df0) "volume" = Some v ->
  window_points_of self = Ok wp ->
  (df <- df_copy p ;;
   df <- df_ffill df ;;
   df <- df_bfill df ;;
   window_points <- lift (window_points_of self) ;;
   close <- df_getitem df "close" ;;
   _ <- df_setitem df "log_returns" (np_log (series_div close (shift close 1))) ;;
   list_of_features <- features_lag_loop (py_range 1 5 1) df [] ;;
   close <- df_getitem df "close" ;;
   _ <- df_setitem df "SMA_10" (rolling_mean 10 close) ;;
   close <- df_getitem df "close" ;;
   _ <- df_setitem df "EMA_10" (ewm_mean 10 close) ;;
   k df window_points list_of_features) (mkWorld F f e)
  = k (length (F ++ [df0; map_columns ffill df0])) wp
      (concat (lag_names <$> py_range 1 5 1))
      (mkWorld ((F ++ [df0; map_columns ffill df0]) ++ [averaged_table c v (filled df0)]) f e).
Proof.
  intros Hp Hc Hv Hwp.
  step ltac:(by apply run_df_copy).
  step ltac:(apply run_df_ffill, lookup_last).
  step ltac:(apply run_df_bfill, lookup_last).
  unfold lift at 1. step ltac:(by rewrite Hwp).
  fold (filled df0).
  step_get. step_set.
  fold (log_returns_of c).
  step ltac:(apply run_features_lag_loop;
             [apply col_set_col_eq | by rewrite col_set_col_ne by done]).
  change (foldl _ _ (py_range 1 5 1)) with (lagged_table c v (filled df0)).
  step ltac:(eapply run_df_getitem;
             [apply lookup_last | by rewrite col_lagged_table_other by auto]).
  step_set.
  step ltac:(eapply run_df_getitem;
             [apply lookup_last
             | by rewrite col_set_col_ne, col_lagged_table_other by auto]).
  step_set.
  fold (averaged_table c v (filled df0)).
  by rewrite <- (app_assoc F [df0] [_]).
Qed.


Lemma col_averaged_table_close c v (t : DataFrame val) :
  col (averaged_table c v t) "close" = col t "close".
Proof.
  unfold averaged_table.
  by rewrite !col_set_col_ne, col_lagged_table_other by auto.
Qed.

(** The successful run of [_calculate_volatility_features]: five frames are
    allocated (the copy, the two fills of which the second becomes the
    full-resolution table, the strided view and its copy), the estimator
    and the event log are untouched. *)
Lemma run_calculate_volatility_features self p df0 c v wp cv sampled
    (F : list (DataFrame val)) (f : option Est) e :
  F !! p = Some df0 ->
  col (filled df0) "close" = Some c ->
  col (filled df0) "volume" = Some v ->
  window_points_of self = Ok wp ->
  _calculate_non_overlapping_volatility c wp = Ok cv ->
  frame_slice_step wp (training_table c v cv (filled df0)) = Ok sampled ->
  _calculate_volatility_features self p (mkWorld F f e)
    = (mkWorld (F ++ [df0; map_columns ffill df0;
                      training_table c v cv (filled df0); sampled; sampled]) f e,
       Ok (length F + 4, feature_names)).
Proof.
  intros Hp Hc Hv Hwp Hcv Hs.
  unfold _calculate_volatility_features. cbv zeta.
  erewrite run_features_prefix by eassumption.
  step ltac:(eapply run_df_getitem;
             [apply lookup_last | by rewrite col_averaged_table_close]).
  unfold lift at 1. step ltac:(by rewrite Hcv).
  step_set. fold (feature_table c v cv (filled df0)).
  step ltac:(eapply run_df_getitem; [apply lookup_last | apply col_set_col_eq]).
  step_set. fold (training_table c v cv (filled df0)).
  step ltac:(eapply run_df_iloc_step; [apply lookup_last | exact Hs]).
  step ltac:(apply run_df_copy, lookup_last).
  unfold ret. f_equal.
  - f_equal. by rewrite <- !app_assoc.
  - f_equal. f_equal. rewrite !length_app. simpl. lia.
Qed.

(** ** Running [train] *)

Lemma lookup_app_offset {A} (l k : list A) i x :
  k !! i = Some x -> (l ++ k) !! (length l + i) = Some x.
Proof. intros Hk. rewrite lookup_app_r by lia. by replace (length l + i - length l) with i by lia. Qed.

Lemma lookup_before_last {A} (l : list A) x y : ((l ++ [x]) ++ [y]) !! length l = Some x.
Proof. rewrite lookup_app_l by (rewrite length_app; simpl; lia). apply lookup_last. Qed.

(** [train] builds the features, drops the incomplete rows, selects the
    feature columns and calls [fit] on whatever is left; only a successful
    [fit] is followed by [save]. *)
Lemma run_train self p df0 c v wp cv sampled cols target
    (F : list (DataFrame val)) (f : option Est) e :
  F !! p = Some df0 ->
  col (filled df0) "close" = Some c ->
  col (filled df0) "volume" = Some v ->
  window_points_of self = Ok wp ->
  _calculate_non_overlapping_volatility c wp = Ok cv ->
  frame_slice_step wp (training_table c v cv (filled df0)) = Ok sampled ->
  select_columns (feature_names ++ ["close"]) (dropna sampled) = Ok cols ->
  col (dropna sampled) "target_volatility" = Some target ->
  let X := mkDataFrame (index (dropna sampled)) cols in
  let F' := (F ++ [df0; map_columns ffill df0;
                   training_table c v cv (filled df0); sampled; sampled])
              ++ [dropna sampled; X] in
  train self p (mkWorld F f e) =
    match fit (hyperparameters self) X target with
    | Some est =>
        (mkWorld F' (Some est) (e ++ [EvFit X target; EvSave (model_name self)]), Ok tt)
    | None => (mkWorld F' f (e ++ [EvFit X target]), Raise EstimatorError)
    end.
Proof.
  intros Hp Hc Hv Hwp Hcv Hs Hcols Htarget X F'.
  unfold train.
  step ltac:(by eapply run_calculate_volatility_features).
  step ltac:(eapply run_df_dropna; by apply lookup_app_offset).
  step ltac:(eapply run_df_select; [apply lookup_last | exact Hcols]).
  step ltac:(eapply run_df_getitem; [apply lookup_before_last | exact Htarget]).
  fold X.
  epose proof (run_model_fit self _ X target _ f e (lookup_last _ X)) as Hfit.
  destruct (fit (hyperparameters self) X target) as [est|].
  - step ltac:(exact Hfit).
    unfold model_save, F'. simpl. by rewrite <- !app_assoc.
  - erewrite bind_raise by exact Hfit.
    unfold F'. by rewrite <- !app_assoc.
Qed.

(** ** Running [inference] *)

Lemma run_inference_lag_loop idxs lr v d lof
    (F : list (DataFrame val)) (f : option Est) e :
  col d "log_returns" = Some lr -> col d "volume" = Some v ->
  inference_lag_loop idxs (length F) lof (mkWorld (F ++ [d]) f e)
    = (mkWorld (F ++ [foldl (fun t i => with_lag i lr v t) d idxs]) f e,
       Ok (lof ++ concat (lag_names <$> idxs))).
Proof.
  revert d lof. induction idxs as [|i idxs IH]; intros d lof Hlr Hv.
  - simpl. by rewrite app_nil_r.
  - cbn [inference_lag_loop].
    step ltac:(eapply run_df_getitem; [apply lookup_last | done]).
    step_set.
    step ltac:(eapply run_df_getitem;
               [apply lookup_last
               | by rewrite col_set_col_ne by (simpl; discriminate)]).
    step_set.
    fold (with_lag i lr v d).
    rewrite IH by (by rewrite col_with_lag_other by auto).
    simpl. do 2 f_equal. by rewrite <- !app_assoc.
Qed.

Lemma run_inference self p df0 c v wp cv cols
    (F : list (DataFrame val)) (f : option Est) e :
  F !! p = Some df0 ->
  col (filled df0) "close" = Some c ->
  col (filled df0) "volume" = Some v ->
  window_points_of self = Ok wp ->
  _calculate_non_overlapping_volatility c wp = Ok cv ->
  select_columns (feature_names ++ ["close"]) (feature_table c v cv (filled df0)) = Ok cols ->
  let selected := mkDataFrame (index (feature_table c v cv (filled df0))) cols in
  let X := map_columns (fillna_value fzero) selected in
  inference self p (mkWorld F f e) =
    inference_outcome
      (F ++ [df0; map_columns ffill df0; feature_table c v cv (filled df0); selected; X])
      X f e.
Proof.
  intros Hp Hc Hv Hwp Hcv Hcols selected X.
  unfold inference. cbv zeta.
  step ltac:(by apply run_df_copy).
  step ltac:(apply run_df_ffill, lookup_last).
  step ltac:(apply run_df_bfill, lookup_last).
  unfold lift at 1. step ltac:(by rewrite Hwp).
  fold (filled df0).
  step_get. step_set.
  fold (log_returns_of c).
  step ltac:(apply run_inference_lag_loop;
             [apply col_set_col_eq | by rewrite col_set_col_ne by done]).
  change (foldl _ _ (py_range 1 5 1)) with (lagged_table c v (filled df0)).
  step ltac:(eapply run_df_getitem;
             [apply lookup_last | by rewrite col_lagged_table_other by auto]).
  step_set.
  step ltac:(eapply run_df_getitem;
             [apply lookup_last
             | by rewrite col_set_col_ne, col_lagged_table_other by auto]).
  step_set.
  fold (averaged_table c v (filled df0)).
  step ltac:(eapply run_df_getitem;
             [apply lookup_last | by rewrite col_averaged_table_close]).
  unfold lift at 1. step ltac:(by rewrite Hcv).
  step_set. fold (feature_table c v cv (filled df0)).
  step ltac:(eapply run_df_select; [apply lookup_last | exact Hcols]).
  fold selected.
  step ltac:(apply run_df_fillna, lookup_last).
  fold X.
  epose proof (run_model_predict _ X _ f e (lookup_last _ X)) as Hpred.
  unfold inference_outcome.
  destruct f as [est|]; [destruct (predict est X) as [ys|]|].
  - step ltac:(exact Hpred).
    step ltac:(apply run_deref, lookup_last).
    unfold new_frame. rewrite <- !app_assoc. simpl.
    case_decide; [|done].
    unfold alloc. simpl. by rewrite <- !app_assoc.
  - erewrite bind_raise by exact Hpred. by rewrite <- !app_assoc.
  - erewrite bind_raise by exact Hpred. by rewrite <- !app_assoc.
Qed.

(** ** The runs of the feature builder that raise *)

Lemma run_features_no_interval self p df0 ex
    (F : list (DataFrame val)) (f : option Est) e :
  F !! p = Some df0 ->
  window_points_of self = Raise ex ->
  _calculate_volatility_features self p (mkWorld F f e)
    = (mkWorld (F ++ [df0; map_columns ffill df0; filled df0]) f e, Raise ex).
Proof.
  intros Hp Hwp. unfold _calculate_volatility_features. cbv zeta.
  step ltac:(by apply run_df_copy).
  step ltac:(apply run_df_ffill, lookup_last).
  step ltac:(apply run_df_bfill, lookup_last).
  unfold lift at 1. erewrite bind_raise by by rewrite Hwp.
  by rewrite <- !app_assoc.
Qed.

Lemma run_features_bad_window self p df0 c v wp ex
    (F : list (DataFrame val)) (f : option Est) e :
  F !! p = Some df0 ->
  col (filled df0) "close" = Some c ->
  col (filled df0) "volume" = Some v ->
  window_points_of self = Ok wp ->
  _calculate_non_overlapping_volatility c wp = Raise ex ->
  _calculate_volatility_features self p (mkWorld F f e)
    = (mkWorld (F ++ [df0; map_columns ffill df0; averaged_table c v (filled df0)]) f e,
       Raise ex).
Proof.
  intros Hp Hc Hv Hwp Hcv.
  unfold _calculate_volatility_features. cbv zeta.
  erewrite run_features_prefix by eassumption.
  step ltac:(eapply run_df_getitem;
             [apply lookup_last | by rewrite col_averaged_table_close]).
  unfold lift at 1. erewrite bind_raise by by rewrite Hcv.
  by rewrite <- !app_assoc.
Qed.

(** ** The caller's objects are never written *)

Lemma frame_safe_weaken k {A} (m : M A) (Q R : A -> Prop) :
  frame_safe k m Q -> (forall a, Q a -> R a) -> frame_safe k m R.
Proof.
  intros Hm HQR w Hw. destruct (Hm w Hw) as (? & ? & HQ). eauto.
Qed.

Lemma frame_safe_ret k {A} (a : A) (Q : A -> Prop) :
  Q a -> frame_safe k (ret a : M A) Q.
Proof. intros HQ w Hw. simpl. split; [done|]. split; [done|]. by intros ? [= <-]. Qed.

Lemma frame_safe_raise k {A} ex (Q : A -> Prop) :
  frame_safe k (raise ex : M A) Q.
Proof. intros w Hw. simpl. done. Qed.

Lemma frame_safe_lift k {A} (r : Res A) :
  frame_safe k (lift r : M A) (fun _ => True).
Proof. intros w Hw. simpl. done. Qed.

Lemma frame_safe_bind k {A B} (m : M A) (g : A -> M B) (Q : A -> Prop) (R : B -> Prop) :
  frame_safe k m Q -> (forall a, Q a -> frame_safe k (g a) R) ->
  frame_safe k (bind m g) R.
Proof.
  intros Hm Hg w Hw. unfold bind.
  destruct (Hm w Hw) as (Htake & Hlen & HQ).
  destruct (m w) as [w' [a|ex]]; simpl in *.
  - destruct (Hg a (HQ a eq_refl) w' Hlen) as (Htake' & Hlen' & HR).
    split; [congruence|]. done.
  - done.
Qed.

Lemma frame_safe_alloc k (d : DataFrame val) :
  frame_safe k (alloc d : M ptr) (fun q => k <= q).
Proof.
  intros w Hw. simpl. split; [by rewrite take_app_le|].
  split; [rewrite length_app; lia|]. intros ? [= <-]. done.
Qed.

Lemma frame_safe_deref k p :
  frame_safe k (deref p : M (DataFrame val)) (fun _ => True).
Proof. intros w Hw. simpl. done. Qed.

Lemma frame_safe_update k p g :
  k <= p -> frame_safe k (update p g : M unit) (fun _ => True).
Proof.
  intros Hp w Hw. simpl. split; [|split; [|done]].
  - apply list_eq. intros i.
    destruct (decide (i < k)).
    + rewrite !lookup_take_lt by done. apply list_lookup_alter_ne. lia.
    + rewrite !lookup_take_ge by lia. done.
  - by rewrite length_alter.
Qed.

End Runs.

Section Safety.

Context {val : Type} {float_ops : FloatOps val}.
Context {Est : Type} {estimator : Estimator val Est}.

Local Abbreviation M := (@M val Est).

(** One step of a safety proof: split a bind, or close a primitive. *)
Ltac safe_step :=
  lazymatch goal with
  | |- frame_safe _ (bind _ _) _ => eapply frame_safe_bind; [|intros ? ?]
  | |- frame_safe _ (alloc _) _ =>
      first [apply frame_safe_alloc
            | eapply frame_safe_weaken; [apply frame_safe_alloc | done]]
  | |- frame_safe _ (deref _) _ =>
      first [apply frame_safe_deref
            | eapply frame_safe_weaken; [apply frame_safe_deref | done]]
  | |- frame_safe _ (lift _) _ =>
      first [apply frame_safe_lift
            | eapply frame_safe_weaken; [apply frame_safe_lift | done]]
  | |- frame_safe _ (ret _) _ => apply frame_safe_ret; try done
  | |- frame_safe _ (raise _) _ => apply frame_safe_raise
  end.

Lemma frame_safe_new k (g : DataFrame val -> DataFrame val) p :
  frame_safe k (df <- deref p ;; alloc (g df) : M ptr) (fun q => k <= q).
Proof. repeat safe_step. Qed.

Lemma frame_safe_df_copy k p : frame_safe k (df_copy p : M ptr) (fun q => k <= q).
Proof. apply (frame_safe_new k id). Qed.

Lemma frame_safe_df_ffill k p : frame_safe k (df_ffill p : M ptr) (fun q => k <= q).
Proof. apply frame_safe_new. Qed.

Lemma frame_safe_df_bfill k p : frame_safe k (df_bfill p : M ptr) (fun q => k <= q).
Proof. apply frame_safe_new. Qed.

Lemma frame_safe_df_fillna k p v : frame_safe k (df_fillna p v : M ptr) (fun q => k <= q).
Proof. apply frame_safe_new. Qed.

Lemma frame_safe_df_dropna k p : frame_safe k (df_dropna p : M ptr) (fun q => k <= q).
Proof. apply frame_safe_new. Qed.

Lemma frame_safe_df_iloc_step k p step :
  frame_safe k (df_iloc_step p step : M ptr) (fun q => k <= q).
Proof. unfold df_iloc_step. repeat safe_step. Qed.

Lemma frame_safe_df_select k p names :
  frame_safe k (df_select p names : M ptr) (fun q => k <= q).
Proof. unfold df_select. repeat safe_step. Qed.

Lemma frame_safe_df_getitem k p name :
  frame_safe k (df_getitem p name : M (Series val)) (fun _ => True).
Proof.
  unfold df_getitem. safe_step; [safe_step|].
  destruct (col _ name); safe_step.
Qed.

Lemma frame_safe_df_setitem k p name s :
  k <= p -> frame_safe k (df_setitem p name s : M unit) (fun _ => True).
Proof. apply frame_safe_update. Qed.

Lemma frame_safe_events k {A} (m : M A) :
  (forall w, frames (m w).1 = frames w) -> frame_safe k m (fun _ => True).
Proof. intros Hm w Hw. rewrite Hm. done. Qed.

Lemma frame_safe_model_fit k self q target :
  frame_safe k (model_fit self q target : M unit) (fun _ => True).
Proof.
  apply frame_safe_events. intros w. unfold model_fit, bind, deref. simpl.
  by destruct (fit _ _ target).
Qed.

Lemma frame_safe_model_predict k q :
  frame_safe k (model_predict q : M (list val)) (fun _ => True).
Proof.
  apply frame_safe_events. intros w. unfold model_predict, bind, deref. simpl.
  destruct (fitted w) as [est|]; [|done]. by destruct (predict est _).
Qed.

Lemma frame_safe_model_save k self :
  frame_safe k (model_save self : M unit) (fun _ => True).
Proof. by apply frame_safe_events. Qed.

Lemma frame_safe_new_frame k name values idx :
  frame_safe k (new_frame name values idx : M ptr) (fun _ => True).
Proof. unfold new_frame. case_decide; safe_step. Qed.

(** Walk through a program: split every bind, close every call that has a
    safety lemma, and leave the rest. *)
Ltac safe_leaf :=
  first
    [ safe_step
    | apply frame_safe_df_copy | apply frame_safe_df_ffill
    | apply frame_safe_df_bfill | apply frame_safe_df_fillna
    | apply frame_safe_df_dropna | apply frame_safe_df_iloc_step
    | apply frame_safe_df_select | apply frame_safe_df_getitem
    | apply frame_safe_df_setitem; cbv beta in *; lia
    | apply frame_safe_model_fit | apply frame_safe_model_predict
    | apply frame_safe_model_save | apply frame_safe_new_frame
    | eapply frame_safe_weaken;
      [ first [ apply frame_safe_df_copy | apply frame_safe_df_select
              | apply frame_safe_new_frame ] | done ]
    | idtac ].

Ltac safe_auto :=
  lazymatch goal with
  | |- frame_safe _ (bind _ _) _ =>
      eapply frame_safe_bind; [safe_auto | intros ? ?; safe_auto]
  | |- _ => safe_leaf
  end.

Lemma frame_safe_features_lag_loop k idxs p lof :
  k <= p -> frame_safe k (features_lag_loop idxs p lof : M (list string)) (fun _ => True).
Proof.
  intros Hp. revert lof. induction idxs as [|i idxs IH]; intros lof.
  - by apply frame_safe_ret.
  - cbn [features_lag_loop]. safe_auto. apply IH.
Qed.

Lemma frame_safe_inference_lag_loop k idxs p lof :
  k <= p -> frame_safe k (inference_lag_loop idxs p lof : M (list string)) (fun _ => True).
Proof.
  intros Hp. revert lof. induction idxs as [|i idxs IH]; intros lof.
  - by apply frame_safe_ret.
  - cbn [inference_lag_loop]. safe_auto. apply IH.
Qed.

Lemma frame_safe_calculate_volatility_features k self p :
  frame_safe k (_calculate_volatility_features self p : M (ptr * list string))
    (fun r => k <= r.1).
Proof.
  unfold _calculate_volatility_features. cbv zeta.
  safe_auto.
  apply frame_safe_features_lag_loop. cbv beta in *. lia.
Qed.

Lemma frame_safe_train k self p :
  frame_safe k (train self p : M unit) (fun _ => True).
Proof.
  unfold train.
  eapply frame_safe_bind; [apply frame_safe_calculate_volatility_features|].
  intros [df_sampled lof] Hq. safe_auto.
Qed.

Lemma frame_safe_inference k self p :
  frame_safe k (inference self p : M ptr) (fun _ => True).
Proof.
  unfold inference. cbv zeta.
  safe_auto.
  apply frame_safe_inference_lag_loop. cbv beta in *. lia.
Qed.

End Safety.

Section TableFacts.

Context {val : Type} {float_ops : FloatOps val}.

(** ** The columns of the tables *)

Ltac neq_str := let H := fresh in intros H; vm_compute in H; discriminate.

(** Read a named column of a table built by a chain of [set_col]. *)
Ltac col_eval :=
  unfold training_table, feature_table, averaged_table, lagged_table, with_lag;
  repeat first
    [ rewrite col_set_col_ne by neq_str
    | rewrite col_set_col, decide_True by (vm_compute; reflexivity) ].

Lemma col_filled (d : DataFrame val) name :
  col (filled d) name = (fun s => bfill (ffill s)) <$> col d name.
Proof.
  unfold filled. rewrite !col_map_columns. by destruct (col d name).
Qed.

Lemma lag_cases i : 1 <= i <= 4 -> i = 1 \/ i = 2 \/ i = 3 \/ i = 4.
Proof. lia. Qed.

Lemma col_feature_table_log_return_lag c v cv (t : DataFrame val) i :
  1 <= i <= 4 ->
  col (feature_table c v cv t) ("log_return_t-" +:+ pretty i)
    = Some (shift (log_returns_of c) (Z.of_nat i)).
Proof.
  intros Hi. destruct (lag_cases i Hi) as [->|[->|[->| ->]]]; by col_eval.
Qed.

Lemma col_feature_table_volume_lag c v cv (t : DataFrame val) i :
  1 <= i <= 4 ->
  col (feature_table c v cv t) ("volume_t-" +:+ pretty i)
    = Some (shift v (Z.of_nat i)).
Proof.
  intros Hi. destruct (lag_cases i Hi) as [->|[->|[->| ->]]]; by col_eval.
Qed.

Lemma col_feature_table_log_returns c v cv (t : DataFrame val) :
  col (feature_table c v cv t) "log_returns" = Some (log_returns_of c).
Proof. by col_eval. Qed.

Lemma col_feature_table_SMA c v cv (t : DataFrame val) :
  col (feature_table c v cv t) "SMA_10" = Some (rolling_mean 10 c).
Proof. by col_eval. Qed.

Lemma col_feature_table_EMA c v cv (t : DataFrame val) :
  col (feature_table c v cv t) "EMA_10" = Some (ewm_mean 10 c).
Proof. by col_eval. Qed.

Lemma col_feature_table_current_volatility c v cv (t : DataFrame val) :
  col (feature_table c v cv t) "current_volatility" = Some cv.
Proof. by col_eval. Qed.

Lemma col_feature_table_input c v cv (t : DataFrame val) name :
  name = "close" \/ name = "volume" ->
  col (feature_table c v cv t) name = col t name.
Proof. intros [->| ->]; by col_eval. Qed.

Lemma col_feature_table_target c v cv (t : DataFrame val) :
  col (feature_table c v cv t) "target_volatility" = col t "target_volatility".
Proof. by col_eval. Qed.

Lemma col_training_table_target c v cv (t : DataFrame val) :
  col (training_table c v cv t) "target_volatility" = Some (shift cv (-5)).
Proof. apply col_set_col_eq. Qed.

Lemma col_training_table_other c v cv (t : DataFrame val) name :
  name <> "target_volatility" ->
  col (training_table c v cv t) name = col (feature_table c v cv t) name.
Proof. intros Hne. apply col_set_col_ne. congruence. Qed.

(** Every name in the list of features, and [close], is a column. *)
Lemma feature_columns_present c v cv (t : DataFrame val) :
  col t "close" = Some c ->
  Forall (fun name => is_Some (col (feature_table c v cv t) name)
                      /\ name <> "target_volatility")
    (feature_names ++ ["close"]).
Proof.
  intros Hc. unfold feature_names. simpl.
  repeat constructor; try neq_str; try (eexists; by col_eval).
Qed.

Lemma well_formed_feature_table c v cv (t : DataFrame val) :
  well_formed t ->
  length c = length (index t) -> length v = length (index t) ->
  length cv = length (index t) ->
  well_formed (feature_table c v cv t).
Proof.
  intros Ht Hc Hv Hcv.
  unfold feature_table, averaged_table, lagged_table, with_lag.
  repeat (apply well_formed_set_col; [|simpl;
    rewrite ?length_shift, ?length_log_returns_of, ?length_rolling_mean,
      ?length_ewm_mean; done]).
  done.
Qed.

Lemma well_formed_training_table c v cv (t : DataFrame val) :
  well_formed t ->
  length c = length (index t) -> length v = length (index t) ->
  length cv = length (index t) ->
  well_formed (training_table c v cv t).
Proof.
  intros Ht Hc Hv Hcv. unfold training_table.
  apply well_formed_set_col; [by apply well_formed_feature_table|].
  simpl. by rewrite length_shift.
Qed.

Lemma well_formed_filled (d : DataFrame val) :
  well_formed d -> well_formed (filled d).
Proof.
  intros Hd. unfold filled.
  apply well_formed_map_columns; [apply length_bfill|].
  apply well_formed_map_columns; [apply length_ffill|done].
Qed.

End TableFacts.

Section Pipeline.

Context {val : Type} {float_ops : FloatOps val}.
Context {Est : Type} {estimator : Estimator val Est}.

(** ** The feature builder on a table of bars *)

Lemma volatility_ok (series : Series val) wp :
  (wp <> 0)%Z -> exists cv, _calculate_non_overlapping_volatility series wp = Ok cv.
Proof.
  intros Hwp. unfold _calculate_non_overlapping_volatility.
  rewrite decide_False by done. case_decide; eauto.
Qed.

(** On a table with [close] and [volume] and a window that is not zero,
    the feature builder succeeds and leaves exactly these frames behind. *)
Lemma features_run self (w : World val Est) p df0 c0 v0 wp :
  frames w !! p = Some df0 ->
  col df0 "close" = Some c0 ->
  col df0 "volume" = Some v0 ->
  window_points_of self = Ok wp ->
  (wp <> 0)%Z ->
  let c := bfill (ffill c0) in
  let v := bfill (ffill v0) in
  exists cv sampled,
    _calculate_non_overlapping_volatility c wp = Ok cv
    /\ frame_slice_step wp (training_table c v cv (filled df0)) = Ok sampled
    /\ _calculate_volatility_features self p w
        = (mkWorld (frames w ++ [df0; map_columns ffill df0;
                                 training_table c v cv (filled df0);
                                 sampled; sampled])
             (fitted w) (events w),
           Ok (length (frames w) + 4, feature_names)).
Proof.
  intros Hp Hc Hv Hwp Hne c v.
  destruct (volatility_ok c wp Hne) as [cv Hcv].
  destruct (frame_slice_step_ok wp (training_table c v cv (filled df0)) Hne)
    as [sampled Hs].
  exists cv, sampled. split; [done|]. split; [done|].
  destruct w as [F f e]. simpl in *.
  apply run_calculate_volatility_features with (wp := wp); try done.
  - by rewrite col_filled, Hc.
  - by rewrite col_filled, Hv.
Qed.

Lemma length_filled_column (df0 : DataFrame val) name s0 :
  well_formed df0 -> col df0 name = Some s0 ->
  length (bfill (ffill s0)) = length (index df0).
Proof.
  intros Hwf Hs. rewrite length_bfill, length_ffill. by eapply col_length.
Qed.

(** ** [train] on a table of bars *)

Lemma sampled_columns_present c v cv (t sampled : DataFrame val) wp :
  col t "close" = Some c ->
  frame_slice_step wp (training_table c v cv t) = Ok sampled ->
  Forall (fun name => is_Some (col (dropna sampled) name)) (feature_names ++ ["close"])
  /\ is_Some (col (dropna sampled) "target_volatility").
Proof.
  intros Hc Hs.
  assert (Hkeep : forall name, is_Some (col (training_table c v cv t) name) ->
                               is_Some (col (dropna sampled) name)).
  { intros name Hname. rewrite col_dropna. apply fmap_is_Some.
    by eapply col_frame_slice_step_is_Some. }
  split.
  - eapply Forall_impl; [apply (feature_columns_present c v cv t Hc)|].
    intros name [Hsome Hne]. simpl in *. apply Hkeep.
    by rewrite col_training_table_other.
  - apply Hkeep. rewrite col_training_table_target. by eexists.
Qed.

(** On a table with [close] and [volume] and a window that is not zero,
    [train] reaches [fit], whatever the number of rows left. *)
Lemma train_run self (w : World val Est) p df0 c0 v0 wp :
  frames w !! p = Some df0 ->
  col df0 "close" = Some c0 ->
  col df0 "volume" = Some v0 ->
  window_points_of self = Ok wp ->
  (wp <> 0)%Z ->
  let c := bfill (ffill c0) in
  let v := bfill (ffill v0) in
  exists cv sampled cols target,
    _calculate_non_overlapping_volatility c wp = Ok cv
    /\ frame_slice_step wp (training_table c v cv (filled df0)) = Ok sampled
    /\ Forall2 (fun name col' => col'.1 = name
                                 /\ col (dropna sampled) name = Some col'.2)
         (feature_names ++ ["close"]) cols
    /\ col (dropna sampled) "target_volatility" = Some target
    /\ let X := mkDataFrame (index (dropna sampled)) cols in
       let F' := (frames w ++ [df0; map_columns ffill df0;
                               training_table c v cv (filled df0); sampled; sampled])
                   ++ [dropna sampled; X] in
       train self p w =
         match fit (hyperparameters self) X target with
         | Some est =>
             (mkWorld F' (Some est)
                (events w ++ [EvFit X target; EvSave (model_name self)]), Ok tt)
         | None =>
             (mkWorld F' (fitted w) (events w ++ [EvFit X target]),
              Raise EstimatorError)
         end.
Proof.
  intros Hp Hc Hv Hwp Hne c v.
  destruct (volatility_ok c wp Hne) as [cv Hcv].
  destruct (frame_slice_step_ok wp (training_table c v cv (filled df0)) Hne)
    as [sampled Hs].
  assert (Hfc : col (filled df0) "close" = Some c) by (by rewrite col_filled, Hc).
  assert (Hfv : col (filled df0) "volume" = Some v) by (by rewrite col_filled, Hv).
  destruct (sampled_columns_present c v cv (filled df0) sampled wp Hfc Hs)
    as [Hall [target Htarget]].
  destruct (select_columns_ok _ _ Hall) as (cols & Hcols & Hrel).
  exists cv, sampled, cols, target.
  do 4 (split; [done|]).
  destruct w as [F f e]. simpl in *.
  by eapply run_train.
Qed.

(** ** [inference] on a table of bars *)

Lemma inference_run self (w : World val Est) p df0 c0 v0 wp :
  frames w !! p = Some df0 ->
  col df0 "close" = Some c0 ->
  col df0 "volume" = Some v0 ->
  window_points_of self = Ok wp ->
  (wp <> 0)%Z ->
  let c := bfill (ffill c0) in
  let v := bfill (ffill v0) in
  exists cv cols,
    _calculate_non_overlapping_volatility c wp = Ok cv
    /\ Forall2 (fun name col' =>
                  col'.1 = name
                  /\ col (feature_table c v cv (filled df0)) name = Some col'.2)
         (feature_names ++ ["close"]) cols
    /\ let selected := mkDataFrame (index df0) cols in
       let X := map_columns (fillna_value fzero) selected in
       inference self p w =
         inference_outcome
           (frames w ++ [df0; map_columns ffill df0;
                         feature_table c v cv (filled df0); selected; X])
           X (fitted w) (events w).
Proof.
  intros Hp Hc Hv Hwp Hne c v.
  destruct (volatility_ok c wp Hne) as [cv Hcv].
  assert (Hfc : col (filled df0) "close" = Some c) by (by rewrite col_filled, Hc).
  assert (Hfv : col (filled df0) "volume" = Some v) by (by rewrite col_filled, Hv).
  destruct (select_columns_ok (feature_names ++ ["close"])
              (feature_table c v cv (filled df0))) as (cols & Hcols & Hrel).
  { eapply Forall_impl; [apply (feature_columns_present c v cv _ Hfc)|].
    by intros name [Hsome _]. }
  exists cv, cols. split; [done|]. split; [done|].
  destruct w as [F f e]. simpl in *.
  by eapply run_inference.
Qed.

End Pipeline.

Section Claims.

Context {val : Type} {float_ops : FloatOps val}.
Context {Est : Type} {estimator : Estimator val Est}.



(** C2, as the code has it: whatever [target_shift] the configuration
    holds, in the training feature table [target_volatility[t]] is
    [current_volatility[t + 5]] when that row exists and is missing for
    the last five rows (five is the literal of the code and the default
    [target_shift]); the shift is taken on the full-resolution table,
    which is downsampled only afterwards, so that row [k] of the sampled
    table carries the full-resolution target of row [k * window_points]. *)
Theorem target_volatility_shifted_before_sampling
    self (w : World val Est) p df0 c0 v0 wp :
  frames w !! p = Some df0 ->
  well_formed df0 ->
  col df0 "close" = Some c0 ->
  col df0 "volume" = Some v0 ->
  window_points_of self = Ok wp ->
  (0 < wp)%Z ->
  let n := length (index df0) in
  let horizon := 5 in
  exists w' q names full sampled cv tv stv,
    _calculate_volatility_features self p w = (w', Ok (q, names))
    /\ frames w' !! (length (frames w) + 2) = Some full
    /\ frames w' !! q = Some sampled
    /\ length (index full) = n
    /\ col full "current_volatility" = Some cv
    /\ col full "target_volatility" = Some tv
    /\ length cv = n /\ length tv = n
    /\ (forall t, t < n ->
          tv !! t = if decide (t + horizon < n) then cv !! (t + horizon)
                    else Some None)
    /\ frame_slice_step wp full = Ok sampled
    /\ col sampled "target_volatility" = Some stv
    /\ (forall k, k * Z.to_nat wp < n -> stv !! k = tv !! (k * Z.to_nat wp)).
Proof.
  intros Hp Hwf Hc Hv Hwp Hpos n horizon.
  destruct (features_run self w p df0 c0 v0 wp) as (cv & sampled & Hcv & Hs & Hrun);
    [done..|lia|].
  set (c := bfill (ffill c0)) in *. set (v := bfill (ffill v0)) in *.
  assert (Hlcv : length cv = n).
  { rewrite (length_volatility _ _ _ Hcv). by eapply length_filled_column. }
  eexists _, _, _, (training_table c v cv (filled df0)), sampled, cv,
    (shift cv (-5)), _.
  split; [exact Hrun|]. simpl.
  split; [by apply lookup_app_offset|].
  split; [by apply lookup_app_offset|].
  split; [done|].
  split; [by rewrite col_training_table_other, col_feature_table_current_volatility|].
  split; [apply col_training_table_target|].
  split; [done|]. split; [by rewrite length_shift|].
  split; [|split; [done|split]].
  - intros t Ht. change (-5)%Z with (- Z.of_nat 5)%Z.
    rewrite lookup_shift_fwd by lia.
    rewrite decide_True by lia. unfold horizon. rewrite Hlcv. done.
  - rewrite (col_frame_slice_step wp _ _ _ Hpos Hs), col_training_table_target.
    done.
  - intros k Hk. rewrite lookup_every_nth by lia.
    rewrite length_shift, Hlcv. by rewrite decide_True.
Qed.

(** C3, as the code has it: whatever [n_lags] the configuration holds, the
    feature builder emits the columns [log_return_t-i] and [volume_t-i] for
    the lags i = 1, 2, 3, 4, lists their names among the features, and
    [log_return_t-i[t]] is [log_returns[t-i]] for t >= i and missing for
    t < i; likewise [volume_t-i] for [volume]. *)
Theorem lag_columns_one_to_four
    self (w : World val Est) p df0 c0 v0 wp :
  frames w !! p = Some df0 ->
  well_formed df0 ->
  col df0 "close" = Some c0 ->
  col df0 "volume" = Some v0 ->
  window_points_of self = Ok wp ->
  (wp <> 0)%Z ->
  let n := length (index df0) in
  exists w' q names full log_returns volume,
    _calculate_volatility_features self p w = (w', Ok (q, names))
    /\ frames w' !! (length (frames w) + 2) = Some full
    /\ col full "log_returns" = Some log_returns
    /\ col full "volume" = Some volume
    /\ length log_returns = n /\ length volume = n
    /\ forall i, 1 <= i <= 4 ->
         ("log_return_t-" +:+ pretty i) ∈ names
         /\ ("volume_t-" +:+ pretty i) ∈ names
         /\ exists log_return_lag volume_lag,
              col full ("log_return_t-" +:+ pretty i) = Some log_return_lag
              /\ col full ("volume_t-" +:+ pretty i) = Some volume_lag
              /\ forall t, t < n ->
                   log_return_lag !! t
                     = (if decide (t < i) then Some None else log_returns !! (t - i))
                   /\ volume_lag !! t
                     = (if decide (t < i) then Some None else volume !! (t - i)).
Proof.
  intros Hp Hwf Hc Hv Hwp Hne n.
  destruct (features_run self w p df0 c0 v0 wp) as (cv & sampled & Hcv & Hs & Hrun);
    [done..|].
  set (c := bfill (ffill c0)) in *. set (v := bfill (ffill v0)) in *.
  assert (Hlc : length c = n) by by eapply length_filled_column.
  assert (Hlv : length v = n) by by eapply length_filled_column.
  eexists _, _, _, (training_table c v cv (filled df0)), (log_returns_of c), v.
  split; [exact Hrun|]. simpl.
  split; [by apply lookup_app_offset|].
  split; [by rewrite col_training_table_other, col_feature_table_log_returns|].
  split.
  { rewrite col_training_table_other, col_feature_table_input by auto.
    by rewrite col_filled, Hv. }
  split; [by rewrite length_log_returns_of|]. split; [done|].
  intros i Hi.
  split; [|split].
  - destruct (lag_cases i Hi) as [->|[->|[->| ->]]];
      apply list_elem_of_In; vm_compute; tauto.
  - destruct (lag_cases i Hi) as [->|[->|[->| ->]]];
      apply list_elem_of_In; vm_compute; tauto.
  - exists (shift (log_returns_of c) (Z.of_nat i)), (shift v (Z.of_nat i)).
    split; [|split].
    + rewrite col_training_table_other, col_feature_table_log_return_lag; [done..|].
      destruct (lag_cases i Hi) as [->|[->|[->| ->]]];
        intros Heq; vm_compute in Heq; discriminate.
    + rewrite col_training_table_other, col_feature_table_volume_lag; [done..|].
      destruct (lag_cases i Hi) as [->|[->|[->| ->]]];
        intros Heq; vm_compute in Heq; discriminate.
    + intros t Ht. rewrite !lookup_shift_back.
      rewrite length_log_returns_of, Hlc, Hlv.
      rewrite !(decide_True (P := t < n)) by done. done.
Qed.

(** C4, as the code has it: [train] has no insufficient-data check.  It
    calls the estimator's [fit] exactly once, on whatever rows are left
    after sampling and row removal, and its outcome is the estimator's:
    success followed by [save], or the estimator's own error.  It never
    raises [InsufficientData]; with fewer bars than one window the table
    handed to [fit] has no rows. *)
Theorem train_fits_whatever_rows_remain
    self (w : World val Est) p df0 c0 v0 wp :
  frames w !! p = Some df0 ->
  col df0 "close" = Some c0 ->
  col df0 "volume" = Some v0 ->
  window_points_of self = Ok wp ->
  (wp <> 0)%Z ->
  exists X y,
    (train self p w).2
      = match fit (hyperparameters self) X y with
        | Some _ => Ok tt
        | None => Raise EstimatorError
        end
    /\ events (train self p w).1
        = events w ++ EvFit X y ::
            match fit (hyperparameters self) X y with
            | Some _ => [EvSave (model_name self)]
            | None => []
            end
    /\ (train self p w).2 <> Raise InsufficientData
    /\ (well_formed df0 -> (Z.of_nat (length (index df0)) < wp)%Z ->
        index X = [] /\ y = [] /\ forall name s, (name, s) ∈ columns X -> s = []).
Proof.
  intros Hp Hc Hv Hwp Hne.
  destruct (train_run self w p df0 c0 v0 wp)
    as (cv & sampled & cols & target & Hcv & Hs & Hrel & Htarget & Hrun); [done..|].
  simpl in Hrun.
  exists (mkDataFrame (index (dropna sampled)) cols), target.
  split; [|split; [|split]].
  - rewrite Hrun. by destruct (fit _ _ target).
  - rewrite Hrun. by destruct (fit _ _ target).
  - rewrite Hrun. by destruct (fit _ _ target).
  - intros Hwf Hshort.
    assert (Hpos : (0 < wp)%Z) by lia.
    assert (Hlen : length (bfill (ffill c0)) = length (index df0))
      by by eapply length_filled_column.
    rewrite volatility_short_series in Hcv by lia.
    injection Hcv as <-.
    assert (Hscv : col sampled "current_volatility"
                   = Some (every_nth (Z.to_nat wp)
                             (replicate (length (bfill (ffill c0))) None))).
    { by rewrite (col_frame_slice_step wp _ _ _ Hpos Hs),
        col_training_table_other, col_feature_table_current_volatility. }
    assert (Hnone : Forall (fun x : option val => x = None)
                      (every_nth (Z.to_nat wp)
                         (replicate (length (bfill (ffill c0))) None))).
    { apply Forall_forall. intros x Hx.
      apply elem_of_every_nth in Hx; [|lia].
      by apply elem_of_replicate in Hx as [-> _]. }
    destruct (dropna_all_missing _ _ _ Hscv Hnone) as [Hidx Hempty].
    split; [done|]. split; [by eapply Hempty|].
    simpl. intros name s Hin.
    apply list_elem_of_lookup in Hin as [k Hk].
    destruct (Forall2_lookup_r _ _ _ _ _ Hrel Hk) as (name' & _ & _ & Hcol).
    by eapply Hempty.
Qed.

(** C5: for a table of n rows and a window of w > 0 points, the sampler
    keeps exactly the rows at positions 0, w, 2w, ...: the sampled table
    has ceil(n / w) rows, and row k of its index and of each of its columns
    is row k*w of the full table.  After the removal step of [train], no
    cell of the table is missing, and so none in the features and the
    target handed to the estimator. *)
Theorem sampler_keeps_every_window_start
    self (w : World val Est) p df0 c0 v0 wp :
  frames w !! p = Some df0 ->
  well_formed df0 ->
  col df0 "close" = Some c0 ->
  col df0 "volume" = Some v0 ->
  window_points_of self = Ok wp ->
  (0 < wp)%Z ->
  let n := length (index df0) in
  let step := Z.to_nat wp in
  exists w' q names full sampled X y,
    _calculate_volatility_features self p w = (w', Ok (q, names))
    /\ frames w' !! (length (frames w) + 2) = Some full
    /\ frames w' !! q = Some sampled
    /\ length (index full) = n
    /\ length (index sampled) = (n + step - 1) / step
    /\ (forall m, (n + step - 1) / step <= m <-> n <= m * step)
    /\ (forall k, index sampled !! k
                  = if decide (k * step < n) then index full !! (k * step) else None)
    /\ (forall name s, col full name = Some s ->
          exists s', col sampled name = Some s'
            /\ forall k, s' !! k
                         = if decide (k * step < n) then s !! (k * step) else None)
    /\ frames (train self p w).1 !! (length (frames w) + 5) = Some (dropna sampled)
    /\ (forall name s x, (name, s) ∈ columns (dropna sampled) -> x ∈ s -> is_Some x)
    /\ EvFit X y ∈ events (train self p w).1
    /\ (columns X).*1 = names ++ ["close"]
    /\ (forall name s x, (name, s) ∈ columns X -> x ∈ s -> is_Some x)
    /\ (forall x, x ∈ y -> is_Some x).
Proof.
  intros Hp Hwf Hc Hv Hwp Hpos n step.
  assert (Hne : (wp <> 0)%Z) by lia.
  destruct (train_run self w p df0 c0 v0 wp)
    as (cv & sampled & cols & target & Hcv & Hs & Hrel & Htarget & Hrun); [done..|].
  destruct (features_run self w p df0 c0 v0 wp)
    as (cv' & sampled' & Hcv' & Hs' & Hfeat); [done..|].
  set (c := bfill (ffill c0)) in *. set (v := bfill (ffill v0)) in *.
  rewrite Hcv in Hcv'. injection Hcv' as <-.
  rewrite Hs in Hs'. injection Hs' as <-.
  simpl in Hrun.
  set (full := training_table c v cv (filled df0)) in *.
  assert (Hwfull : well_formed full).
  { apply well_formed_training_table.
    - by apply well_formed_filled.
    - simpl. by eapply length_filled_column.
    - simpl. by eapply length_filled_column.
    - rewrite (length_volatility _ _ _ Hcv). simpl.
      by eapply length_filled_column. }
  destruct (frame_slice_step_inv _ _ _ Hs) as (g & _ & Hg & Hidx & _).
  specialize (Hg Hpos).
  exists (mkWorld (frames w ++ [df0; map_columns ffill df0; full; sampled; sampled])
            (fitted w) (events w)),
    (length (frames w) + 4), feature_names, full, sampled,
    (mkDataFrame (index (dropna sampled)) cols), target.
  split; [exact Hfeat|]. simpl.
  split; [by apply lookup_app_offset|].
  split; [by apply lookup_app_offset|].
  split; [done|].
  split; [by rewrite Hidx, Hg, length_every_nth by lia|].
  split; [intros m; apply ceiling_spec; lia|].
  split; [intros k; rewrite Hidx, Hg; apply lookup_every_nth; lia|].
  split.
  { intros name s Hs0. exists (every_nth step s).
    split; [by rewrite (col_frame_slice_step wp _ _ _ Hpos Hs), Hs0|].
    intros k. rewrite lookup_every_nth by lia.
    by rewrite (col_length _ _ _ Hwfull Hs0). }
  split.
  { rewrite Hrun. destruct (fit _ _ target); simpl.
    all: rewrite lookup_app_r by (rewrite length_app; simpl; lia).
    all: rewrite length_app; simpl.
    all: by replace (length (frames w) + 5 - (length (frames w) + 5)) with 0 by lia. }
  split; [apply dropna_complete|].
  split.
  { rewrite Hrun. destruct (fit _ _ target); simpl;
      apply elem_of_app; right; left. }
  split.
  { simpl. exact (selected_names _ _ _ Hrel). }
  split.
  { intros name s x Hin Hx. simpl in Hin.
    apply list_elem_of_lookup in Hin as [k Hk].
    destruct (Forall2_lookup_r _ _ _ _ _ Hrel Hk) as (name' & _ & Hname & Hcol).
    simpl in *. apply col_elem_of in Hcol.
    by eapply dropna_complete. }
  intros x Hx. apply col_elem_of in Htarget. by eapply dropna_complete.
Qed.

(** C6: [inference] builds the features on every input row: the table
    handed to the estimator has the index of the input, exactly the listed
    feature columns and [close], and no target column; every missing cell
    is replaced by zero and every other cell is kept.  One prediction per
    input row is returned, under the index of the input. *)
Theorem inference_at_full_resolution
    self (w : World val Est) p df0 c0 v0 wp :
  frames w !! p = Some df0 ->
  well_formed df0 ->
  col df0 "close" = Some c0 ->
  col df0 "volume" = Some v0 ->
  window_points_of self = Ok wp ->
  (wp <> 0)%Z ->
  let n := length (index df0) in
  exists table X,
    frames (inference self p w).1 !! (length (frames w) + 2) = Some table
    /\ index table = index df0
    /\ events (inference self p w).1 = events w ++ [EvPredict X]
    /\ index X = index df0
    /\ (columns X).*1 = feature_names ++ ["close"]
    /\ ("target_volatility" ∉ (columns X).*1)
    /\ (forall name s, (name, s) ∈ columns X ->
          exists s0, col table name = Some s0
            /\ length s = n
            /\ forall t, t < n ->
                 s !! t = Some (Some (default fzero (s0 !!! t))))
    /\ (forall est ys, fitted w = Some est -> predict est X = Some ys ->
          length ys = n ->
          exists q, (inference self p w).2 = Ok q
            /\ frames (inference self p w).1 !! q
                = Some (mkDataFrame (index df0) [("prediction", Some <$> ys)])).
Proof.
  intros Hp Hwf Hc Hv Hwp Hne n.
  destruct (inference_run self w p df0 c0 v0 wp)
    as (cv & cols & Hcv & Hrel & Hrun); [done..|].
  set (c := bfill (ffill c0)) in *. set (v := bfill (ffill v0)) in *.
  simpl in Hrun.
  set (table := feature_table c v cv (filled df0)) in *.
  set (X := map_columns (fillna_value fzero) (mkDataFrame (index df0) cols)) in *.
  assert (Hwtable : well_formed table).
  { apply well_formed_feature_table.
    - by apply well_formed_filled.
    - simpl. by eapply length_filled_column.
    - simpl. by eapply length_filled_column.
    - rewrite (length_volatility _ _ _ Hcv). simpl.
      by eapply length_filled_column. }
  assert (Hframes : forall F' X' f e, exists rest,
             frames (inference_outcome (val := val) (Est := Est) F' X' f e).1
               = F' ++ rest).
  { intros F' X' f e. unfold inference_outcome.
    destruct f as [est|]; [destruct (predict est X') as [ys|]|]; simpl.
    - case_decide; simpl; [by eexists|exists []; by rewrite app_nil_r].
    - exists []. by rewrite app_nil_r.
    - exists []. by rewrite app_nil_r. }
  assert (Hnames : (columns X).*1 = feature_names ++ ["close"]).
  { unfold X. simpl. rewrite <- list_fmap_compose.
    exact (selected_names _ _ _ Hrel). }
  exists table, X. rewrite Hrun.
  split.
  { destruct (Hframes
                (frames w ++ [df0; map_columns ffill df0; table;
                              mkDataFrame (index df0) cols; X])
                X (fitted w) (events w)) as [rest ->].
    rewrite lookup_app_l by (rewrite length_app; simpl; lia).
    by apply lookup_app_offset. }
  split; [done|].
  split.
  { unfold inference_outcome.
    destruct (fitted w) as [est|]; [destruct (predict est X) as [ys|]|]; simpl;
      try done.
    by case_decide. }
  split; [done|]. split; [done|].
  split.
  { rewrite Hnames. intros Hin. apply list_elem_of_In in Hin.
    vm_compute in Hin. intuition discriminate. }
  split.
  { intros name s Hin. unfold X in Hin. simpl in Hin.
    apply list_elem_of_fmap in Hin as ([name' s0] & Heq & Hin).
    simpl in Heq. injection Heq as -> ->.
    apply list_elem_of_lookup in Hin as [k Hk].
    destruct (Forall2_lookup_r _ _ _ _ _ Hrel Hk) as (name'' & _ & Hname & Hcol).
    simpl in *. subst name''. exists s0. split; [done|].
    assert (Hlen : length s0 = n) by (by apply (col_length _ _ _ Hwtable Hcol)).
    split; [unfold fillna_value; by rewrite length_fmap|].
    intros t Ht. unfold fillna_value. rewrite list_lookup_fmap.
    destruct (lookup_lt_is_Some_2 s0 t) as [x Hx]; [lia|].
    by rewrite Hx, (list_lookup_total_correct _ _ _ Hx). }
  intros est ys Hest Hys Hlen.
  unfold inference_outcome. rewrite Hest, Hys.
  rewrite decide_True by done. simpl.
  eexists. split; [done|]. apply lookup_last.
Qed.

(** C7: for a non-negative number of steps and any state of the wrapper,
    [forecast] returns that many zeros and leaves the world, the
    estimator and the record of calls to it included, as it was;
    [forecast(3)] is [[0, 0, 0]]. *)
Theorem forecast_is_all_zero self (w : World val Est) (steps : Z) :
  (0 <= steps)%Z ->
  exists zeros,
    forecast self steps w = (w, Ok zeros)
    /\ Z.of_nat (length zeros) = steps
    /\ Forall (fun z => z = 0%Z) zeros
    /\ forecast self 3 w = (w, Ok [0; 0; 0]%Z).
Proof.
  intros Hsteps. exists (replicate (Z.to_nat steps) 0%Z).
  split; [done|]. split; [rewrite length_replicate; lia|].
  split; [|done]. apply Forall_forall. intros z Hz.
  by apply elem_of_replicate in Hz as [-> _].
Qed.

(** C8: running the feature builder a second time, in the world the first
    run left behind, gives the same outcome: the same exception, or a table
    with the same contents and the same list of feature names.  Neither
    run touches the estimator, the record of calls, or the table returned
    by the other. *)
Theorem feature_builder_is_repeatable
    self (w : World val Est) p df0 c0 v0 :
  frames w !! p = Some df0 ->
  col df0 "close" = Some c0 ->
  col df0 "volume" = Some v0 ->
  let first := _calculate_volatility_features self p w in
  let second := _calculate_volatility_features self p first.1 in
  fitted second.1 = fitted w
  /\ events second.1 = events w
  /\ ((exists ex, first.2 = Raise ex /\ second.2 = Raise ex)
      \/ (exists q1 q2 names table,
            first.2 = Ok (q1, names) /\ second.2 = Ok (q2, names)
            /\ frames first.1 !! q1 = Some table
            /\ frames second.1 !! q1 = Some table
            /\ frames second.1 !! q2 = Some table)).
Proof.
  intros Hp Hc Hv first second. subst first second.
  destruct w as [F f e]. simpl in Hp.
  assert (Hfc : col (filled df0) "close" = Some (bfill (ffill c0)))
    by (by rewrite col_filled, Hc).
  assert (Hfv : col (filled df0) "volume" = Some (bfill (ffill v0)))
    by (by rewrite col_filled, Hv).
  destruct (window_points_of self) as [wp|ex] eqn:Hwp.
  - destruct (decide (wp = 0)%Z) as [->|Hne].
    + assert (Hcv : _calculate_non_overlapping_volatility (bfill (ffill c0)) 0
                    = Raise ValueError) by done.
      rewrite (run_features_bad_window self p df0 _ _ _ _ F f e Hp Hfc Hfv Hwp Hcv).
      simpl.
      erewrite run_features_bad_window;
        [|by apply lookup_app_l_Some|done..].
      simpl. split; [done|]. split; [done|]. left. by eexists.
    + destruct (features_run self (mkWorld F f e) p df0 c0 v0 wp)
        as (cv & sampled & Hcv & Hs & Hrun); [done..|].
      rewrite Hrun. simpl.
      erewrite run_calculate_volatility_features;
        [|by apply lookup_app_l_Some|done..].
      simpl. split; [done|]. split; [done|]. right.
      exists (length F + 4), (length (F ++ [df0; map_columns ffill df0;
                training_table (bfill (ffill c0)) (bfill (ffill v0)) cv (filled df0);
                sampled; sampled]) + 4), feature_names, sampled.
      split; [done|]. split; [done|].
      split; [by apply lookup_app_offset|].
      split; [|by apply lookup_app_offset].
      apply lookup_app_l_Some. by apply lookup_app_offset.
  - rewrite (run_features_no_interval self p df0 ex F f e Hp Hwp). simpl.
    erewrite run_features_no_interval; [|by apply lookup_app_l_Some|done].
    simpl. split; [done|]. split; [done|]. left. by eexists.
Qed.

(** C9: [train] and [inference] leave the caller's table as it was; the
    same holds for every object that was in the store before the call. *)
Theorem caller_table_is_unchanged self (w : World val Est) p df :
  frames w !! p = Some df ->
  frames (train self p w).1 !! p = Some df
  /\ frames (inference self p w).1 !! p = Some df.
Proof.
  intros Hp.
  assert (Hlen : S p <= length (frames w)) by (by eapply lookup_lt_Some).
  destruct (frame_safe_train (S p) self p w Hlen) as (Htrain & _ & _).
  destruct (frame_safe_inference (S p) self p w Hlen) as (Hinf & _ & _).
  split.
  - rewrite <- (lookup_take_lt _ (S p)) by lia.
    rewrite Htrain. by rewrite lookup_take_lt by lia.
  - rewrite <- (lookup_take_lt _ (S p)) by lia.
    rewrite Hinf. by rewrite lookup_take_lt by lia.
Qed.

(** C10: on the same bars, every feature column of the table that
    [inference] builds (the lagged log-returns and volumes, SMA_10, EMA_10,
    current_volatility) equals the column of the same name in the
    full-resolution table of training, and the names [inference] selects
    are the training feature names followed by [close]. *)
Theorem inference_features_match_training
    self (w : World val Est) p df0 c0 v0 wp :
  frames w !! p = Some df0 ->
  col df0 "close" = Some c0 ->
  col df0 "volume" = Some v0 ->
  window_points_of self = Ok wp ->
  (wp <> 0)%Z ->
  exists w' q names training inferring X,
    _calculate_volatility_features self p w = (w', Ok (q, names))
    /\ frames w' !! (length (frames w) + 2) = Some training
    /\ frames (inference self p w).1 !! (length (frames w) + 2) = Some inferring
    /\ names = ["log_return_t-1"; "volume_t-1"; "log_return_t-2"; "volume_t-2";
                "log_return_t-3"; "volume_t-3"; "log_return_t-4"; "volume_t-4";
                "SMA_10"; "EMA_10"; "current_volatility"]
    /\ (forall name, name ∈ names ->
          is_Some (col training name) /\ col inferring name = col training name)
    /\ events (inference self p w).1 = events w ++ [EvPredict X]
    /\ (columns X).*1 = names ++ ["close"].
Proof.
  intros Hp Hc Hv Hwp Hne.
  destruct (features_run self w p df0 c0 v0 wp)
    as (cv & sampled & Hcv & Hs & Hfeat); [done..|].
  destruct (inference_run self w p df0 c0 v0 wp)
    as (cv' & cols & Hcv' & Hrel & Hrun); [done..|].
  set (c := bfill (ffill c0)) in *. set (v := bfill (ffill v0)) in *.
  rewrite Hcv in Hcv'. injection Hcv' as <-.
  simpl in Hrun.
  set (X := map_columns (fillna_value fzero) (mkDataFrame (index df0) cols)) in *.
  eexists _, _, _, (training_table c v cv (filled df0)),
    (feature_table c v cv (filled df0)), X.
  split; [exact Hfeat|]. simpl.
  split; [by apply lookup_app_offset|].
  assert (Hfc : col (filled df0) "close" = Some c) by (by rewrite col_filled, Hc).
  pose proof (feature_columns_present c v cv _ Hfc) as Hpresent.
  rewrite Hrun. unfold inference_outcome.
  split.
  { destruct (fitted w) as [est|]; [destruct (predict est X) as [ys|]|]; simpl.
    - case_decide; simpl.
      + rewrite lookup_app_l by (rewrite length_app; simpl; lia).
        by apply lookup_app_offset.
      + by apply lookup_app_offset.
    - by apply lookup_app_offset.
    - by apply lookup_app_offset. }
  split; [done|].
  split.
  { intros name Hin.
    rewrite Forall_forall in Hpresent.
    destruct (Hpresent name) as [Hsome Hnt].
    { apply elem_of_app. by left. }
    by rewrite col_training_table_other. }
  split.
  { destruct (fitted w) as [est|]; [destruct (predict est X) as [ys|]|]; simpl;
      try done.
    by case_decide. }
  unfold X. simpl. rewrite <- list_fmap_compose.
  exact (selected_names _ _ _ Hrel).
Qed.

End Claims.

(** * The theorems at work on the example bars *)

Ltac example_hypothesis :=
  first [ reflexivity | lia | done | unfold well_formed; repeat constructor ].


Lemma target_volatility_shifted_before_sampling_witness :
  let n := length (index twenty_bars) in
  let horizon := 5 in
  exists w' q names full sampled cv tv stv,
    _calculate_volatility_features example_model 0 (example_world twenty_bars) = (w', Ok (q, names))
    /\ frames w' !! (length (frames (example_world twenty_bars)) + 2) = Some full
    /\ frames w' !! q = Some sampled
    /\ length (index full) = n
    /\ col full "current_volatility" = Some cv
    /\ col full "target_volatility" = Some tv
    /\ length cv = n /\ length tv = n
    /\ (forall t, t < n ->
          tv !! t = if decide (t + horizon < n) then cv !! (t + horizon)
                    else Some None)
    /\ frame_slice_step 5%Z full = Ok sampled
    /\ col sampled "target_volatility" = Some stv
    /\ (forall k, k * Z.to_nat 5%Z < n -> stv !! k = tv !! (k * Z.to_nat 5%Z)).
Proof. eapply (target_volatility_shifted_before_sampling example_model (example_world twenty_bars) 0 twenty_bars _ _ 5%Z); example_hypothesis. Defined.

Lemma lag_columns_one_to_four_witness :
  let n := length (index twenty_bars) in
  exists w' q names full log_returns volume,
    _calculate_volatility_features example_model 0 (example_world twenty_bars) = (w', Ok (q, names))
    /\ frames w' !! (length (frames (example_world twenty_bars)) + 2) = Some full
    /\ col full "log_returns" = Some log_returns
    /\ col full "volume" = Some volume
    /\ length log_returns = n /\ length volume = n
    /\ forall i, 1 <= i <= 4 ->
         ("log_return_t-" +:+ pretty i) ∈ names
         /\ ("volume_t-" +:+ pretty i) ∈ names
         /\ exists log_return_lag volume_lag,
              col full ("log_return_t-" +:+ pretty i) = Some log_return_lag
              /\ col full ("volume_t-" +:+ pretty i) = Some volume_lag
              /\ forall t, t < n ->
                   log_return_lag !! t
                     = (if decide (t < i) then Some None else log_returns !! (t - i))
                   /\ volume_lag !! t
                     = (if decide (t < i) then Some None else volume !! (t - i)).
Proof. eapply (lag_columns_one_to_four example_model (example_world twenty_bars) 0 twenty_bars _ _ 5%Z); example_hypothesis. Defined.

Lemma train_fits_whatever_rows_remain_witness :
  exists X y,
    (train example_model 0 (example_world three_bars)).2
      = match fit (hyperparameters example_model) X y with
        | Some _ => Ok tt
        | None => Raise EstimatorError
        end
    /\ events (train example_model 0 (example_world three_bars)).1
        = events (example_world three_bars) ++ EvFit X y ::
            match fit (hyperparameters example_model) X y with
            | Some _ => [EvSave (model_name example_model)]
            | None => []
            end
    /\ (train example_model 0 (example_world three_bars)).2 <> Raise InsufficientData
    /\ (well_formed three_bars -> (Z.of_nat (length (index three_bars)) < 5%Z)%Z ->
        index X = [] /\ y = [] /\ forall name s, (name, s) ∈ columns X -> s = []).
Proof. eapply (train_fits_whatever_rows_remain example_model (example_world three_bars) 0 three_bars _ _ 5%Z); example_hypothesis. Defined.

Lemma sampler_keeps_every_window_start_witness :
  let n := length (index twenty_bars) in
  let step := Z.to_nat 5%Z in
  exists w' q names full sampled X y,
    _calculate_volatility_features example_model 0 (example_world twenty_bars) = (w', Ok (q, names))
    /\ frames w' !! (length (frames (example_world twenty_bars)) + 2) = Some full
    /\ frames w' !! q = Some sampled
    /\ length (index full) = n
    /\ length (index sampled) = (n + step - 1) / step
    /\ (forall m, (n + step - 1) / step <= m <-> n <= m * step)
    /\ (forall k, index sampled !! k
                  = if decide (k * step < n) then index full !! (k * step) else None)
    /\ (forall name s, col full name = Some s ->
          exists s', col sampled name = Some s'
            /\ forall k, s' !! k
                         = if decide (k * step < n) then s !! (k * step) else None)
    /\ frames (train example_model 0 (example_world twenty_bars)).1 !! (length (frames (example_world twenty_bars)) + 5) = Some (dropna sampled)
    /\ (forall name s x, (name, s) ∈ columns (dropna sampled) -> x ∈ s -> is_Some x)
    /\ EvFit X y ∈ events (train example_model 0 (example_world twenty_bars)).1
    /\ (columns X).*1 = names ++ ["close"]
    /\ (forall name s x, (name, s) ∈ columns X -> x ∈ s -> is_Some x)
    /\ (forall x, x ∈ y -> is_Some x).
Proof. eapply (sampler_keeps_every_window_start example_model (example_world twenty_bars) 0 twenty_bars _ _ 5%Z); example_hypothesis. Defined.

Lemma inference_at_full_resolution_witness :
  let n := length (index twenty_bars) in
  exists table X,
    frames (inference example_model 0 (fitted_world twenty_bars)).1 !! (length (frames (fitted_world twenty_bars)) + 2) = Some table
    /\ index table = index twenty_bars
    /\ events (inference example_model 0 (fitted_world twenty_bars)).1 = events (fitted_world twenty_bars) ++ [EvPredict X]
    /\ index X = index twenty_bars
    /\ (columns X).*1 = feature_names ++ ["close"]
    /\ ("target_volatility" ∉ (columns X).*1)
    /\ (forall name s, (name, s) ∈ columns X ->
          exists s0, col table name = Some s0
            /\ length s = n
            /\ forall t, t < n ->
                 s !! t = Some (Some (default fzero (s0 !!! t))))
    /\ (forall est ys, fitted (fitted_world twenty_bars) = Some est -> predict est X = Some ys ->
          length ys = n ->
          exists q, (inference example_model 0 (fitted_world twenty_bars)).2 = Ok q
            /\ frames (inference example_model 0 (fitted_world twenty_bars)).1 !! q
                = Some (mkDataFrame (index twenty_bars) [("prediction", Some <$> ys)])).
Proof. eapply (inference_at_full_resolution example_model (fitted_world twenty_bars) 0 twenty_bars _ _ 5%Z); example_hypothesis. Defined.

Lemma forecast_is_all_zero_witness :
  exists zeros,
    forecast example_model 3%Z (fitted_world twenty_bars) = ((fitted_world twenty_bars), Ok zeros)
    /\ Z.of_nat (length zeros) = 3%Z
    /\ Forall (fun z => z = 0%Z) zeros
    /\ forecast example_model 3 (fitted_world twenty_bars) = ((fitted_world twenty_bars), Ok [0; 0; 0]%Z).
Proof. apply (forecast_is_all_zero example_model (fitted_world twenty_bars) 3%Z); lia. Defined.

Lemma feature_builder_is_repeatable_witness :
  let first := _calculate_volatility_features example_model 0 (example_world twenty_bars) in
  let second := _calculate_volatility_features example_model 0 first.1 in
  fitted second.1 = fitted (example_world twenty_bars)
  /\ events second.1 = events (example_world twenty_bars)
  /\ ((exists ex, first.2 = Raise ex /\ second.2 = Raise ex)
      \/ (exists q1 q2 names table,
            first.2 = Ok (q1, names) /\ second.2 = Ok (q2, names)
            /\ frames first.1 !! q1 = Some table
            /\ frames second.1 !! q1 = Some table
            /\ frames second.1 !! q2 = Some table)).
Proof. eapply (feature_builder_is_repeatable example_model (example_world twenty_bars) 0 twenty_bars _ _); example_hypothesis. Defined.

Lemma caller_table_is_unchanged_witness :
  frames (train example_model 0 (example_world three_bars)).1 !! 0 = Some three_bars
  /\ frames (inference example_model 0 (example_world three_bars)).1 !! 0 = Some three_bars.
Proof. apply (caller_table_is_unchanged example_model (example_world three_bars) 0 three_bars); reflexivity. Defined.

Lemma inference_features_match_training_witness :
  exists w' q names training inferring X,
    _calculate_volatility_features example_model 0 (example_world twenty_bars) = (w', Ok (q, names))
    /\ frames w' !! (length (frames (example_world twenty_bars)) + 2) = Some training
    /\ frames (inference example_model 0 (example_world twenty_bars)).1 !! (length (frames (example_world twenty_bars)) + 2) = Some inferring
    /\ names = ["log_return_t-1"; "volume_t-1"; "log_return_t-2"; "volume_t-2";
                "log_return_t-3"; "volume_t-3"; "log_return_t-4"; "volume_t-4";
                "SMA_10"; "EMA_10"; "current_volatility"]
    /\ (forall name, name ∈ names ->
          is_Some (col training name) /\ col inferring name = col training name)
    /\ events (inference example_model 0 (example_world twenty_bars)).1 = events (example_world twenty_bars) ++ [EvPredict X]
    /\ (columns X).*1 = names ++ ["close"].
Proof. eapply (inference_features_match_training example_model (example_world twenty_bars) 0 twenty_bars _ _ 5%Z); example_hypothesis. Defined.

(** A five-minute window over one-minute candles is five points. *)
Example window_points_five_minutes : window_points_of example_model = Ok 5%Z.
Proof. reflexivity. Qed.

(** Twenty bars leave one training row, the one at position 10. *)
Example train_twenty_bars :
  exists w' X y,
    train example_model 0 (example_world twenty_bars) = (w', Ok tt)
    /\ events w' = [EvFit X y; EvSave "rfregressor_volatility"]
    /\ index X = [10%Z] /\ length y = 1.
Proof. vm_compute. eexists _, _, _. repeat split; reflexivity. Qed.

(** ** Where the code departs from the claims *)

(** C3 fails on the code: the default configuration has [n_lags = 5], and
    the feature builder emits no column and no feature name for lag 5. *)
Lemma lag_five_counterexample :
  ~ (forall i : nat, 1 <= i <= Z.to_nat (n_lags (config example_model)) ->
       exists w' q names table,
         _calculate_volatility_features example_model 0 (example_world twenty_bars)
           = (w', Ok (q, names))
         /\ frames w' !! q = Some table
         /\ ("log_return_t-" +:+ pretty i) ∈ names
         /\ is_Some (col table ("log_return_t-" +:+ pretty i))).
Proof.
  intros Hclaim.
  destruct (Hclaim 5) as (w' & q & names & table & Hrun & _ & Hin & _).
  { simpl. lia. }
  vm_compute in Hrun. injection Hrun as _ _ <-.
  apply list_elem_of_In in Hin. vm_compute in Hin.
  intuition discriminate.
Qed.

(** C2 fails on the code: with a configured [target_shift] of three, the
    target of row 15 of twenty bars is not the current volatility of row
    18.  The code shifts by five whatever the configuration holds, and
    row 15 has no target. *)
Lemma target_shift_three_counterexample :
  ~ (exists w' q names full cv tv,
       _calculate_volatility_features shift_three_model 0 (example_world twenty_bars)
         = (w', Ok (q, names))
       /\ frames w' !! (length (frames (example_world twenty_bars)) + 2) = Some full
       /\ col full "current_volatility" = Some cv
       /\ col full "target_volatility" = Some tv
       /\ forall t, t < length (index twenty_bars) ->
            tv !! t =
              if decide (t + Z.to_nat (target_shift (config shift_three_model))
                         < length (index twenty_bars))
              then cv !! (t + Z.to_nat (target_shift (config shift_three_model)))
              else Some None).
Proof.
  intros (w' & q & names & full & cv & tv & Hrun & Hfull & Hcv & Htv & Hclaim).
  vm_compute in Hrun. injection Hrun as <- _ _.
  vm_compute in Hfull. injection Hfull as <-.
  vm_compute in Hcv. injection Hcv as <-.
  vm_compute in Htv. injection Htv as <-.
  specialize (Hclaim 15). vm_compute in Hclaim.
  specialize (Hclaim ltac:(repeat constructor)). discriminate.
Qed.

(** C4 fails on the code: with three bars and a window of five no row is
    left, yet [train] does not raise [InsufficientData] before the
    estimator is called; it calls [fit] on the empty table and the error is
    the estimator's. *)
Lemma train_short_series_counterexample :
  ~ (exists w',
       train example_model 0 (example_world three_bars) = (w', Raise InsufficientData)
       /\ forall X y, EvFit X y ∉ events w').
Proof.
  intros (w' & Hrun & _). vm_compute in Hrun. discriminate.
Qed.

(** What [train] does there instead. *)
Lemma train_short_series_calls_fit :
  exists w' X,
    train example_model 0 (example_world three_bars) = (w', Raise EstimatorError)
    /\ events w' = [EvFit X []]
    /\ index X = [].
Proof. vm_compute. eexists _, _. split; [reflexivity|]. split; reflexivity. Qed.

(** * More about the model *)

Section Fills.

Context {val : Type} {float_ops : FloatOps val}.

(** ** The fill step *)

Lemma ffill_from_present last (s : Series val) i v :
  s !! i = Some (Some v) -> ffill_from last s !! i = Some (Some v).
Proof.
  revert last i. induction s as [|[x|] s IH]; intros last [|i]; simpl; try done.
  - apply IH.
  - apply IH.
Qed.

Lemma ffill_from_some v0 (s : Series val) j :
  j < length s -> exists x, ffill_from (Some v0) s !! j = Some (Some x).
Proof.
  revert v0 j. induction s as [|[x|] s IH]; intros v0 [|j] Hj; simpl in *;
    try lia; eauto with lia.
Qed.

Lemma ffill_from_carries last (s : Series val) i j v :
  s !! i = Some (Some v) -> i <= j -> j < length s ->
  (forall k, i < k <= j -> s !! k = Some None) ->
  ffill_from last s !! j = Some (Some v).
Proof.
  revert last i j. induction s as [|x s IH]; intros last i j Hi Hij Hj Hgap.
  { done. }
  destruct i as [|i].
  - simpl in Hi. injection Hi as ->. simpl.
    destruct j as [|j]; [done|]. simpl.
    clear IH. revert j Hij Hj Hgap. simpl.
    induction s as [|y s IHs]; intros j Hij Hj Hgap; simpl in *; [lia|].
    assert (Hy : y = None).
    { specialize (Hgap 1). simpl in Hgap. assert (1 <= S j) by lia.
      specialize (Hgap ltac:(lia)). by injection Hgap. }
    subst y. destruct j as [|j]; [done|]. simpl.
    apply IHs; [lia|lia|].
    intros k Hk. specialize (Hgap (S k) ltac:(lia)).
    destruct k; [lia|]. done.
  - destruct j as [|j]; [lia|].
    assert (Hrec : forall last', ffill_from last' s !! j = Some (Some v)).
    { intros last'. apply (IH last' i j); [done|lia|simpl in Hj; lia|].
      intros k Hk. apply (Hgap (S k)). lia. }
    destruct x; simpl; apply Hrec.
Qed.

Lemma bfill_present (s : Series val) i v :
  s !! i = Some (Some v) -> bfill s !! i = Some (Some v).
Proof.
  revert i. induction s as [|[x|] s IH]; intros [|i]; simpl; try done.
  - apply IH.
  - apply IH.
Qed.

Lemma bfill_reaches_back (s : Series val) j k v :
  s !! k = Some (Some v) -> j <= k ->
  exists x, bfill s !! j = Some (Some x).
Proof.
  revert j k. induction s as [|x s IH]; intros j k Hk Hjk; [done|].
  destruct j as [|j].
  - destruct x as [x|]; simpl; [by eexists|].
    destruct k as [|k]; [done|]. simpl in Hk.
    destruct (IH 0 k Hk ltac:(lia)) as [y Hy].
    destruct (bfill s) as [|z r]; [done|]. simpl in *.
    injection Hy as ->. by eexists.
  - destruct k as [|k]; [lia|]. simpl in Hk.
    destruct (IH j k Hk ltac:(lia)) as [y Hy].
    destruct x; simpl; by eexists.
Qed.

Lemma ffill_after_value (s : Series val) i v j :
  s !! i = Some (Some v) -> i <= j -> j < length s ->
  exists x, ffill s !! j = Some (Some x).
Proof.
  unfold ffill. generalize (@None val) as last.
  revert i j. induction s as [|x s IH]; intros i j last Hi Hij Hj; [done|].
  destruct i as [|i].
  - simpl in Hi. injection Hi as ->. simpl.
    destruct j as [|j]; [by eexists|]. simpl.
    apply ffill_from_some. simpl in Hj. lia.
  - destruct j as [|j]; [lia|]. simpl in Hi, Hj.
    destruct x; simpl; eapply IH; eauto with lia.
Qed.

(** X1: a column that holds at least one value has no missing cell after
    the forward fill followed by the backward fill, and keeps its length;
    a column without any value stays as it is. *)
Theorem fill_leaves_no_gap (s : Series val) :
  length (bfill (ffill s)) = length s
  /\ ((exists i v, s !! i = Some (Some v)) ->
      forall j, j < length s -> exists x, bfill (ffill s) !! j = Some (Some x))
  /\ (Forall (fun x => x = None) s -> bfill (ffill s) = s).
Proof.
  split; [by rewrite length_bfill, length_ffill|]. split.
  - intros (i & v & Hi) j Hj.
    destruct (decide (i <= j)) as [Hij|Hij].
    + destruct (ffill_after_value s i v j Hi Hij Hj) as [x Hx].
      exists x. by apply bfill_present.
    + apply (bfill_reaches_back _ j i v); [|lia].
      by apply ffill_from_present.
  - induction 1 as [|x s -> Hall IH]; [done|].
    unfold ffill in *. simpl. rewrite IH.
    destruct s as [|y s']; [done|].
    inversion Hall; subst. done.
Qed.

(** X2: the fill step never changes a cell that holds a value; a gap after
    a value takes that value (the last observation is carried forward), and
    a gap before the first value takes the first value. *)
Theorem fill_semantics (s : Series val) i v :
  s !! i = Some (Some v) ->
  bfill (ffill s) !! i = Some (Some v)
  /\ (forall j, i <= j -> j < length s ->
        (forall k, i < k <= j -> s !! k = Some None) ->
        bfill (ffill s) !! j = Some (Some v))
  /\ ((forall k, k < i -> s !! k = Some None) ->
      forall j, j <= i -> bfill (ffill s) !! j = Some (Some v)).
Proof.
  intros Hi. split; [|split].
  - by apply bfill_present, ffill_from_present.
  - intros j Hij Hj Hgap. apply bfill_present.
    by apply (ffill_from_carries None s i j v).
  - intros Hlead j Hj.
    assert (Hff : forall k, k < i -> ffill s !! k = Some None).
    { unfold ffill. clear Hi Hj. revert i Hlead.
      induction s as [|x s IH]; intros i Hlead k Hk.
      { specialize (Hlead k Hk). done. }
      destruct i as [|i]; [lia|].
      pose proof (Hlead 0 ltac:(lia)) as H0. simpl in H0. injection H0 as ->.
      simpl. destruct k as [|k]; [done|]. simpl.
      apply (IH i); [|lia]. intros k' Hk'. apply (Hlead (S k')). lia. }
    assert (Hfi : ffill s !! i = Some (Some v)) by by apply ffill_from_present.
    clear Hi Hlead. revert i j Hj Hff Hfi.
    induction (ffill s) as [|x t IH]; intros i j Hj Hff Hfi; [done|].
    destruct i as [|i].
    + assert (j = 0) by lia. subst j. simpl in *. injection Hfi as ->. done.
    + pose proof (Hff 0 ltac:(lia)) as H0. simpl in H0. injection H0 as ->.
      simpl in Hfi.
      assert (Hrec : forall j', j' <= i -> bfill t !! j' = Some (Some v)).
      { intros j' Hj'. apply (IH i j' Hj'); [|done].
        intros k Hk. apply (Hff (S k)). lia. }
      destruct j as [|j]; simpl.
      * pose proof (Hrec 0 ltac:(lia)) as Hhead.
        destruct (bfill t) as [|z r]; [done|]. simpl in *.
        by injection Hhead as ->.
      * apply Hrec. lia.
Qed.

End Fills.

Section EstimatorEffects.

Context {val : Type} {float_ops : FloatOps val}.
Context {Est : Type} {estimator : Estimator val Est}.

Local Abbreviation M := (@M val Est).

(** ** Which methods touch the estimator *)

Lemma quiet_bind {A B} (m : M A) (k : A -> M B) :
  quiet m -> (forall a, quiet (k a)) -> quiet (bind m k).
Proof.
  intros Hm Hk w. unfold bind. specialize (Hm w).
  destruct (m w) as [w' [a|ex]]; simpl in *; [|done].
  by rewrite Hk.
Qed.

Lemma effects_bind_quiet {A B} (m : M A) (k : A -> M B) P :
  quiet m -> (forall a, effects (k a) P) -> (forall s ex, P s s (Raise ex)) ->
  effects (bind m k) P.
Proof.
  intros Hm Hk Hrefl w. unfold bind. specialize (Hm w).
  destruct (m w) as [w' [a|ex]]; simpl in *.
  - rewrite <- Hm. apply Hk.
  - rewrite Hm. apply Hrefl.
Qed.

Lemma quiet_ret {A} (a : A) : quiet (ret a : M A).
Proof. done. Qed.

Lemma quiet_raise {A} ex : quiet (raise ex : M A).
Proof. done. Qed.

Lemma quiet_lift {A} (r : Res A) : quiet (lift r : M A).
Proof. done. Qed.

Lemma quiet_alloc (d : DataFrame val) : quiet (alloc d : M ptr).
Proof. done. Qed.

Lemma quiet_deref p : quiet (deref p : M (DataFrame val)).
Proof. done. Qed.

Lemma quiet_update p g : quiet (update p g : M unit).
Proof. done. Qed.

Lemma quiet_df_getitem p name : quiet (df_getitem p name : M (Series val)).
Proof.
  unfold df_getitem. apply quiet_bind; [apply quiet_deref|].
  intros df. destruct (col df name); [apply quiet_ret | apply quiet_raise].
Qed.

Lemma quiet_new_frame name values idx : quiet (new_frame name values idx : M ptr).
Proof. unfold new_frame. case_decide; [apply quiet_alloc | apply quiet_raise]. Qed.

(** Walk through a program that only uses the store. *)
Ltac quiet_auto :=
  lazymatch goal with
  | |- quiet (bind _ _) => apply quiet_bind; [quiet_auto | intros ?; quiet_auto]
  | |- quiet (ret _) => apply quiet_ret
  | |- quiet (raise _) => apply quiet_raise
  | |- quiet (lift _) => apply quiet_lift
  | |- quiet (alloc _) => apply quiet_alloc
  | |- quiet (deref _) => apply quiet_deref
  | |- quiet (update _ _) => apply quiet_update
  | |- quiet (df_setitem _ _ _) => apply quiet_update
  | |- quiet (df_getitem _ _) => apply quiet_df_getitem
  | |- quiet (new_frame _ _ _) => apply quiet_new_frame
  | |- quiet (df_copy _) => unfold df_copy; quiet_auto
  | |- quiet (df_ffill _) => unfold df_ffill; quiet_auto
  | |- quiet (df_bfill _) => unfold df_bfill; quiet_auto
  | |- quiet (df_fillna _ _) => unfold df_fillna; quiet_auto
  | |- quiet (df_dropna _) => unfold df_dropna; quiet_auto
  | |- quiet (df_iloc_step _ _) => unfold df_iloc_step; quiet_auto
  | |- quiet (df_select _ _) => unfold df_select; quiet_auto
  | |- _ => idtac
  end.

Lemma quiet_features_lag_loop idxs p lof :
  quiet (features_lag_loop idxs p lof : M (list string)).
Proof.
  revert lof. induction idxs as [|i idxs IH]; intros lof.
  - apply quiet_ret.
  - cbn [features_lag_loop]. quiet_auto. apply IH.
Qed.

Lemma quiet_inference_lag_loop idxs p lof :
  quiet (inference_lag_loop idxs p lof : M (list string)).
Proof.
  revert lof. induction idxs as [|i idxs IH]; intros lof.
  - apply quiet_ret.
  - cbn [inference_lag_loop]. quiet_auto. apply IH.
Qed.

Lemma quiet_calculate_volatility_features self p :
  quiet (_calculate_volatility_features self p : M (ptr * list string)).
Proof.
  unfold _calculate_volatility_features. cbv zeta.
  quiet_auto. apply quiet_features_lag_loop.
Qed.

(** X3: on every path, [train] either stops before the estimator is
    reached and leaves it untouched, or calls [fit] exactly once; it
    returns normally only when [fit] succeeded, and only then is the new
    estimator installed and [save] called, once, after [fit].  A failed
    [fit] keeps the estimator that was there. *)
Theorem train_touches_estimator_once self p (w : World val Est) :
  let w' := (train self p w).1 in
  let result := (train self p w).2 in
  (exists ex, result = Raise ex /\ fitted w' = fitted w /\ events w' = events w)
  \/ (exists X y, fit (hyperparameters self) X y = None
        /\ result = Raise EstimatorError
        /\ fitted w' = fitted w
        /\ events w' = events w ++ [EvFit X y])
  \/ (exists X y est, fit (hyperparameters self) X y = Some est
        /\ result = Ok tt
        /\ fitted w' = Some est
        /\ events w' = events w ++ [EvFit X y; EvSave (model_name self)]).
Proof.
  set (P := fun (s s' : option Est * list (Event val)) (r : Res unit) =>
    (exists ex, r = Raise ex /\ s' = s)
    \/ (exists X y, fit (hyperparameters self) X y = None
          /\ r = Raise EstimatorError /\ s' = (s.1, s.2 ++ [EvFit X y]))
    \/ (exists X y est, fit (hyperparameters self) X y = Some est
          /\ r = Ok tt
          /\ s' = (Some est, s.2 ++ [EvFit X y; EvSave (model_name self)]))).
  assert (Hrefl : forall s ex, P s s (Raise ex)).
  { intros s ex. left. by exists ex. }
  assert (Htrain : effects (train self p) P).
  { unfold train.
    apply effects_bind_quiet; [apply quiet_calculate_volatility_features| |done].
    intros [df_sampled lof].
    apply effects_bind_quiet; [quiet_auto| |done]. intros dropped.
    apply effects_bind_quiet; [quiet_auto| |done]. intros features.
    apply effects_bind_quiet; [quiet_auto| |done]. intros target.
    intros w0. unfold P, model_fit, deref, model_save, est_state.
    unfold bind. simpl.
    destruct (fit (hyperparameters self) _ target) as [est|] eqn:Hfit; simpl.
    - right. right. eexists _, _, _. split; [exact Hfit|].
      split; [done|]. by rewrite <- app_assoc.
    - right. left. eexists _, _. by split; [exact Hfit|]. }
  intros w' result. specialize (Htrain w). unfold est_state in Htrain.
  fold w' result in Htrain. simpl in Htrain.
  destruct Htrain as [(ex & Hr & Hs)|[(X & y & Hfit & Hr & Hs)|(X & y & est & Hfit & Hr & Hs)]].
  - left. exists ex. by injection Hs as -> ->.
  - right. left. exists X, y. by injection Hs as -> ->.
  - right. right. exists X, y, est. by injection Hs as -> ->.
Qed.

(** X4: on every path, [inference] leaves the fitted estimator as it was
    and never calls [fit] or [save]: the record of calls is unchanged when
    it stops before the estimator is reached, and grows by exactly one
    [predict] otherwise. *)
Theorem inference_never_fits self p (w : World val Est) :
  let w' := (inference self p w).1 in
  fitted w' = fitted w
  /\ ((exists ex, (inference self p w).2 = Raise ex /\ events w' = events w)
      \/ (exists X, events w' = events w ++ [EvPredict X])).
Proof.
  set (P := fun (s s' : option Est * list (Event val)) (r : Res ptr) =>
    s'.1 = s.1
    /\ ((exists ex, r = Raise ex /\ s'.2 = s.2)
        \/ (exists X, s'.2 = s.2 ++ [EvPredict X]))).
  assert (Hrefl : forall s ex, P s s (Raise ex)).
  { intros s ex. split; [done|]. left. by exists ex. }
  assert (Hinf : effects (inference self p) P).
  { unfold inference. cbv zeta.
    do 6 (apply effects_bind_quiet; [quiet_auto| |done]; intros ?).
    apply effects_bind_quiet; [apply quiet_inference_lag_loop| |done]; intros ?.
    do 9 (apply effects_bind_quiet; [quiet_auto| |done]; intros ?).
    intros w0. unfold P, model_predict, deref, new_frame, est_state.
    unfold bind. simpl.
    destruct (fitted w0) as [est|]; simpl.
    - destruct (predict est _) as [ys|]; simpl.
      + case_decide; simpl; (split; [done|]); right; by eexists.
      + split; [done|]. right. by eexists.
    - split; [done|]. right. by eexists. }
  intros w'. specialize (Hinf w). unfold est_state in Hinf. simpl in Hinf.
  exact Hinf.
Qed.

End EstimatorEffects.

(** ** Durations that a float holds exactly *)

Lemma float_of_int_exact (a : Z) :
  (Z.abs a < 2 ^ 53)%Z -> float_of_int a = a.
Proof.
  intros Ha. unfold float_of_int. case_decide as Hz; [done|].
  set (n := Z.abs a). assert (Hn : (0 < n)%Z) by lia.
  assert (Hlog : (0 <= Z.log2 n < 53)%Z).
  { split; [apply Z.log2_nonneg|]. by apply Z.log2_lt_pow2. }
  assert (Hlow : (2 ^ Z.log2 n <= n)%Z) by (apply Z.log2_spec; lia).
  set (k := (52 - Z.log2 n)%Z).
  assert (Hk : (0 <= k)%Z) by lia.
  assert (Hscaled : (2 ^ 52 <= n * 2 ^ k)%Z).
  { replace (2 ^ 52)%Z with (2 ^ Z.log2 n * 2 ^ k)%Z.
    - apply Z.mul_le_mono_nonneg_r; [apply Z.pow_nonneg; lia|done].
    - rewrite <- Z.pow_add_r by lia. f_equal. lia. }
  assert (Hpow : (0 < 2 ^ k)%Z) by (apply Z.pow_pos_nonneg; lia).
  assert (Hscale : binary64_scale n 1 = k).
  { unfold binary64_scale. change (Z.log2 1) with 0%Z. rewrite Z.sub_0_r.
    fold k. cbv zeta. rewrite (Z.max_l k 0), (Z.max_r (- k) 0) by lia.
    rewrite decide_False; [done|]. change (2 ^ 0)%Z with 1%Z.
    rewrite !Z.mul_1_l. apply Z.le_ngt, Hscaled. }
  assert (Hm : binary64_mantissa n 1 k = (n * 2 ^ k)%Z).
  { unfold binary64_mantissa. cbv zeta.
    rewrite (Z.max_l k 0), (Z.max_r (- k) 0) by lia.
    change (1 * 2 ^ 0)%Z with 1%Z. rewrite Z.mod_1_r, Z.div_1_r.
    rewrite decide_False; [done|]. lia. }
  unfold truncated_quotient. rewrite Hscale, Hm.
  rewrite decide_True by lia. rewrite Z.div_mul by lia.
  unfold n. lia.
Qed.

Lemma int_of_float_div_small (a b : Z) :
  (Z.abs a < Z.abs b)%Z -> (Z.abs b < 2 ^ 53)%Z -> int_of_float_div a b = 0%Z.
Proof.
  intros Hab Hb. unfold int_of_float_div. case_decide as Hz; [done|].
  set (n := Z.abs a) in *. set (d := Z.abs b) in *.
  assert (Hn : (0 < n)%Z) by lia.
  assert (Hlog : (Z.log2 n <= Z.log2 d)%Z) by (apply Z.log2_le_mono; lia).
  set (k := binary64_scale n d).
  assert (Hk : (53 <= k)%Z).
  { unfold k, binary64_scale. case_decide as Hadj; [lia|].
    destruct (decide (Z.log2 n = Z.log2 d)) as [Heq|Hne]; [|lia].
    exfalso. apply Hadj. rewrite Heq, Z.sub_diag.
    change (Z.max (52 - 0) 0) with 52%Z. change (Z.max (- (52 - 0)) 0) with 0%Z.
    change (2 ^ 0)%Z with 1%Z. rewrite Z.mul_1_r.
    apply Z.mul_lt_mono_pos_r; [done|lia]. }
  assert (Htwo : (2 ^ 53 <= 2 ^ k)%Z) by (apply Z.pow_le_mono_r; lia).
  assert (Hm : (0 <= binary64_mantissa n d k < 2 ^ k)%Z).
  { unfold binary64_mantissa. cbv zeta.
    rewrite (Z.max_l k 0), (Z.max_r (- k) 0) by lia.
    change (2 ^ 0)%Z with 1%Z. rewrite Z.mul_1_r.
    assert (Hq : (0 <= n * 2 ^ k / d)%Z) by (apply Z.div_pos; lia).
    assert (Hlt : (n * 2 ^ k / d < 2 ^ k - 1)%Z).
    { apply Z.div_lt_upper_bound; [lia|]. nia. }
    case_decide; lia. }
  unfold truncated_quotient. fold k. rewrite decide_True by lia.
  rewrite Z.div_small by done. lia.
Qed.

Section ErrorPaths.

Context {val : Type} {float_ops : FloatOps val}.
Context {Est : Type} {estimator : Estimator val Est}.

Local Abbreviation M := (@M val Est).

(** ** Bad configurations and bad tables *)

Ltac step lem := (erewrite bind_run by (lem)); cbv beta iota.
Ltac step_set := step ltac:(apply run_df_setitem_last).
Ltac stop lem := (erewrite bind_raise by (lem)).

(** An exception of the feature builder is the exception of [train]. *)
Lemma train_raises_with_features self p (w w' : World val Est) ex :
  _calculate_volatility_features self p w = (w', Raise ex) ->
  train self p w = (w', Raise ex).
Proof. intros Hrun. unfold train. by erewrite bind_raise by exact Hrun. Qed.

Lemma run_inference_bad_window self p df0 c v wp ex
    (F : list (DataFrame val)) (f : option Est) e :
  F !! p = Some df0 ->
  col (filled df0) "close" = Some c ->
  col (filled df0) "volume" = Some v ->
  window_points_of self = Ok wp ->
  _calculate_non_overlapping_volatility c wp = Raise ex ->
  inference self p (mkWorld F f e)
    = (mkWorld (F ++ [df0; map_columns ffill df0; averaged_table c v (filled df0)]) f e,
       Raise ex).
Proof.
  intros Hp Hc Hv Hwp Hcv.
  unfold inference. cbv zeta.
  step ltac:(by apply run_df_copy).
  step ltac:(apply run_df_ffill, lookup_last).
  step ltac:(apply run_df_bfill, lookup_last).
  unfold lift at 1. step ltac:(by rewrite Hwp).
  fold (filled df0).
  step ltac:(eapply run_df_getitem; [apply lookup_last | done]).
  step_set. fold (log_returns_of c).
  step ltac:(apply run_inference_lag_loop;
             [apply col_set_col_eq | by rewrite col_set_col_ne by done]).
  change (foldl _ _ (py_range 1 5 1)) with (lagged_table c v (filled df0)).
  step ltac:(eapply run_df_getitem;
             [apply lookup_last | by rewrite col_lagged_table_other by auto]).
  step_set.
  step ltac:(eapply run_df_getitem;
             [apply lookup_last
             | by rewrite col_set_col_ne, col_lagged_table_other by auto]).
  step_set.
  fold (averaged_table c v (filled df0)).
  step ltac:(eapply run_df_getitem;
             [apply lookup_last | by rewrite col_averaged_table_close]).
  unfold lift at 1. stop ltac:(by rewrite Hcv).
  by rewrite <- !app_assoc.
Qed.

Lemma window_points_zero self :
  (Z.abs (volatility_window self) < Z.abs (candle_interval self))%Z ->
  (Z.abs (candle_interval self) < 2 ^ 53)%Z ->
  window_points_of self = Ok 0%Z.
Proof.
  intros Hlt Hexact. unfold window_points_of.
  rewrite decide_False by lia. f_equal.
  rewrite !float_of_int_exact by lia.
  by apply int_of_float_div_small.
Qed.

(** X5: when the volatility window is shorter than one candle, and the
    candle is shorter than 2^53 ns (some 104 days, up to which a float
    holds every duration exactly), the number of points per window
    truncates to zero; the feature builder, [train] and [inference] then
    raise ValueError (the zero step of [range]), and the estimator is
    neither called nor changed. *)
Theorem window_shorter_than_candle_raises
    self (w : World val Est) p df0 c0 v0 :
  frames w !! p = Some df0 ->
  col df0 "close" = Some c0 ->
  col df0 "volume" = Some v0 ->
  (Z.abs (volatility_window self) < Z.abs (candle_interval self))%Z ->
  (Z.abs (candle_interval self) < 2 ^ 53)%Z ->
  window_points_of self = Ok 0%Z
  /\ (_calculate_volatility_features self p w).2 = Raise ValueError
  /\ (train self p w).2 = Raise ValueError
  /\ est_state (train self p w).1 = est_state w
  /\ (inference self p w).2 = Raise ValueError
  /\ est_state (inference self p w).1 = est_state w.
Proof.
  intros Hp Hc Hv Hlt Hexact.
  pose proof (window_points_zero self Hlt Hexact) as Hwp.
  assert (Hfc : col (filled df0) "close" = Some (bfill (ffill c0)))
    by (by rewrite col_filled, Hc).
  assert (Hfv : col (filled df0) "volume" = Some (bfill (ffill v0)))
    by (by rewrite col_filled, Hv).
  assert (Hcv : _calculate_non_overlapping_volatility (bfill (ffill c0)) 0
                = Raise ValueError) by done.
  destruct w as [F f e]. simpl in Hp.
  pose proof (run_features_bad_window self p df0 _ _ _ _ F f e Hp Hfc Hfv Hwp Hcv)
    as Hfeat.
  split; [done|]. split; [by rewrite Hfeat|].
  rewrite (train_raises_with_features _ _ _ _ _ Hfeat).
  rewrite (run_inference_bad_window self p df0 _ _ _ _ F f e Hp Hfc Hfv Hwp Hcv).
  done.
Qed.

Lemma run_features_no_close self p df0 wp
    (F : list (DataFrame val)) (f : option Est) e :
  F !! p = Some df0 ->
  col df0 "close" = None ->
  window_points_of self = Ok wp ->
  _calculate_volatility_features self p (mkWorld F f e)
    = (mkWorld (F ++ [df0; map_columns ffill df0; filled df0]) f e,
       Raise (KeyError "close")).
Proof.
  intros Hp Hc Hwp. unfold _calculate_volatility_features. cbv zeta.
  step ltac:(by apply run_df_copy).
  step ltac:(apply run_df_ffill, lookup_last).
  step ltac:(apply run_df_bfill, lookup_last).
  unfold lift at 1. step ltac:(by rewrite Hwp).
  fold (filled df0).
  stop ltac:(eapply run_df_getitem_missing;
             [apply lookup_last | by rewrite col_filled, Hc]).
  by rewrite <- !app_assoc.
Qed.

Lemma run_inference_no_close self p df0 wp
    (F : list (DataFrame val)) (f : option Est) e :
  F !! p = Some df0 ->
  col df0 "close" = None ->
  window_points_of self = Ok wp ->
  inference self p (mkWorld F f e)
    = (mkWorld (F ++ [df0; map_columns ffill df0; filled df0]) f e,
       Raise (KeyError "close")).
Proof.
  intros Hp Hc Hwp. unfold inference. cbv zeta.
  step ltac:(by apply run_df_copy).
  step ltac:(apply run_df_ffill, lookup_last).
  step ltac:(apply run_df_bfill, lookup_last).
  unfold lift at 1. step ltac:(by rewrite Hwp).
  fold (filled df0).
  stop ltac:(eapply run_df_getitem_missing;
             [apply lookup_last | by rewrite col_filled, Hc]).
  by rewrite <- !app_assoc.
Qed.

(** The table at the moment the first turn of the lag loop asks for
    [volume]. *)
Lemma run_features_no_volume self p df0 c0 wp
    (F : list (DataFrame val)) (f : option Est) e :
  F !! p = Some df0 ->
  col df0 "close" = Some c0 ->
  col df0 "volume" = None ->
  window_points_of self = Ok wp ->
  exists table,
    _calculate_volatility_features self p (mkWorld F f e)
      = (mkWorld (F ++ [df0; map_columns ffill df0; table]) f e,
         Raise (KeyError "volume")).
Proof.
  intros Hp Hc Hv Hwp. eexists.
  unfold _calculate_volatility_features. cbv zeta.
  step ltac:(by apply run_df_copy).
  step ltac:(apply run_df_ffill, lookup_last).
  step ltac:(apply run_df_bfill, lookup_last).
  unfold lift at 1. step ltac:(by rewrite Hwp).
  fold (filled df0).
  step ltac:(eapply run_df_getitem;
             [apply lookup_last | by rewrite col_filled, Hc]).
  step_set.
  change (py_range 1 5 1) with [1; 2; 3; 4]. cbn [features_lag_loop].
  erewrite (bind_raise (bind _ _)).
  2:{ step ltac:(eapply run_df_getitem; [apply lookup_last | apply col_set_col_eq]).
      step_set.
      stop ltac:(eapply run_df_getitem_missing;
                 [apply lookup_last
                 | by rewrite !col_set_col_ne, col_filled, Hv
                     by (intros Heq; vm_compute in Heq; discriminate)]).
      reflexivity. }
  by rewrite <- !app_assoc.
Qed.

Lemma run_inference_no_volume self p df0 c0 wp
    (F : list (DataFrame val)) (f : option Est) e :
  F !! p = Some df0 ->
  col df0 "close" = Some c0 ->
  col df0 "volume" = None ->
  window_points_of self = Ok wp ->
  exists table,
    inference self p (mkWorld F f e)
      = (mkWorld (F ++ [df0; map_columns ffill df0; table]) f e,
         Raise (KeyError "volume")).
Proof.
  intros Hp Hc Hv Hwp. eexists.
  unfold inference. cbv zeta.
  step ltac:(by apply run_df_copy).
  step ltac:(apply run_df_ffill, lookup_last).
  step ltac:(apply run_df_bfill, lookup_last).
  unfold lift at 1. step ltac:(by rewrite Hwp).
  fold (filled df0).
  step ltac:(eapply run_df_getitem;
             [apply lookup_last | by rewrite col_filled, Hc]).
  step_set.
  change (py_range 1 5 1) with [1; 2; 3; 4]. cbn [inference_lag_loop].
  erewrite (bind_raise (bind _ _)).
  2:{ step ltac:(eapply run_df_getitem; [apply lookup_last | apply col_set_col_eq]).
      step_set.
      stop ltac:(eapply run_df_getitem_missing;
                 [apply lookup_last
                 | by rewrite !col_set_col_ne, col_filled, Hv
                     by (intros Heq; vm_compute in Heq; discriminate)]).
      reflexivity. }
  by rewrite <- !app_assoc.
Qed.

(** X6: a table without a [close] column makes [train] and [inference]
    raise KeyError for [close]; the estimator is neither called nor
    changed and the caller's table is still in place. *)
Theorem missing_close_raises self (w : World val Est) p df0 wp :
  frames w !! p = Some df0 ->
  col df0 "close" = None ->
  window_points_of self = Ok wp ->
  (train self p w).2 = Raise (KeyError "close")
  /\ est_state (train self p w).1 = est_state w
  /\ frames (train self p w).1 !! p = Some df0
  /\ (inference self p w).2 = Raise (KeyError "close")
  /\ est_state (inference self p w).1 = est_state w
  /\ frames (inference self p w).1 !! p = Some df0.
Proof.
  intros Hp Hc Hwp. destruct w as [F f e]. simpl in Hp.
  rewrite (train_raises_with_features _ _ _ _ _
             (run_features_no_close self p df0 wp F f e Hp Hc Hwp)).
  rewrite (run_inference_no_close self p df0 wp F f e Hp Hc Hwp).
  simpl. by rewrite !(lookup_app_l_Some _ _ _ _ Hp).
Qed.

(** X7: a table with [close] but without [volume] makes [train] and
    [inference] raise KeyError for [volume], in the first turn of the lag
    loop; the estimator is neither called nor changed. *)
Theorem missing_volume_raises self (w : World val Est) p df0 c0 wp :
  frames w !! p = Some df0 ->
  col df0 "close" = Some c0 ->
  col df0 "volume" = None ->
  window_points_of self = Ok wp ->
  (train self p w).2 = Raise (KeyError "volume")
  /\ est_state (train self p w).1 = est_state w
  /\ (inference self p w).2 = Raise (KeyError "volume")
  /\ est_state (inference self p w).1 = est_state w.
Proof.
  intros Hp Hc Hv Hwp. destruct w as [F f e]. simpl in Hp.
  destruct (run_features_no_volume self p df0 c0 wp F f e Hp Hc Hv Hwp)
    as [table Hfeat].
  destruct (run_inference_no_volume self p df0 c0 wp F f e Hp Hc Hv Hwp)
    as [table' Hinf].
  rewrite (train_raises_with_features _ _ _ _ _ Hfeat), Hinf. done.
Qed.

End ErrorPaths.

Section TrainingRows.

Context {val : Type} {float_ops : FloatOps val}.
Context {Est : Type} {estimator : Estimator val Est}.

(** ** Which rows reach the estimator *)

(** The volatility at a position is the standard deviation of the
    log-returns of the window around it, when that window is complete. *)
Lemma volatility_lookup (series : Series val) (wp : Z) cv i :
  (0 < wp)%Z ->
  _calculate_non_overlapping_volatility series wp = Ok cv ->
  i < length series ->
  let step := Z.to_nat wp in
  cv !! i =
    Some (if decide ((i / step + 1) * step <= length series)
          then series_std (iloc_slice (log_returns_of series)
                             (i / step * step) ((i / step + 1) * step))
          else None).
Proof.
  intros Hpos Hcv Hi step.
  assert (Hstep : 0 < step) by (unfold step; lia).
  unfold _calculate_non_overlapping_volatility in Hcv.
  rewrite decide_False in Hcv by lia. rewrite decide_False in Hcv by lia.
  injection Hcv as <-. fold step. unfold py_range.
  pose proof (Nat.div_mod_eq i step) as Hdm.
  pose proof (Nat.mod_upper_bound i step ltac:(lia)) as Hmod.
  case_decide as Hblock.
  - apply (vol_for_block _ _ _ step 0); rewrite ?length_replicate; lia.
  - rewrite vol_for_untouched.
    + apply lookup_replicate_2. lia.
    + done.
    + right. exists (i / step). lia.
    + apply Nat.Div0.mod_0_l.
Qed.

Lemma rolling_mean_needs_window window (s : Series val) t x :
  rolling_mean window s !! t = Some (Some x) -> window <= t + 1.
Proof.
  unfold rolling_mean. rewrite list_lookup_imap.
  destruct (s !! t); simpl; [|done].
  case_decide; [done|]. intros [=].
Qed.

Lemma keep_sublist {A} (mask : list bool) (l : list A) : keep mask l `sublist_of` l.
Proof.
  revert l. induction mask as [|b mask IH]; intros [|x l]; simpl;
    try apply sublist_nil_l.
  destruct b; [by apply sublist_skip | by apply sublist_cons].
Qed.

Lemma keep_without_true {A} (mask : list bool) (l : list A) :
  (forall k, mask !! k <> Some true) -> keep mask l = [].
Proof.
  intros Hmask. destruct (keep mask l) as [|y r] eqn:Hk; [done|].
  assert (Hy : y ∈ keep mask l) by (rewrite Hk; left).
  apply elem_of_keep in Hy as (i & Hi & _). by destruct (Hmask i).
Qed.

Lemma strided_sublist {A} (l : list A) step fuel start :
  0 < step ->
  omap (fun i => l !! i) (range_from fuel start (length l) step)
    `sublist_of` drop start l.
Proof.
  intros Hstep. revert start. induction fuel as [|fuel IH]; intros start; simpl.
  { apply sublist_nil_l. }
  case_decide as Hlt; [|apply sublist_nil_l]. simpl.
  destruct (lookup_lt_is_Some_2 l start Hlt) as [x Hx]. rewrite Hx.
  rewrite (drop_S _ _ _ Hx). apply sublist_skip.
  etrans; [apply IH|].
  replace (start + step) with (S start + (step - 1)) by lia.
  rewrite <- drop_drop. apply sublist_drop.
Qed.

Lemma every_nth_sublist {A} (l : list A) step :
  0 < step -> every_nth step l `sublist_of` l.
Proof.
  intros Hstep. unfold every_nth, py_range.
  etrans; [by apply strided_sublist|]. by rewrite drop_0.
Qed.

(** What [train] hands to [fit], read off its run. *)
Lemma train_fit_event self (w : World val Est) p df0 c0 v0 wp :
  frames w !! p = Some df0 ->
  col df0 "close" = Some c0 ->
  col df0 "volume" = Some v0 ->
  window_points_of self = Ok wp ->
  (wp <> 0)%Z ->
  let c := bfill (ffill c0) in
  let v := bfill (ffill v0) in
  exists cv sampled X y,
    _calculate_non_overlapping_volatility c wp = Ok cv
    /\ frame_slice_step wp (training_table c v cv (filled df0)) = Ok sampled
    /\ frames (train self p w).1 !! (length (frames w) + 4) = Some sampled
    /\ EvFit X y ∈ events (train self p w).1
    /\ index X = keep (notna_rows sampled) (index sampled)
    /\ col (dropna sampled) "target_volatility" = Some y.
Proof.
  intros Hp Hc Hv Hwp Hne c v.
  destruct (train_run self w p df0 c0 v0 wp)
    as (cv & sampled & cols & target & Hcv & Hs & Hrel & Htarget & Hrun); [done..|].
  simpl in Hrun.
  exists cv, sampled, (mkDataFrame (index (dropna sampled)) cols), target.
  split; [done|]. split; [done|]. rewrite Hrun.
  split.
  { destruct (fit _ _ target); simpl.
    all: rewrite lookup_app_l by (rewrite length_app; simpl; lia).
    all: by apply lookup_app_offset. }
  split.
  { destruct (fit _ _ target); simpl; apply elem_of_app; right; left. }
  done.
Qed.

(** X8: a sampled row reaches the estimator only if it has nine bars
    before it (the ten-bar moving average) and the whole window around the
    bar five positions later lies inside the table (the target).  So with
    fewer than fifteen bars [fit] is called on a table without rows,
    whatever the window. *)
Theorem training_rows_need_history
    self (w : World val Est) p df0 c0 v0 wp :
  frames w !! p = Some df0 ->
  well_formed df0 ->
  col df0 "close" = Some c0 ->
  col df0 "volume" = Some v0 ->
  window_points_of self = Ok wp ->
  (0 < wp)%Z ->
  let n := length (index df0) in
  let step := Z.to_nat wp in
  exists sampled X y,
    frames (train self p w).1 !! (length (frames w) + 4) = Some sampled
    /\ EvFit X y ∈ events (train self p w).1
    /\ index X = keep (notna_rows sampled) (index sampled)
    /\ (forall k, notna_rows sampled !! k = Some true ->
          9 <= k * step /\ ((k * step + 5) / step + 1) * step <= n)
    /\ (n < 15 -> index X = [] /\ y = []).
Proof.
  intros Hp Hwf Hc Hv Hwp Hpos n step.
  assert (Hstep : 0 < step) by (unfold step; lia).
  destruct (train_fit_event self w p df0 c0 v0 wp)
    as (cv & sampled & X & y & Hcv & Hs & Hframe & Hev & Hidx & Hy);
    [done..|lia|].
  set (c := bfill (ffill c0)) in *. set (v := bfill (ffill v0)) in *.
  assert (Hlc : length c = n) by by eapply length_filled_column.
  assert (Hlcv : length cv = n) by by rewrite (length_volatility _ _ _ Hcv).
  assert (Hrows : forall k, notna_rows sampled !! k = Some true ->
            9 <= k * step /\ ((k * step + 5) / step + 1) * step <= n).
  { intros k Hk. split.
    - assert (Hsma : col sampled "SMA_10" = Some (every_nth step (rolling_mean 10 c))).
      { by rewrite (col_frame_slice_step wp _ _ _ Hpos Hs),
          col_training_table_other, col_feature_table_SMA. }
      apply col_elem_of in Hsma.
      destruct (notna_rows_true _ _ _ _ Hk Hsma) as [x Hx].
      rewrite lookup_every_nth in Hx by done.
      case_decide; [|done].
      apply rolling_mean_needs_window in Hx. lia.
    - assert (Htv : col sampled "target_volatility"
                    = Some (every_nth step (shift cv (-5)))).
      { by rewrite (col_frame_slice_step wp _ _ _ Hpos Hs),
          col_training_table_target. }
      apply col_elem_of in Htv.
      destruct (notna_rows_true _ _ _ _ Hk Htv) as [x Hx].
      rewrite lookup_every_nth in Hx by done.
      case_decide; [|done].
      change (-5)%Z with (- Z.of_nat 5)%Z in Hx.
      rewrite lookup_shift_fwd in Hx by lia.
      rewrite Hlcv in Hx.
      case_decide as Hin; [|done]. case_decide as Hahead; [|done].
      rewrite (volatility_lookup c wp cv (k * step + 5) Hpos Hcv) in Hx by lia.
      fold step in Hx. rewrite Hlc in Hx.
      case_decide; [done|]. by injection Hx. }
  exists sampled, X, y. do 3 (split; [done|]). split; [done|].
  intros Hshort.
  assert (Hnone : forall k, notna_rows sampled !! k <> Some true).
  { intros k Hk. destruct (Hrows k Hk) as [H9 Hblock].
    pose proof (Nat.div_mod_eq (k * step + 5) step).
    pose proof (Nat.mod_upper_bound (k * step + 5) step ltac:(lia)). nia. }
  split.
  - rewrite Hidx. by apply keep_without_true.
  - rewrite col_dropna in Hy.
    destruct (col sampled "target_volatility"); simpl in Hy; [|done].
    injection Hy as <-. by apply keep_without_true.
Qed.

(** X9: the rows handed to [fit] are rows of the caller's table, in their
    original order: the index of the feature table is a subsequence of the
    input index. *)
Theorem training_rows_are_input_rows
    self (w : World val Est) p df0 c0 v0 wp :
  frames w !! p = Some df0 ->
  col df0 "close" = Some c0 ->
  col df0 "volume" = Some v0 ->
  window_points_of self = Ok wp ->
  (0 < wp)%Z ->
  exists X y,
    EvFit X y ∈ events (train self p w).1
    /\ index X `sublist_of` index df0.
Proof.
  intros Hp Hc Hv Hwp Hpos.
  destruct (train_fit_event self w p df0 c0 v0 wp)
    as (cv & sampled & X & y & Hcv & Hs & Hframe & Hev & Hidx & Hy);
    [done..|lia|].
  exists X, y. split; [done|]. rewrite Hidx.
  etrans; [apply keep_sublist|].
  destruct (frame_slice_step_inv _ _ _ Hs) as (g & _ & Hg & Hsidx & _).
  rewrite Hsidx, (Hg Hpos). simpl.
  apply every_nth_sublist. lia.
Qed.

(** The two volatility columns of the sampled table. *)
Lemma sampled_volatility_columns self (w : World val Est) p df0 c0 v0 wp :
  frames w !! p = Some df0 ->
  well_formed df0 ->
  col df0 "close" = Some c0 ->
  col df0 "volume" = Some v0 ->
  window_points_of self = Ok wp ->
  (0 < wp)%Z ->
  let n := length (index df0) in
  let step := Z.to_nat wp in
  let c := bfill (ffill c0) in
  let window b :=
    if decide ((b + 1) * step <= n)
    then series_std (iloc_slice (log_returns_of c) (b * step) ((b + 1) * step))
    else None in
  exists w' q names sampled current target,
    _calculate_volatility_features self p w = (w', Ok (q, names))
    /\ frames w' !! q = Some sampled
    /\ col sampled "current_volatility" = Some current
    /\ col sampled "target_volatility" = Some target
    /\ (forall k, current !! k
                  = if decide (k * step < n) then Some (window k) else None)
    /\ (forall k, target !! k
                  = if decide (k * step < n)
                    then Some (if decide (k * step + 5 < n)
                               then window ((k * step + 5) / step) else None)
                    else None).
Proof.
  intros Hp Hwf Hc Hv Hwp Hpos n step c window.
  assert (Hstep : 0 < step) by (unfold step; lia).
  destruct (features_run self w p df0 c0 v0 wp)
    as (cv & sampled & Hcv & Hs & Hrun); [done..|lia|].
  fold c in Hcv, Hs, Hrun.
  assert (Hlc : length c = n) by by eapply length_filled_column.
  assert (Hlcv : length cv = n) by by rewrite (length_volatility _ _ _ Hcv).
  assert (Hcvi : forall i, i < n -> cv !! i = Some (window (i / step))).
  { intros i Hi.
    rewrite (volatility_lookup c wp cv i Hpos Hcv) by lia.
    fold step. rewrite Hlc. done. }
  eexists _, _, _, sampled, (every_nth step cv), (every_nth step (shift cv (-5))).
  split; [exact Hrun|]. simpl.
  split; [by apply lookup_app_offset|].
  split.
  { by rewrite (col_frame_slice_step wp _ _ _ Hpos Hs),
      col_training_table_other, col_feature_table_current_volatility. }
  split.
  { by rewrite (col_frame_slice_step wp _ _ _ Hpos Hs), col_training_table_target. }
  split.
  - intros k. rewrite lookup_every_nth, Hlcv by done.
    case_decide as Hk; [|done].
    rewrite Hcvi by done. by rewrite Nat.div_mul by lia.
  - intros k. rewrite lookup_every_nth, length_shift, Hlcv by done.
    case_decide as Hk; [|done].
    change (-5)%Z with (- Z.of_nat 5)%Z. rewrite lookup_shift_fwd by lia.
    rewrite Hlcv, decide_True by done.
    case_decide; [|done]. by rewrite Hcvi.
Qed.


(** X11: when a window has more than five points, the bar five positions
    after a sampled row lies in the row's own window, so the target column
    of the sampled table equals its current-volatility column: the
    estimator is trained to reproduce one of its inputs. *)
Theorem wide_window_target_is_current_volatility
    self (w : World val Est) p df0 c0 v0 wp :
  frames w !! p = Some df0 ->
  well_formed df0 ->
  col df0 "close" = Some c0 ->
  col df0 "volume" = Some v0 ->
  window_points_of self = Ok wp ->
  (5 < wp)%Z ->
  exists w' q names sampled current,
    _calculate_volatility_features self p w = (w', Ok (q, names))
    /\ frames w' !! q = Some sampled
    /\ col sampled "current_volatility" = Some current
    /\ col sampled "target_volatility" = Some current.
Proof.
  intros Hp Hwf Hc Hv Hwp Hwide.
  destruct (sampled_volatility_columns self w p df0 c0 v0 wp)
    as (w' & q & names & sampled & current & target
        & Hrun & Hq & Hcur & Htar & Hcurk & Htark); [done..|lia|].
  set (n := length (index df0)) in *. set (step := Z.to_nat wp) in *.
  assert (Hstep : 5 < step) by (unfold step; lia).
  exists w', q, names, sampled, current.
  do 3 (split; [done|]). rewrite Htar. f_equal.
  apply list_eq. intros k. rewrite Htark, Hcurk.
  case_decide as Hk; [|done]. f_equal.
  assert (Hdiv : (k * step + 5) / step = k).
  { rewrite Nat.add_comm, Nat.div_add by lia.
    rewrite Nat.div_small by lia. done. }
  case_decide as Hahead.
  - by rewrite Hdiv.
  - rewrite decide_False by nia. done.
Qed.

End TrainingRows.

Section InferenceRows.

Context {val : Type} {float_ops : FloatOps val}.
Context {Est : Type} {estimator : Estimator val Est}.

(** ** What the estimator sees at inference *)

Lemma selected_column (table : DataFrame val) names cols name :
  Forall2 (fun name col' => col'.1 = name /\ col table name = Some col'.2) names cols ->
  name ∈ names ->
  assoc_get name cols = col table name.
Proof.
  induction 1 as [|name' [k s] names cols [Hk Hs] _ IH]; simpl in *.
  { by inversion 1. }
  subst k. intros [->|Hin]%elem_of_cons.
  - by rewrite decide_True.
  - destruct (decide (name' = name)) as [->|]; [done|]. by apply IH.
Qed.

(** The columns of the table that [inference] hands to [predict]. *)
Lemma inference_predict_event self (w : World val Est) p df0 c0 v0 wp :
  frames w !! p = Some df0 ->
  col df0 "close" = Some c0 ->
  col df0 "volume" = Some v0 ->
  window_points_of self = Ok wp ->
  (wp <> 0)%Z ->
  let c := bfill (ffill c0) in
  let v := bfill (ffill v0) in
  exists cv X,
    _calculate_non_overlapping_volatility c wp = Ok cv
    /\ events (inference self p w).1 = events w ++ [EvPredict X]
    /\ forall name, name ∈ feature_names ++ ["close"] ->
         col X name
           = fillna_value fzero <$> col (feature_table c v cv (filled df0)) name.
Proof.
  intros Hp Hc Hv Hwp Hne c v.
  destruct (inference_run self w p df0 c0 v0 wp)
    as (cv & cols & Hcv & Hrel & Hrun); [done..|].
  fold c v in Hcv, Hrel, Hrun. simpl in Hrun.
  exists cv, (map_columns (fillna_value fzero) (mkDataFrame (index df0) cols)).
  split; [done|]. split.
  - rewrite Hrun. unfold inference_outcome.
    destruct (fitted w) as [est|]; [destruct (predict est _) as [ys|]|]; simpl;
      try done.
    by case_decide.
  - intros name Hin. rewrite col_map_columns. unfold col at 1. simpl.
    by rewrite (selected_column _ _ _ _ Hrel Hin).
Qed.

(** X12: at inference the rows that have no history get zeros: the lag-i
    columns are zero on the first i rows, SMA_10 is zero on the first nine
    rows, and current_volatility is zero on every row of the trailing
    incomplete window, the most recent bars whenever the number of bars is
    not a multiple of the window. *)
Theorem inference_zero_fills_rows_without_history
    self (w : World val Est) p df0 c0 v0 wp :
  frames w !! p = Some df0 ->
  well_formed df0 ->
  col df0 "close" = Some c0 ->
  col df0 "volume" = Some v0 ->
  window_points_of self = Ok wp ->
  (0 < wp)%Z ->
  let n := length (index df0) in
  let step := Z.to_nat wp in
  exists X sma current,
    events (inference self p w).1 = events w ++ [EvPredict X]
    /\ col X "SMA_10" = Some sma
    /\ col X "current_volatility" = Some current
    /\ (forall t, t < n -> t < 9 -> sma !! t = Some (Some fzero))
    /\ (forall t, (n / step) * step <= t < n -> current !! t = Some (Some fzero))
    /\ (forall i, 1 <= i <= 4 ->
          exists log_return_lag volume_lag,
            col X ("log_return_t-" +:+ pretty i) = Some log_return_lag
            /\ col X ("volume_t-" +:+ pretty i) = Some volume_lag
            /\ forall t, t < n -> t < i ->
                 log_return_lag !! t = Some (Some fzero)
                 /\ volume_lag !! t = Some (Some fzero)).
Proof.
  intros Hp Hwf Hc Hv Hwp Hpos n step.
  assert (Hstep : 0 < step) by (unfold step; lia).
  destruct (inference_predict_event self w p df0 c0 v0 wp)
    as (cv & X & Hcv & Hev & Hcols); [done..|lia|].
  set (c := bfill (ffill c0)) in *. set (v := bfill (ffill v0)) in *.
  assert (Hlc : length c = n) by by eapply length_filled_column.
  assert (Hlv : length v = n) by by eapply length_filled_column.
  assert (Hlcv : length cv = n) by by rewrite (length_volatility _ _ _ Hcv).
  assert (Hname : forall name, In name (feature_names ++ ["close"]) ->
                               name ∈ feature_names ++ ["close"]).
  { intros name. apply list_elem_of_In. }
  exists X, (fillna_value fzero (rolling_mean 10 c)), (fillna_value fzero cv).
  split; [done|].
  split.
  { rewrite Hcols by (apply Hname; vm_compute; tauto).
    by rewrite col_feature_table_SMA. }
  split.
  { rewrite Hcols by (apply Hname; vm_compute; tauto).
    by rewrite col_feature_table_current_volatility. }
  split.
  { intros t Ht H9. unfold fillna_value, rolling_mean.
    rewrite list_lookup_fmap, list_lookup_imap.
    destruct (lookup_lt_is_Some_2 c t) as [x ->]; [lia|]. simpl.
    by rewrite decide_False by lia. }
  split.
  { intros t Ht. unfold fillna_value. rewrite list_lookup_fmap.
    rewrite (volatility_lookup c wp cv t Hpos Hcv) by lia.
    fold step. rewrite Hlc. simpl.
    rewrite decide_False; [done|].
    pose proof (Nat.div_mod_eq t step).
    pose proof (Nat.mod_upper_bound t step ltac:(lia)).
    pose proof (Nat.div_mod_eq n step).
    pose proof (Nat.mod_upper_bound n step ltac:(lia)).
    assert (n / step <= t / step).
    { rewrite <- (Nat.div_mul (n / step) step) at 1 by lia.
      apply Nat.Div0.div_le_mono. lia. }
    nia. }
  intros i Hi.
  exists (fillna_value fzero (shift (log_returns_of c) (Z.of_nat i))),
    (fillna_value fzero (shift v (Z.of_nat i))).
  split.
  { rewrite Hcols.
    - by rewrite col_feature_table_log_return_lag.
    - apply Hname. destruct (lag_cases i Hi) as [->|[->|[->| ->]]];
        vm_compute; tauto. }
  split.
  { rewrite Hcols.
    - by rewrite col_feature_table_volume_lag.
    - apply Hname. destruct (lag_cases i Hi) as [->|[->|[->| ->]]];
        vm_compute; tauto. }
  intros t Ht Hti. unfold fillna_value.
  rewrite !list_lookup_fmap, !lookup_shift_back.
  rewrite length_log_returns_of, Hlc, Hlv.
  by rewrite !decide_True by lia.
Qed.

End InferenceRows.

(** * [train.py] *)

Section DateRangeFacts.

Context {calendar : Calendar}.

(** ** The subranges of [split_date_ranges] *)

Lemma frequency_delta_positive frequency delta :
  frequency_delta frequency = Ok delta -> (0 < delta)%Z.
Proof.
  unfold frequency_delta. repeat case_decide; intros [= <-]; lia.
Qed.

Lemma frequency_delta_supported frequency :
  (exists delta, frequency_delta frequency = Ok delta)
  <-> frequency ∈ ["1min"; "5min"; "1hour"; "4hour"; "1day"].
Proof.
  split.
  - intros [delta Hd]. unfold frequency_delta in Hd.
    apply list_elem_of_In.
    destruct (decide (frequency = "1min")) as [->|?]; [simpl; tauto|].
    destruct (decide (frequency = "5min")) as [->|?]; [simpl; tauto|].
    destruct (decide (frequency = "1hour")) as [->|?]; [simpl; tauto|].
    destruct (decide (frequency ∈ ["4hour"; "1day"])) as [Hin|?]; [|done].
    apply list_elem_of_In in Hin. simpl in *. tauto.
  - intros Hin. apply list_elem_of_In in Hin. simpl in Hin.
    destruct Hin as [<-|[<-|[<-|[<-|[<-|[]]]]]]; eexists; vm_compute; reflexivity.
Qed.

(** As long as no step leads past [datetime.max], the loop appends, after
    what it was given, one subrange per step of [delta] days until the
    end date is reached. *)
Lemma split_loop_lookup fuel (current_date end_date delta : Z) acc :
  (0 < delta)%Z -> (end_date - current_date <= Z.of_nat fuel)%Z ->
  (forall j : Z, (0 <= j)%Z -> (current_date + j * delta < end_date)%Z ->
     (current_date + (j + 1) * delta <= datetime_max)%Z) ->
  exists ranges,
    split_loop fuel current_date end_date delta acc = Ok ranges
    /\ forall i : nat,
         ranges !! i =
           if decide (i < length acc) then acc !! i
           else
             let j := Z.of_nat (i - length acc) in
             if decide (current_date + j * delta < end_date)%Z
             then Some (strftime (current_date + j * delta)%Z,
                        strftime (Z.min (current_date + (j + 1) * delta) end_date))
             else None.
Proof.
  intros Hdelta. revert current_date acc.
  induction fuel as [|fuel IH]; intros current_date acc Hfuel Hsafe.
  - exists acc. split; [done|]. intros i. simpl. case_decide as Hi; [done|].
    rewrite decide_False by nia. apply lookup_ge_None. lia.
  - simpl. case_decide as Hlt.
    + pose proof (Hsafe 0%Z ltac:(lia) ltac:(lia)) as Hfirst.
      rewrite decide_False by lia.
      set (next_date := if decide (current_date + delta > end_date)%Z
                        then end_date else (current_date + delta)%Z).
      assert (Hnext : (end_date < current_date + delta /\ next_date = end_date)%Z
                      \/ (current_date + delta <= end_date
                          /\ next_date = current_date + delta)%Z).
      { unfold next_date. case_decide; [left|right]; lia. }
      clearbody next_date.
      destruct (IH next_date (acc ++ [(strftime current_date, strftime next_date)]))
        as (ranges & Hrun & Hlook).
      { lia. }
      { intros j Hj Hin. destruct Hnext as [[Hover ->]|[Hover ->]]; [nia|].
        replace (current_date + delta + (j + 1) * delta)%Z
          with (current_date + (j + 1 + 1) * delta)%Z by lia.
        apply Hsafe; lia. }
      exists ranges. split; [done|]. intros i. rewrite Hlook.
      rewrite length_app. simpl.
      destruct (decide (i < length acc)) as [Hi|Hi].
      * rewrite decide_True by lia. by rewrite lookup_app_l.
      * destruct (decide (i = length acc)) as [->|Hne].
        -- rewrite decide_True by lia.
           rewrite lookup_app_r, !Nat.sub_diag by lia. simpl.
           rewrite decide_True by lia.
           destruct Hnext as [[Hover ->]|[Hover ->]]; do 3 f_equal; lia.
        -- rewrite decide_False by lia.
           replace (Z.of_nat (i - length acc))
             with (Z.of_nat (i - (length acc + 1)) + 1)%Z by lia.
           set (j := Z.of_nat (i - (length acc + 1))).
           assert (0 <= j)%Z by lia.
           destruct Hnext as [[Hover ->]|[Hover ->]].
           ++ rewrite decide_False by nia. rewrite decide_False by nia. done.
           ++ replace (current_date + delta + j * delta)%Z
                with (current_date + (j + 1) * delta)%Z by lia.
              replace (current_date + delta + (j + 1) * delta)%Z
                with (current_date + (j + 1 + 1) * delta)%Z by lia.
              done.
    + exists acc. split; [done|]. intros i. case_decide as Hi; [done|].
      rewrite decide_False by nia. apply lookup_ge_None. lia.
Qed.

(** A step that leads past [datetime.max] while the end date is not yet
    reached makes the loop raise, whatever it had collected. *)
Lemma split_loop_overflow fuel (current_date end_date delta : Z) acc (j : nat) :
  (0 < delta)%Z -> (end_date - current_date <= Z.of_nat fuel)%Z ->
  (current_date + Z.of_nat j * delta < end_date)%Z ->
  (datetime_max < current_date + (Z.of_nat j + 1) * delta)%Z ->
  split_loop fuel current_date end_date delta acc = Raise OverflowError.
Proof.
  intros Hdelta. revert current_date acc j.
  induction fuel as [|fuel IH]; intros current_date acc j Hfuel Hin Hover.
  - nia.
  - simpl. rewrite decide_True by nia.
    destruct (decide (datetime_max < current_date + delta)%Z) as [Hnow|Hnow];
      [done|].
    destruct j as [|j]; [lia|].
    assert (Hnext : (current_date + delta < end_date)%Z) by nia.
    rewrite decide_False by lia.
    apply (IH _ _ j); [lia|nia|nia].
Qed.

(** The number of subranges of [delta] days between two days. *)
Lemma steps_before_end (first last delta : Z) :
  (0 < delta)%Z ->
  forall k : Z,
    (first + k * delta < last <-> k < (last - first + delta - 1) / delta)%Z.
Proof.
  intros Hpos k. split; intros Hk.
  - assert (k + 1 <= (last - first + delta - 1) / delta)%Z; [|lia].
    apply Z.div_le_lower_bound; [lia|]. nia.
  - assert ((last - first + delta - 1) / delta * delta
            <= last - first + delta - 1)%Z.
    { rewrite Z.mul_comm. apply Z.mul_div_le. lia. }
    nia.
Qed.

Lemma split_date_ranges_lookup start_date end_date frequency first last delta :
  strptime start_date = Ok first ->
  strptime end_date = Ok last ->
  frequency_delta frequency = Ok delta ->
  ((first < last)%Z ->
   (first + (last - first + delta - 1) / delta * delta <= datetime_max)%Z) ->
  exists ranges,
    split_date_ranges start_date end_date frequency = Ok ranges
    /\ forall i : nat,
         ranges !! i =
           if decide (first + Z.of_nat i * delta < last)%Z
           then Some (strftime (first + Z.of_nat i * delta)%Z,
                      strftime (Z.min (first + (Z.of_nat i + 1) * delta) last))
           else None.
Proof.
  intros Hs He Hd Hsafe. unfold split_date_ranges. rewrite Hs, He, Hd.
  pose proof (frequency_delta_positive _ _ Hd) as Hpos.
  destruct (split_loop_lookup (Z.to_nat (last - first)) first last delta [])
    as (ranges & Hrun & Hlook); [done|lia| |].
  { intros j Hj Hin. assert (Hlt : (first < last)%Z) by nia.
    specialize (Hsafe Hlt).
    apply steps_before_end in Hin; [|done]. nia. }
  exists ranges. split; [done|]. intros i. rewrite Hlook.
  simpl. rewrite Nat.sub_0_r. done.
Qed.

(** X13: for dates that parse and a supported frequency, and when the
    last step does not lead past [datetime.max], subrange number i (from
    0) runs from [start + i*delta] to [start + (i+1)*delta], cut at the
    end date, for as long as its start lies before the end date; there
    are ceil((end - start) / delta) subranges, none when the start is not
    before the end. *)
Theorem split_date_ranges_steps start_date end_date frequency first last delta :
  strptime start_date = Ok first ->
  strptime end_date = Ok last ->
  frequency_delta frequency = Ok delta ->
  ((first < last)%Z ->
   (first + (last - first + delta - 1) / delta * delta <= datetime_max)%Z) ->
  exists ranges,
    split_date_ranges start_date end_date frequency = Ok ranges
    /\ (forall i : nat,
         ranges !! i =
           if decide (first + Z.of_nat i * delta < last)%Z
           then Some (strftime (first + Z.of_nat i * delta)%Z,
                      strftime (Z.min (first + (Z.of_nat i + 1) * delta) last))
           else None)
    /\ Z.of_nat (length ranges)
       = (if decide (first < last)%Z then (last - first + delta - 1) / delta else 0)%Z.
Proof.
  intros Hs He Hd Hsafe.
  destruct (split_date_ranges_lookup _ _ _ _ _ _ Hs He Hd Hsafe)
    as (ranges & Hrun & Hlook).
  pose proof (frequency_delta_positive _ _ Hd) as Hpos.
  exists ranges. split; [done|]. split; [done|].
  assert (Hlen : forall i : nat, i < length ranges
                   <-> (first + Z.of_nat i * delta < last)%Z).
  { intros i. rewrite <- lookup_lt_is_Some, Hlook.
    case_decide; split; intros Hsome; try done; try by eexists.
    all: by destruct Hsome. }
  case_decide as Hlt.
  - set (m := ((last - first + delta - 1) / delta)%Z).
    pose proof (steps_before_end first last delta Hpos) as Hm. fold m in Hm.
    assert (0 < m)%Z by (apply Hm; lia).
    destruct (Z.lt_trichotomy (Z.of_nat (length ranges)) m) as [Hl|[Hl|Hl]].
    + apply Hm, Hlen in Hl. lia.
    + done.
    + assert (Hin : Z.to_nat m < length ranges) by lia.
      apply Hlen in Hin. apply Hm in Hin. lia.
  - destruct ranges as [|r ranges]; [done|].
    assert (H0 : 0 < length (r :: ranges)) by (simpl; lia).
    apply Hlen in H0. lia.
Qed.

(** X14: when the start date lies before the end date and the last step
    does not lead past [datetime.max], the subranges tile the range: the
    first starts at the start date, each one ends where the next starts,
    and the last ends at the end date.  When the start date does not lie
    before the end date, reversed dates included, the answer is the empty
    list. *)
Theorem split_date_ranges_tiles start_date end_date frequency first last delta :
  strptime start_date = Ok first ->
  strptime end_date = Ok last ->
  frequency_delta frequency = Ok delta ->
  ((first < last)%Z ->
   (first + (last - first + delta - 1) / delta * delta <= datetime_max)%Z) ->
  exists ranges,
    split_date_ranges start_date end_date frequency = Ok ranges
    /\ ((last <= first)%Z -> ranges = [])
    /\ ((first < last)%Z ->
        (exists r, ranges !! 0 = Some r /\ r.1 = strftime first)
        /\ (exists r, ranges !! (length ranges - 1) = Some r /\ r.2 = strftime last)
        /\ (forall i a b, ranges !! i = Some a -> ranges !! (S i) = Some b ->
              a.2 = b.1)).
Proof.
  intros Hs He Hd Hsafe.
  destruct (split_date_ranges_lookup _ _ _ _ _ _ Hs He Hd Hsafe)
    as (ranges & Hrun & Hlook).
  pose proof (frequency_delta_positive _ _ Hd) as Hpos.
  exists ranges. split; [done|]. split.
  - intros Hle. destruct ranges as [|r ranges]; [done|].
    pose proof (Hlook 0) as H0. simpl in H0.
    rewrite decide_False in H0 by lia. done.
  - intros Hlt. split; [|split].
    + eexists. rewrite Hlook, decide_True by lia. split; [done|]. simpl.
      f_equal. lia.
    + assert (Hne : ranges <> []).
      { intros ->. pose proof (Hlook 0) as H0.
        rewrite decide_True in H0 by lia. done. }
      set (k := length ranges - 1).
      assert (Hk : k < length ranges).
      { unfold k. destruct ranges; [done|]. simpl. lia. }
      assert (Hnext : ranges !! (S k) = None).
      { apply lookup_ge_None. unfold k. lia. }
      apply lookup_lt_is_Some in Hk as [r Hr].
      exists r. split; [done|].
      rewrite Hlook in Hr. rewrite Hlook in Hnext.
      destruct (decide (first + Z.of_nat k * delta < last)%Z) as [Hin|Hin];
        [|done].
      destruct (decide (first + Z.of_nat (S k) * delta < last)%Z) as [Hout|Hout];
        [done|].
      injection Hr as <-. simpl. f_equal. lia.
    + intros i a b Ha Hb. rewrite Hlook in Ha. rewrite Hlook in Hb.
      destruct (decide (first + Z.of_nat i * delta < last)%Z) as [Hi|Hi];
        [|done].
      destruct (decide (first + Z.of_nat (S i) * delta < last)%Z) as [Hsi|Hsi];
        [|done].
      injection Ha as <-. injection Hb as <-. simpl. f_equal. lia.
Qed.

(** X15: with dates that parse, [split_date_ranges] raises ValueError
    exactly for the frequencies other than 1min, 5min, 1hour, 4hour and
    1day; for these five it returns a list or, when a step leads past
    [datetime.max], raises OverflowError.  The frequencies that
    [select_data] offers for stock data (daily, weekly, monthly,
    annually) are all among the rejected ones. *)
Theorem split_date_ranges_frequencies start_date end_date first last :
  strptime start_date = Ok first ->
  strptime end_date = Ok last ->
  (forall frequency,
     frequency ∈ ["1min"; "5min"; "1hour"; "4hour"; "1day"] ->
     (exists ranges, split_date_ranges start_date end_date frequency = Ok ranges)
     \/ split_date_ranges start_date end_date frequency = Raise OverflowError)
  /\ (forall frequency,
       frequency ∉ ["1min"; "5min"; "1hour"; "4hour"; "1day"] ->
       split_date_ranges start_date end_date frequency = Raise ValueError)
  /\ Forall (fun frequency =>
              split_date_ranges start_date end_date frequency = Raise ValueError)
       ["daily"; "weekly"; "monthly"; "annually"].
Proof.
  intros Hs He.
  assert (Hother : forall frequency,
            frequency ∉ ["1min"; "5min"; "1hour"; "4hour"; "1day"] ->
            split_date_ranges start_date end_date frequency = Raise ValueError).
  { intros frequency Hnot. unfold split_date_ranges. rewrite Hs, He.
    destruct (frequency_delta frequency) as [delta|ex] eqn:Hd.
    - destruct Hnot. apply frequency_delta_supported. by eexists.
    - unfold frequency_delta in Hd.
      repeat case_decide; try discriminate. by injection Hd as <-. }
  split; [|split; [done|]].
  - intros frequency Hin.
    apply frequency_delta_supported in Hin as [delta Hd].
    pose proof (frequency_delta_positive _ _ Hd) as Hpos.
    destruct (decide ((first < last)%Z
                      /\ (datetime_max
                          < first + (last - first + delta - 1) / delta * delta)%Z))
      as [[Hlt Hover]|Hsafe].
    + right. unfold split_date_ranges. rewrite Hs, He, Hd.
      set (m := ((last - first + delta - 1) / delta)%Z) in *.
      pose proof (steps_before_end first last delta Hpos) as Hm. fold m in Hm.
      assert (0 < m)%Z by (apply Hm; lia).
      apply (split_loop_overflow _ _ _ _ _ (Z.to_nat (m - 1))); [done|lia| |].
      * apply Hm. lia.
      * replace (Z.of_nat (Z.to_nat (m - 1)) + 1)%Z with m by lia. done.
    + left.
      destruct (split_date_ranges_lookup _ _ _ _ _ _ Hs He Hd) as (ranges & Hrun & _);
        [intros Hlt; lia|].
      by exists ranges.
  - repeat constructor; apply Hother; intros Hin;
      apply list_elem_of_In in Hin; vm_compute in Hin; intuition discriminate.
Qed.

(** X18: the end of a subrange is computed before it is cut at the end
    date.  So when the start date lies before the end date and the last
    step of [delta] days leads past [datetime.max], [split_date_ranges]
    raises OverflowError although both dates are valid: a range that ends
    on 9999-12-31 can only be split when its length is a multiple of the
    step. *)
Theorem split_date_ranges_overflow start_date end_date frequency first last delta :
  strptime start_date = Ok first ->
  strptime end_date = Ok last ->
  frequency_delta frequency = Ok delta ->
  (first < last)%Z ->
  (datetime_max < first + (last - first + delta - 1) / delta * delta)%Z ->
  split_date_ranges start_date end_date frequency = Raise OverflowError.
Proof.
  intros Hs He Hd Hlt Hover.
  pose proof (frequency_delta_positive _ _ Hd) as Hpos.
  unfold split_date_ranges. rewrite Hs, He, Hd.
  set (m := ((last - first + delta - 1) / delta)%Z) in *.
  pose proof (steps_before_end first last delta Hpos) as Hm. fold m in Hm.
  assert (0 < m)%Z by (apply Hm; lia).
  apply (split_loop_overflow _ _ _ _ _ (Z.to_nat (m - 1))); [done|lia| |].
  - apply Hm. lia.
  - replace (Z.of_nat (Z.to_nat (m - 1)) + 1)%Z with m by lia. done.
Qed.

End DateRangeFacts.

Section ModelSelectionFacts.

Context {str_ops : StrOps}.

(** ** The models picked by [model_selection_input] *)

Lemma numbered_models_lookup (l : list (nat * string)) (d : gmap string string) key :
  (exists i m, (i, m) ∈ l /\ key = pretty (i + 1)
               /\ foldl (fun d im => <[pretty (im.1 + 1) := im.2]> d) d l !! key
                  = Some m)
  \/ ((forall i m, (i, m) ∈ l -> key <> pretty (i + 1))
      /\ foldl (fun d im => <[pretty (im.1 + 1) := im.2]> d) d l !! key = d !! key).
Proof.
  revert d. induction l as [|[i0 m0] l IH]; intros d; simpl.
  { right. split; [|done]. intros i m Hin. by inversion Hin. }
  destruct (IH (<[pretty (i0 + 1) := m0]> d)) as [(i & m & Hin & Hkey & Hres)|[Hnone Hres]].
  - left. exists i, m. split; [by right|]. done.
  - destruct (decide (key = pretty (i0 + 1))) as [->|Hne].
    + left. exists i0, m0. split; [left|]. split; [done|].
      by rewrite Hres, lookup_insert_eq.
    + right. split.
      * intros i m Hin. apply elem_of_cons in Hin as [Heq|Hin].
        -- injection Heq as -> ->. done.
        -- by apply (Hnone i m).
      * by rewrite Hres, lookup_insert_ne.
Qed.

Lemma elem_of_enumerate start (models : list string) i m :
  (i, m) ∈ zip (seq start (length models)) models
  <-> exists k, i = start + k /\ models !! k = Some m.
Proof.
  rewrite list_elem_of_lookup. split.
  - intros [k Hk]. rewrite lookup_zip_with in Hk.
    destruct (seq start (length models) !! k) as [j|] eqn:Hj; simpl in Hk; [|done].
    destruct (models !! k) as [m'|] eqn:Hm; simpl in Hk; [|done].
    injection Hk as <- <-. apply lookup_seq in Hj as [-> _]. by exists k.
  - intros (k & -> & Hk). exists k. rewrite lookup_zip_with.
    rewrite lookup_seq_lt by (by eapply lookup_lt_Some). simpl.
    by rewrite Hk.
Qed.

(** The dictionary holds, under the decimal numeral of [i + 1], the model
    at position [i], and nothing else. *)
Lemma available_models_lookup (models : list string) key m :
  available_models models !! key = Some m
  <-> exists i, key = pretty (i + 1) /\ models !! i = Some m.
Proof.
  unfold available_models, available_models_from.
  destruct (numbered_models_lookup (zip (seq 0 (length models)) models) ∅ key)
    as [(i & m' & Hin & Hkey & Hres)|[Hnone Hres]].
  - rewrite Hres. apply elem_of_enumerate in Hin as (k & -> & Hk). simpl in *.
    split.
    + intros [= <-]. by exists k.
    + intros (i & Hi & Hm). subst key.
      apply (inj pretty) in Hi. assert (i = k) by lia. subst i.
      congruence.
  - rewrite Hres, lookup_empty. split; [done|].
    intros (i & -> & Hm). destruct (Hnone i m); [|done].
    apply elem_of_enumerate. by exists i.
Qed.

(** X16: whatever is typed, [model_selection_input] returns only models
    of the configured list and never raises; every first line other than
    "2" (after stripping), "1" and invalid choices alike, selects the
    whole list. *)
Theorem model_selection_stays_within_models
    (models : list string) first_line second_line :
  (forall m, m ∈ model_selection_input models first_line second_line -> m ∈ models)
  /\ (strip first_line <> "2" ->
      model_selection_input models first_line second_line = models).
Proof.
  unfold model_selection_input. split.
  - intros m. repeat case_decide; try done.
    intros Hin. apply list_elem_of_omap in Hin as (num & _ & Hnum).
    apply available_models_lookup in Hnum as (i & _ & Hi).
    by eapply list_elem_of_lookup_2.
  - intros Hne. by repeat case_decide.
Qed.

(** X17: for the choice "2", a model is selected exactly when one of the
    comma-separated pieces of the second line, once stripped, is the
    decimal numeral of its position counted from 1; pieces that are no
    such numeral, out of range or empty, are skipped without an error. *)
Theorem model_selection_by_number (models : list string) first_line second_line :
  strip first_line = "2" ->
  forall m,
    m ∈ model_selection_input models first_line second_line
    <-> exists num i,
          num ∈ split_on ","%char (strip second_line)
          /\ strip num = pretty (i + 1)
          /\ models !! i = Some m.
Proof.
  intros Htwo m. unfold model_selection_input. rewrite Htwo.
  rewrite decide_False by done. rewrite decide_True by done.
  rewrite list_elem_of_omap. split.
  - intros (num & Hin & Hnum).
    apply available_models_lookup in Hnum as (i & Hkey & Hi).
    by exists num, i.
  - intros (num & i & Hin & Hkey & Hi). exists num. split; [done|].
    apply available_models_lookup. by exists i.
Qed.

End ModelSelectionFacts.

(** * The further properties at work on examples *)

Lemma fill_semantics_witness :
  bfill (ffill gappy_prices) !! 1 = Some (Some 100%Z)
  /\ (forall j, 1 <= j -> j < length gappy_prices ->
        (forall k, 1 < k <= j -> gappy_prices !! k = Some None) ->
        bfill (ffill gappy_prices) !! j = Some (Some 100%Z))
  /\ ((forall k, k < 1 -> gappy_prices !! k = Some None) ->
      forall j, j <= 1 -> bfill (ffill gappy_prices) !! j = Some (Some 100%Z)).
Proof. apply (fill_semantics gappy_prices 1 100%Z); reflexivity. Defined.

Lemma window_shorter_than_candle_raises_witness :
  window_points_of half_minute_model = Ok 0%Z
  /\ (_calculate_volatility_features half_minute_model 0 (example_world twenty_bars)).2 = Raise ValueError
  /\ (train half_minute_model 0 (example_world twenty_bars)).2 = Raise ValueError
  /\ est_state (train half_minute_model 0 (example_world twenty_bars)).1 = est_state (example_world twenty_bars)
  /\ (inference half_minute_model 0 (example_world twenty_bars)).2 = Raise ValueError
  /\ est_state (inference half_minute_model 0 (example_world twenty_bars)).1 = est_state (example_world twenty_bars).
Proof. eapply (window_shorter_than_candle_raises half_minute_model (example_world twenty_bars) 0 twenty_bars _ _); example_hypothesis. Defined.

Lemma missing_close_raises_witness :
  (train example_model 0 (example_world bars_without_close)).2 = Raise (KeyError "close")
  /\ est_state (train example_model 0 (example_world bars_without_close)).1 = est_state (example_world bars_without_close)
  /\ frames (train example_model 0 (example_world bars_without_close)).1 !! 0 = Some bars_without_close
  /\ (inference example_model 0 (example_world bars_without_close)).2 = Raise (KeyError "close")
  /\ est_state (inference example_model 0 (example_world bars_without_close)).1 = est_state (example_world bars_without_close)
  /\ frames (inference example_model 0 (example_world bars_without_close)).1 !! 0 = Some bars_without_close.
Proof. eapply (missing_close_raises example_model (example_world bars_without_close) 0 bars_without_close 5%Z); example_hypothesis. Defined.

Lemma missing_volume_raises_witness :
  (train example_model 0 (example_world bars_without_volume)).2 = Raise (KeyError "volume")
  /\ est_state (train example_model 0 (example_world bars_without_volume)).1 = est_state (example_world bars_without_volume)
  /\ (inference example_model 0 (example_world bars_without_volume)).2 = Raise (KeyError "volume")
  /\ est_state (inference example_model 0 (example_world bars_without_volume)).1 = est_state (example_world bars_without_volume).
Proof. eapply (missing_volume_raises example_model (example_world bars_without_volume) 0 bars_without_volume _ 5%Z); example_hypothesis. Defined.

Lemma training_rows_need_history_witness :
  let n := length (index twenty_bars) in
  let step := Z.to_nat 5%Z in
  exists sampled X y,
    frames (train example_model 0 (example_world twenty_bars)).1 !! (length (frames (example_world twenty_bars)) + 4) = Some sampled
    /\ EvFit X y ∈ events (train example_model 0 (example_world twenty_bars)).1
    /\ index X = keep (notna_rows sampled) (index sampled)
    /\ (forall k, notna_rows sampled !! k = Some true ->
          9 <= k * step /\ ((k * step + 5) / step + 1) * step <= n)
    /\ (n < 15 -> index X = [] /\ y = []).
Proof. eapply (training_rows_need_history example_model (example_world twenty_bars) 0 twenty_bars _ _ 5%Z); example_hypothesis. Defined.

Lemma training_rows_are_input_rows_witness :
  exists X y,
    EvFit X y ∈ events (train example_model 0 (example_world twenty_bars)).1
    /\ index X `sublist_of` index twenty_bars.
Proof. eapply (training_rows_are_input_rows example_model (example_world twenty_bars) 0 twenty_bars _ _ 5%Z); example_hypothesis. Defined.


Lemma wide_window_target_is_current_volatility_witness :
  exists w' q names sampled current,
    _calculate_volatility_features ten_minute_model 0 (example_world twenty_bars) = (w', Ok (q, names))
    /\ frames w' !! q = Some sampled
    /\ col sampled "current_volatility" = Some current
    /\ col sampled "target_volatility" = Some current.
Proof. eapply (wide_window_target_is_current_volatility ten_minute_model (example_world twenty_bars) 0 twenty_bars _ _ 10%Z); example_hypothesis. Defined.

Lemma inference_zero_fills_rows_without_history_witness :
  let n := length (index twenty_bars) in
  let step := Z.to_nat 5%Z in
  exists X sma current,
    events (inference example_model 0 (fitted_world twenty_bars)).1 = events (fitted_world twenty_bars) ++ [EvPredict X]
    /\ col X "SMA_10" = Some sma
    /\ col X "current_volatility" = Some current
    /\ (forall t, t < n -> t < 9 -> sma !! t = Some (Some fzero))
    /\ (forall t, (n / step) * step <= t < n -> current !! t = Some (Some fzero))
    /\ (forall i, 1 <= i <= 4 ->
          exists log_return_lag volume_lag,
            col X ("log_return_t-" +:+ pretty i) = Some log_return_lag
            /\ col X ("volume_t-" +:+ pretty i) = Some volume_lag
            /\ forall t, t < n -> t < i ->
                 log_return_lag !! t = Some (Some fzero)
                 /\ volume_lag !! t = Some (Some fzero)).
Proof. eapply (inference_zero_fills_rows_without_history example_model (fitted_world twenty_bars) 0 twenty_bars _ _ 5%Z); example_hypothesis. Defined.

Lemma split_date_ranges_steps_witness :
  exists ranges,
    split_date_ranges "2021-01-01" "2021-02-15" "5min" = Ok ranges
    /\ (forall i : nat,
         ranges !! i =
           if decide (18628%Z + Z.of_nat i * 15%Z < 18673%Z)%Z
           then Some (strftime (18628%Z + Z.of_nat i * 15%Z)%Z,
                      strftime (Z.min (18628%Z + (Z.of_nat i + 1) * 15%Z) 18673%Z))
           else None)
    /\ Z.of_nat (length ranges)
       = (if decide (18628%Z < 18673%Z)%Z then (18673%Z - 18628%Z + 15%Z - 1) / 15%Z else 0)%Z.
Proof.
  apply (split_date_ranges_steps "2021-01-01" "2021-02-15" "5min" 18628%Z 18673%Z 15%Z);
    [reflexivity..|intros _; vm_compute; discriminate].
Defined.

Lemma split_date_ranges_tiles_witness :
  exists ranges,
    split_date_ranges "2021-01-01" "2021-02-15" "5min" = Ok ranges
    /\ ((18673%Z <= 18628%Z)%Z -> ranges = [])
    /\ ((18628%Z < 18673%Z)%Z ->
        (exists r, ranges !! 0 = Some r /\ r.1 = strftime 18628%Z)
        /\ (exists r, ranges !! (length ranges - 1) = Some r /\ r.2 = strftime 18673%Z)
        /\ (forall i a b, ranges !! i = Some a -> ranges !! (S i) = Some b ->
              a.2 = b.1)).
Proof.
  apply (split_date_ranges_tiles "2021-01-01" "2021-02-15" "5min" 18628%Z 18673%Z 15%Z);
    [reflexivity..|intros _; vm_compute; discriminate].
Defined.

Lemma split_date_ranges_frequencies_witness :
  (forall frequency,
     frequency ∈ ["1min"; "5min"; "1hour"; "4hour"; "1day"] ->
     (exists ranges, split_date_ranges "2021-01-01" "2021-02-15" frequency = Ok ranges)
     \/ split_date_ranges "2021-01-01" "2021-02-15" frequency = Raise OverflowError)
  /\ (forall frequency,
       frequency ∉ ["1min"; "5min"; "1hour"; "4hour"; "1day"] ->
       split_date_ranges "2021-01-01" "2021-02-15" frequency = Raise ValueError)
  /\ Forall (fun frequency =>
              split_date_ranges "2021-01-01" "2021-02-15" frequency = Raise ValueError)
       ["daily"; "weekly"; "monthly"; "annually"].
Proof. apply (split_date_ranges_frequencies "2021-01-01" "2021-02-15" 18628%Z 18673%Z); reflexivity. Defined.

Lemma split_date_ranges_overflow_witness :
  split_date_ranges "9999-12-30" "9999-12-31" "5min" = Raise OverflowError.
Proof.
  apply (split_date_ranges_overflow "9999-12-30" "9999-12-31" "5min"
           2932895%Z 2932896%Z 15%Z); reflexivity.
Defined.

Lemma model_selection_by_number_witness :
    "prophet" ∈ model_selection_input example_models " 2 " " 1, 3,x,, 9 ,4"
    <-> exists num i,
          num ∈ split_on ","%char (strip " 1, 3,x,, 9 ,4")
          /\ strip num = pretty (i + 1)
          /\ example_models !! i = Some "prophet".
Proof. exact (model_selection_by_number example_models " 2 " " 1, 3,x,, 9 ,4" eq_refl "prophet"). Defined.
